(** * Workspace dependency maintenance ([scripts/deps.py])

    A shallow embedding of the [hoist], [restore] and [sort] commands of
    [scripts/deps.py], of the helpers they call, the properties of the
    design document that can be settled on them, and further properties
    read off the code.

    Modelling choices.
    - A TOML document is the tree tomlkit hands to the script: tables are
      association lists in document order (order matters to [sort]); tomlkit
      never yields a table with a repeated key, and the statements that
      depend on it assume [uniq_keys].
    - A file holds either a document or text that [tomlkit.parse] rejects;
      [tomlkit.dumps] writes the document back.  Layout and comments, which
      tomlkit carries through unchanged, are left out.
    - The file system is a finite map from paths (lists of components) to
      contents; only regular files are represented.
    - A Python exception aborts the command: the commands return the file
      system reached together with either a report or the error.
    - [typer.echo] lines are represented by the structured report (the three
      counters, the list of backups, the restored and skipped files); the
      [-v] lines are left out. *)

From Stdlib Require Import ZArith String Ascii List Bool.
From stdpp Require Import base option list gmap strings sorting.
Import ListNotations.
Local Open Scope string_scope.
Local Open Scope list_scope.
Set Warnings "-register-all".

(** ** Documents *)

(** [tomlkit.items.Table] (a [[section]]) and [tomlkit.items.InlineTable]
    (a [{ ... }] value). *)
Inductive tkind := Block | Inline.

Inductive value :=
| VStr (s : string)                       (* tomlkit String, a [str] *)
| VBool (b : bool)                        (* read back as a Python bool *)
| VInt (n : Z)
| VScalar (truth : bool) (text : string)  (* float, date, time: truth value and text *)
| VArr (items : list value)               (* Array and array of tables, both [list]s *)
| VTable (k : tkind) (fields : list (string * value)).

Abbreviation table := (list (string * value)).
Abbreviation path := (list string).

Definition keys (t : table) : list string := t.*1.

Definition uniq_keys (t : table) : Prop := NoDup (keys t).

(** [t.get(k)] *)
Fixpoint tget (k : string) (t : table) : option value :=
  match t with
  | [] => None
  | (k', v) :: t' => if decide (k = k') then Some v else tget k t'
  end.

(** [k in t] *)
Definition thas (k : string) (t : table) : bool :=
  match tget k t with Some _ => true | None => false end.

(** [t[k] = v]: an existing key keeps its place, a new one goes last. *)
Fixpoint tset (k : string) (v : value) (t : table) : table :=
  match t with
  | [] => [(k, v)]
  | (k', v') :: t' =>
      if decide (k = k') then (k, v) :: t' else (k', v') :: tset k v t'
  end.

(** [del t[k]] *)
Definition tdel (k : string) (t : table) : table :=
  filter (λ kv, kv.1 ≠ k) t.

(** Python truth value of what [get] returns. *)
Definition truthy (v : value) : bool :=
  match v with
  | VStr s => negb (bool_decide (s = ""))
  | VBool b => b
  | VInt n => negb (Z.eqb n 0)
  | VScalar b _ => b
  | VArr l => negb (bool_decide (l = []))
  | VTable _ f => negb (bool_decide (f = []))
  end.

(** [bool(t.get(k))] *)
Definition get_truthy (k : string) (t : table) : bool :=
  match tget k t with Some v => truthy v | None => false end.

(** [isinstance(v, (Table, InlineTable)) and v.get(k)] *)
Definition table_with (k : string) (v : value) : bool :=
  match v with VTable _ f => get_truthy k f | _ => false end.

(** [isinstance(v, Table)]: the fields of a block table. *)
Definition as_block (v : option value) : option table :=
  match v with Some (VTable Block f) => Some f | _ => None end.

(** ** Files *)

Inductive content :=
| Toml (doc : table)
| Malformed (text : string).

Definition parse (c : content) : option table :=
  match c with Toml d => Some d | Malformed _ => None end.

Definition dumps (d : table) : content := Toml d.

Abbreviation fsys := (gmap (list string) content).

Inductive error :=
| MissingRootManifest            (* [typer.Exit(1)] *)
| MalformedManifest (p : path)   (* [tomlkit.parse] raised *)
| FileNotFound (p : path)        (* [shutil.copy2] on a missing source *)
| TypeError                      (* an operation on a value of the wrong type *)
| KeyError.                      (* a subscript with an absent key *)

Definition IGNORES : list string := ["target"; ".git"; "node_modules"; "vendor"].
Definition SECTIONS : list string :=
  ["dependencies"; "dev-dependencies"; "build-dependencies"].

(** Stable insertion sort: what Python's [sorted] returns for a total
    preorder [leb]. *)
Fixpoint insert_by {A} (leb : A → A → bool) (x : A) (l : list A) : list A :=
  match l with
  | [] => [x]
  | y :: l' => if leb x y then x :: l else y :: insert_by leb x l'
  end.

Definition sorted_by {A} (leb : A → A → bool) (l : list A) : list A :=
  foldr (insert_by leb) [] l.

(** ** Paths *)

(** Order of [pathlib] paths: component by component. *)
Fixpoint path_leb (p q : path) : bool :=
  match p, q with
  | [], _ => true
  | _ :: _, [] => false
  | a :: p', b :: q' =>
      match String.compare a b with
      | Lt => true
      | Gt => false
      | Eq => path_leb p' q'
      end
  end.

(** [p.name] and [p.with_name(n)] *)
Definition name (p : path) : string := default "" (last p).
Definition with_name (p : path) (n : string) : path := removelast p ++ [n].

(** [IGNORES & set(p.parts)] *)
Definition ignored (p : path) : bool :=
  existsb (λ c, bool_decide (c ∈ IGNORES)) p.

(** A file that [root.rglob("Cargo.toml")] yields: below [root], named
    [Cargo.toml]. *)
Definition rglob_match (root p : path) : bool :=
  bool_decide (root `prefix_of` p) && negb (bool_decide (root = p))
  && bool_decide (last p = Some "Cargo.toml").

Definition find_cargo_tomls (root : path) (fs : fsys) : list path :=
  sorted_by path_leb
    (filter (λ p, rglob_match root p = true ∧ ignored p = false)
            (map_to_list fs).*1).

(** [shutil.copy2(src, dst)] *)
Definition copy2 (src dst : path) (fs : fsys) : error + fsys :=
  match fs !! src with
  | Some c => inr (<[dst := c]> fs)
  | None => inl (FileNotFound src)
  end.

(** [p.write_text(tomlkit.dumps(doc))] *)
Definition write_text (p : path) (doc : table) (fs : fsys) : fsys :=
  <[p := dumps doc]> fs.

(** [clock p] is the UTC time, formatted [%Y%m%dT%H%M%SZ], at which the
    backup of [p] is taken. *)
Definition backup_file (clock : path → string) (p : path) (fs : fsys)
  : error + (fsys * path) :=
  let bak := with_name p (name p +:+ ".bak") in
  match fs !! bak with
  | None =>
      match copy2 p bak fs with
      | inr fs' => inr (fs', bak)
      | inl e => inl e
      end
  | Some _ =>
      let bak2 := with_name p (name p +:+ "." +:+ clock p +:+ ".bak") in
      match copy2 p bak2 fs with
      | inr fs' => inr (fs', bak2)
      | inl e => inl e
      end
  end.

(** ** The shared table *)

(** Returns the root document with the [workspace] and
    [workspace.dependencies] tables in place; the table the Python function
    returns is read from it by [ws_deps].  Any [workspace] value other than
    a table makes Python raise. *)
Definition ensure_workspace_deps (root_doc : table) : error + table :=
  let root1 :=
    if thas "workspace" root_doc then root_doc
    else tset "workspace" (VTable Block []) root_doc in
  match tget "workspace" root1 with
  | Some (VTable k ws) =>
      if thas "dependencies" ws then inr root1
      else inr (tset "workspace"
                  (VTable k (tset "dependencies" (VTable Block []) ws)) root1)
  | _ => inl TypeError
  end.

(** [root_doc["workspace"]["dependencies"]] *)
Definition ws_deps (root_doc : table) : option value :=
  match tget "workspace" root_doc with
  | Some (VTable _ ws) => tget "dependencies" ws
  | _ => None
  end.

(** [sub in s] for two strings *)
Definition is_substring (sub s : string) : bool :=
  match String.index 0 sub s with Some _ => true | None => false end.

(** [dep in ws_deps]: a key test on a table, a substring test on a string,
    an element test on an array, an exception otherwise. *)
Definition ws_contains (dep : string) (w : value) : error + bool :=
  match w with
  | VTable _ f => inr (thas dep f)
  | VStr s => inr (is_substring dep s)
  | VArr l =>
      inr (existsb (λ v, match v with
                         | VStr s => bool_decide (s = dep)
                         | _ => false
                         end) l)
  | _ => inl TypeError
  end.

(** [ws_deps[dep] = version], seen from the root document. *)
Definition ws_insert (dep : string) (version : value) (root_doc : table)
  : error + table :=
  match tget "workspace" root_doc with
  | Some (VTable k ws) =>
      match tget "dependencies" ws with
      | Some (VTable k' f) =>
          inr (tset "workspace"
                 (VTable k (tset "dependencies"
                              (VTable k' (tset dep version f)) ws)) root_doc)
      | _ => inl TypeError
      end
  | _ => inl TypeError
  end.

(** ** Resolution and mutation *)

Definition extract_version (spec : value) : option value :=
  match spec with
  | VStr _ => Some spec
  | VTable _ f => if get_truthy "path" f then None else tget "version" f
  | _ => None
  end.

(** [None] is Python's [KeyError] on [dep_table[dep]]. *)
Definition mutate_member_dep (dep_table : table) (dep : string)
    (version : value) : option table :=
  match tget dep dep_table with
  | None => None
  | Some (VStr _) =>
      Some (tset dep (VTable Inline (tset "workspace" (VBool true) [])) dep_table)
  | Some (VTable k f) =>
      Some (tset dep
              (VTable k (tset "workspace" (VBool true)
                           (if thas "version" f then tdel "version" f else f)))
              dep_table)
  | Some _ => Some dep_table
  end.

(** ** [hoist] *)

(** One collected declaration: [(sec, p, spec)]. *)
Abbreviation occurrence := (string * list string * value)%type.

(** The [needed] dictionary, in insertion order. *)
Abbreviation needed_t := (list (string * list (string * list string * value))).

Record counts := Counts { added : nat; updated : nat; skipped : nat }.

Record report := Report {
  rep_dry : bool;                          (* the [[dry-run]] line or the [done:] line *)
  rep_counts : counts;
  rep_backups : list (path * string)       (* [modified] *)
}.

(** [docs[p]]; every path the command looks up is a key of [docs]. *)
Definition doc_at (docs : gmap path table) (p : path) : table :=
  default [] (docs !! p).

(** [files.remove(x)] *)
Fixpoint remove_first (x : path) (l : list path) : list path :=
  match l with
  | [] => []
  | y :: l' => if decide (x = y) then l' else y :: remove_first x l'
  end.

(** [{p: tomlkit.parse(p.read_text()) for p in files}] *)
Fixpoint parse_all (fs : fsys) (files : list path) (docs : gmap path table)
  : error + gmap path table :=
  match files with
  | [] => inr docs
  | p :: rest =>
      match fs !! p with
      | None => inl (FileNotFound p)
      | Some c =>
          match parse c with
          | None => inl (MalformedManifest p)
          | Some d => parse_all fs rest (<[p := d]> docs)
          end
      end
  end.

(** [needed[dep].append(o)] on a [defaultdict(list)] *)
Fixpoint needed_append (dep : string) (o : occurrence) (needed : needed_t)
  : needed_t :=
  match needed with
  | [] => [(dep, [o])]
  | (d, os) :: rest =>
      if decide (dep = d) then (d, os ++ [o]) :: rest
      else (d, os) :: needed_append dep o rest
  end.

Definition collect_section (sec : string) (p : path) (tbl : table)
    (needed : needed_t) : needed_t :=
  foldl (λ nd '(dep, spec),
           if table_with "workspace" spec then nd
           else needed_append dep (sec, p, spec) nd) needed tbl.

Definition collect_file (docs : gmap path table) (needed : needed_t) (p : path)
  : needed_t :=
  foldl (λ nd sec,
           match as_block (tget sec (doc_at docs p)) with
           | Some tbl => collect_section sec p tbl nd
           | None => nd
           end) needed SECTIONS.

(** The loop over [files[1:]]. *)
Definition collect (docs : gmap path table) (members : list path) : needed_t :=
  foldl (collect_file docs) [] members.

(** The scan for the first version: the version found and the [skip] flag. *)
Fixpoint first_version (occ : list occurrence) (version : option value)
  : option value * bool :=
  match occ with
  | [] => (version, false)
  | (_, _, spec) :: rest =>
      match extract_version spec with
      | None =>
          if table_with "path" spec then (version, true)
          else first_version rest version
      | Some v =>
          first_version rest
            (match version with None => Some v | Some _ => version end)
      end
  end.

(** [skip or version is None] decides; otherwise the version to hoist. *)
Definition resolve (occ : list occurrence) : option value :=
  match first_version occ None with
  | (_, true) => None
  | (version, false) => version
  end.

Fixpoint for_each {S A} (f : S → A → error + S) (l : list A) (s : S)
  : error + S :=
  match l with
  | [] => inr s
  | x :: l' =>
      match f s x with
      | inr s' => for_each f l' s'
      | inl e => inl e
      end
  end.

(** The body of the loop that mutates each member occurrence. *)
Definition mutate_occurrence (dep : string) (version : value)
    (st : gmap path table * nat) (o : occurrence)
  : error + (gmap path table * nat) :=
  let '(docs, upd) := st in
  let '(sec, p, _) := o in
  match as_block (tget sec (doc_at docs p)) with
  | Some sect =>
      if thas dep sect then
        match mutate_member_dep sect dep version with
        | Some sect' =>
            inr (<[p := tset sec (VTable Block sect') (doc_at docs p)]> docs,
                 S upd)
        | None => inl KeyError
        end
      else inr st
  | None => inr st
  end.

(** The body of the loop over [needed.items()]. *)
Definition hoist_dep (root_toml : path) (st : gmap path table * counts)
    (item : string * list occurrence) : error + (gmap path table * counts) :=
  let '(docs, c) := st in
  let '(dep, occ) := item in
  match resolve occ with
  | None => inr (docs, Counts (added c) (updated c) (S (skipped c)))
  | Some version =>
      match ws_deps (doc_at docs root_toml) with
      | None => inl TypeError
      | Some w =>
          match ws_contains dep w with
          | inl e => inl e
          | inr present =>
              let ins :=
                if present then inr (docs, added c)
                else match ws_insert dep version (doc_at docs root_toml) with
                     | inr rd => inr (<[root_toml := rd]> docs, S (added c))
                     | inl e => inl e
                     end in
              match ins with
              | inl e => inl e
              | inr (docs1, add1) =>
                  match for_each (mutate_occurrence dep version) occ
                                 (docs1, updated c) with
                  | inr (docs2, upd2) =>
                      inr (docs2, Counts add1 upd2 (skipped c))
                  | inl e => inl e
                  end
              end
          end
      end
  end.

(** Everything up to the [dry_run] test: the documents in memory and the
    counters. *)
Definition hoist_compute (root_toml : path) (files : list path) (fs : fsys)
  : error + (needed_t * gmap path table * counts) :=
  match parse_all fs files ∅ with
  | inl e => inl e
  | inr docs =>
      let needed := collect docs (tail files) in
      match ensure_workspace_deps (doc_at docs root_toml) with
      | inl e => inl e
      | inr rd =>
          match for_each (hoist_dep root_toml) needed
                         (<[root_toml := rd]> docs, Counts 0 0 0) with
          | inr (docs', c) => inr (needed, docs', c)
          | inl e => inl e
          end
      end
  end.

(** One backup and write; [modified] gets [(p.relative_to(root), bak.name)]. *)
Definition backup_and_write (root : path) (clock : path → string)
    (docs : gmap path table) (p : path)
    (st : fsys * list (path * string)) : fsys * list (path * string) + fsys * error :=
  let '(fs, modified) := st in
  match backup_file clock p fs with
  | inl e => inr (fs, e)
  | inr (fs1, bak) =>
      inl (write_text p (doc_at docs p) fs1,
           modified ++ [(drop (length root) p, name bak)])
  end.

(** The loop over every collected occurrence that writes each member once. *)
Fixpoint write_members (root : path) (clock : path → string)
    (docs : gmap path table) (root_toml : path) (ps : list path)
    (seen : list path) (st : fsys * list (path * string))
  : fsys * list (path * string) + fsys * error :=
  match ps with
  | [] => inl st
  | p :: rest =>
      if bool_decide (p ∈ seen) || bool_decide (p = root_toml)
      then write_members root clock docs root_toml rest seen st
      else match backup_and_write root clock docs p st with
           | inl st' =>
               write_members root clock docs root_toml rest (p :: seen) st'
           | inr e => inr e
           end
  end.

(** [[x for occ in needed.values() for x in occ]], the paths only. *)
Definition occurrence_paths (needed : needed_t) : list path :=
  (λ o : occurrence, o.1.2) <$> concat needed.*2.

Definition hoist (root : path) (dry_run : bool) (clock : path → string)
    (fs : fsys) : fsys * (error + report) :=
  let root_toml := root ++ ["Cargo.toml"] in
  match fs !! root_toml with
  | None => (fs, inl MissingRootManifest)
  | Some _ =>
      let files := root_toml :: remove_first root_toml (find_cargo_tomls root fs) in
      match hoist_compute root_toml files fs with
      | inl e => (fs, inl e)
      | inr (needed, docs, c) =>
          if dry_run then (fs, inr (Report true c []))
          else
            let st0 :=
              if bool_decide (added c ≠ 0)
              then backup_and_write root clock docs root_toml (fs, [])
              else inl (fs, []) in
            match st0 with
            | inr (fs', e) => (fs', inl e)
            | inl st1 =>
                match write_members root clock docs root_toml
                        (occurrence_paths needed) [] st1 with
                | inl (fs', modified) => (fs', inr (Report false c modified))
                | inr (fs', e) => (fs', inl e)
                end
            end
      end
  end.

(** ** [sort] *)

(** [k.startswith("kintsu")] *)
Definition is_internal (k : string) : bool := String.prefix "kintsu" k.

(** The order [sorted] puts [(k, v)] pairs in: keys are distinct, so the
    values are never compared. *)
Definition key_leb (a b : string * value) : bool := String.leb a.1 b.1.

(** A table built by assigning the items in turn. *)
Definition from_items (l : table) : table :=
  foldl (λ out kv, tset kv.1 kv.2 out) [] l.

(** [t = inline_table(); t.update(v) if v is a Table; t if t else v] *)
Definition inline_if_table (v : value) : value :=
  match v with
  | VTable Block f =>
      let t := from_items f in
      if bool_decide (t = []) then v else VTable Inline t
  | _ => v
  end.

(** The fields of the table [sort_deps_table] returns, for a [Table]
    argument (the only kind its callers pass). *)
Definition sort_deps_table (tbl : table) : table :=
  let kintsu := sorted_by key_leb (filter (λ kv, is_internal kv.1 = true) tbl) in
  let others := sorted_by key_leb (filter (λ kv, is_internal kv.1 = false) tbl) in
  from_items ((λ kv, (kv.1, inline_if_table kv.2)) <$> (kintsu ++ others)).

Definition as_string (v : value) : option string :=
  match v with VStr s => Some s | _ => None end.

(** [sorted(ws["members"])].  Only arrays of strings are modelled; an array
    of at most one element is returned as it is; for any other array (where
    Python raises on incomparable elements, or orders by a comparison this
    model leaves out) the model stops with [TypeError]. *)
Definition sorted_members (l : list value) : error + list value :=
  match l with
  | [] | [_] => inr l
  | _ =>
      match mapM as_string l with
      | Some ss => inr (VStr <$> sorted_by String.leb ss)
      | None => inl TypeError
      end
  end.

(** The loop over [SECTIONS] of [sort]. *)
Definition sort_sections (doc : table) (modified : bool) : table * bool :=
  foldl (λ '(d, m) sec,
           match as_block (tget sec d) with
           | Some tbl => (tset sec (VTable Block (sort_deps_table tbl)) d, true)
           | None => (d, m)
           end) (doc, modified) SECTIONS.

(** What [sort] does inside the [workspace] table. *)
Definition sort_workspace_table (ws : table) (modified : bool)
  : error + (table * bool) :=
  let '(ws1, m1) :=
    match as_block (tget "dependencies" ws) with
    | Some tbl =>
        (tset "dependencies" (VTable Block (sort_deps_table tbl)) ws, true)
    | None => (ws, modified)
    end in
  match tget "members" ws1 with
  | Some (VArr l) =>
      match sorted_members l with
      | inr l' => inr (tset "members" (VArr l') ws1, true)
      | inl e => inl e
      end
  | _ => inr (ws1, m1)
  end.

(** The [workspace] part of [sort]; the table is updated in place inside the
    document. *)
Definition sort_workspace (doc : table) (modified : bool)
  : error + (table * bool) :=
  match as_block (tget "workspace" doc) with
  | None => inr (doc, modified)
  | Some ws =>
      match sort_workspace_table ws modified with
      | inr (ws', m) => inr (tset "workspace" (VTable Block ws') doc, m)
      | inl e => inl e
      end
  end.

(** What the body of the loop of [sort] does to one parsed document: the
    document to write and the [modified] flag. *)
Definition sort_doc (doc : table) : error + (table * bool) :=
  let '(d, m) := sort_sections doc false in
  sort_workspace d m.

(** The body of the loop of [sort] for one file: the backup, the parse, the
    sorting, the write; it returns the [modified] flag. *)
Definition sort_file (dry_run : bool) (clock : path → string) (p : path)
    (fs : fsys) : fsys * (error + bool) :=
  match backup_file clock p fs with
  | inl e => (fs, inl e)
  | inr (fs1, _) =>
      match fs1 !! p with
      | None => (fs1, inl (FileNotFound p))
      | Some c =>
          match parse c with
          | None => (fs1, inl (MalformedManifest p))
          | Some doc =>
              match sort_doc doc with
              | inl e => (fs1, inl e)
              | inr (doc', modified) =>
                  (if modified && negb dry_run then write_text p doc' fs1
                   else fs1, inr modified)
              end
          end
      end
  end.

Fixpoint sort_files (dry_run : bool) (clock : path → string)
    (files : list path) (fs : fsys) (sorted_count : nat)
  : fsys * (error + nat) :=
  match files with
  | [] => (fs, inr sorted_count)
  | p :: rest =>
      match sort_file dry_run clock p fs with
      | (fs', inr modified) =>
          sort_files dry_run clock rest fs'
            (if modified then S sorted_count else sorted_count)
      | (fs', inl e) => (fs', inl e)
      end
  end.

(** The count is the one of the last line echoed, [would sort n files] or
    [sorted n files]. *)
Definition sort (root : path) (dry_run : bool) (clock : path → string)
    (fs : fsys) : fsys * (error + nat) :=
  sort_files dry_run clock (find_cargo_tomls root fs) fs 0.

(** ** [restore] *)

(** A file that [root.rglob(n)] yields: below [root], named [n]. *)
Definition rglob_named (n : string) (root p : path) : bool :=
  bool_decide (root `prefix_of` p) && negb (bool_decide (root = p))
  && bool_decide (last p = Some n).

(** [sorted(root.rglob("Cargo.toml.bak"))] *)
Definition find_backups (root : path) (fs : fsys) : list path :=
  sorted_by path_leb
    (filter (λ p, rglob_named "Cargo.toml.bak" root p = true) (map_to_list fs).*1).

Record restore_report := RestoreReport {
  res_dry : bool;                     (* [would restore n files] or [restored n files] *)
  res_restored : list (path * string);  (* [restored] *)
  res_skipped : list path             (* the [skip ... (no original)] lines *)
}.

Inductive restore_result :=
| NoBackups                           (* [No Cargo.toml.bak files found] *)
| RestoreDone (r : restore_report).

(** The loop over [backups]. *)
Fixpoint restore_files (root : path) (dry_run : bool) (backups : list path)
    (fs : fsys) (restored : list (path * string)) (skips : list path)
  : fsys * (error + list (path * string) * list path) :=
  match backups with
  | [] => (fs, inr (restored, skips))
  | bak :: rest =>
      if ignored bak then restore_files root dry_run rest fs restored skips
      else
        let orig := with_name bak "Cargo.toml" in
        match fs !! orig with
        | Some _ =>
            let restored' := restored ++ [(drop (length root) orig, name bak)] in
            if dry_run then restore_files root dry_run rest fs restored' skips
            else match copy2 bak orig fs with
                 | inr fs' => restore_files root dry_run rest fs' restored' skips
                 | inl e => (fs, inl e)
                 end
        | None =>
            restore_files root dry_run rest fs restored
              (skips ++ [drop (length root) bak])
        end
  end.

Definition restore (root : path) (dry_run : bool) (fs : fsys)
  : fsys * (error + restore_result) :=
  match find_backups root fs with
  | [] => (fs, inr NoBackups)
  | backups =>
      match restore_files root dry_run backups fs [] [] with
      | (fs', inr (restored, skips)) =>
          (fs', inr (RestoreDone (RestoreReport dry_run restored skips)))
      | (fs', inl e) => (fs', inl e)
      end
  end.

(** * Vocabulary of the statements *)



Definition is_manifest (p : path) : Prop := last p = Some "Cargo.toml".

(** [p.parent] *)
Definition dir (p : path) : path := removelast p.

(** The path [backup_file] copies to. *)
Definition backup_path (clock : path → string) (fs : fsys) (p : path) : path :=
  match fs !! with_name p (name p +:+ ".bak") with
  | None => with_name p (name p +:+ ".bak")
  | Some _ => with_name p (name p +:+ "." +:+ clock p +:+ ".bak")
  end.

(** A tree whose only manifest is already sorted. *)
Definition fs_sorted : fsys :=
  <[ ["ws"; "Cargo.toml"] :=
       Toml [("dependencies",
              VTable Block [("kintsu-core", VStr "0.1"); ("serde", VStr "1.0")])] ]> ∅.


(** What [sort] stores under a dependency-section key. *)
Definition sorted_value (v : option value) : option value :=
  match as_block v with
  | Some tbl => Some (VTable Block (sort_deps_table tbl))
  | None => v
  end.

Definition is_block (v : option value) : bool :=
  match as_block v with Some _ => true | None => false end.

Definition is_array (v : option value) : bool :=
  match v with Some (VArr _) => true | _ => false end.

(** The document has something [sort] assigns to: a dependency section, the
    shared table, or the member list. *)
Definition has_sortable (doc : table) : bool :=
  existsb (λ sec, is_block (tget sec doc)) SECTIONS ||
  match as_block (tget "workspace" doc) with
  | Some ws => is_block (tget "dependencies" ws) || is_array (tget "members" ws)
  | None => false
  end.

(** Whether [sort] counts the file at [p]. *)
Definition counted (fs : fsys) (p : path) : bool :=
  match fs !! p with
  | Some (Toml doc) => has_sortable doc
  | _ => false
  end.


(** The order [sort_deps_table] aims at: internal names first, each group
    by name. *)
Definition dep_le (a b : string) : Prop :=
  (is_internal a = true ∧ is_internal b = false) ∨
  (is_internal a = is_internal b ∧ String.leb a b = true).

(** The two sorted groups of [sort_deps_table], before the table is
    rebuilt. *)
Definition sorted_groups (tbl : table) : table :=
  sorted_by key_leb (filter (λ kv, is_internal kv.1 = true) tbl) ++
  sorted_by key_leb (filter (λ kv, is_internal kv.1 = false) tbl).

(** The tables [sort] reorders: a dependency section or the shared table. *)
Inductive place := InSection (sec : string) | Shared.

Definition table_at (pl : place) (doc : table) : option table :=
  match pl with
  | InSection sec =>
      if bool_decide (sec ∈ SECTIONS) then as_block (tget sec doc) else None
  | Shared =>
      match as_block (tget "workspace" doc) with
      | Some ws => as_block (tget "dependencies" ws)
      | None => None
      end
  end.

(** Internal names before the others, each group strictly increasing. *)
Definition ordered (ks : list string) : Prop :=
  ∀ pre a rest b, ks = pre ++ a :: rest → b ∈ rest →
    (is_internal b = true → is_internal a = true) ∧
    (is_internal a = is_internal b → String.ltb a b = true).

(** The file at [p] holds a document that a pass of [sort] does not change. *)
Definition stable_at (fs : fsys) (p : path) : Prop :=
  ∃ d d' m, fs !! p = Some (Toml d) ∧ sort_doc d = inr (d', m) ∧
            (m = true → d' = d).

(** A member whose section needs reordering and whose table-valued
    dependency becomes inline. *)
Definition fs_unsorted : fsys :=
  <[ ["ws"; "Cargo.toml"] :=
       Toml [("workspace",
              VTable Block
                [("members", VArr [VStr "crates/b"; VStr "crates/a"]);
                 ("dependencies",
                  VTable Block [("serde", VStr "1.0"); ("kintsu-core", VStr "0.1")])])] ]>
  (<[ ["ws"; "crates"; "a"; "Cargo.toml"] :=
        Toml [("package", VTable Block [("name", VStr "a")]);
              ("dependencies",
               VTable Block
                 [("tokio", VTable Block [("version", VStr "1");
                                          ("features", VArr [VStr "rt"])]);
                  ("anyhow", VStr "1.0");
                  ("kintsu-core", VTable Inline [("workspace", VBool true)])])] ]>
   ∅).

(** The declarations [hoist] collects, in collection order, each with its
    dependency name. *)
Definition section_occ (docs : gmap path table) (p : path) (sec : string)
  : list (string * occurrence) :=
  match as_block (tget sec (doc_at docs p)) with
  | Some tbl =>
      (λ kv, (kv.1, (sec, p, kv.2))) <$>
        filter (λ kv, table_with "workspace" kv.2 = false) tbl
  | None => []
  end.

Definition all_occ (docs : gmap path table) (members : list path)
  : list (string * occurrence) :=
  p ← members; sec ← SECTIONS; section_occ docs p sec.

(** Filing the declarations under their names. *)
Definition group (l : list (string * occurrence)) : needed_t :=
  foldl (λ nd x, needed_append x.1 x.2 nd) [] l.

Definition occs_of (dep : string) (l : list (string * occurrence))
  : list occurrence :=
  (filter (λ x, x.1 = dep) l).*2.

(** The shared table of [rd'] holds every entry of the shared table of
    [rd], and [rd'] has a shared table if [rd] has one. *)
Definition ws_extends (rd rd' : table) : Prop :=
  (is_Some (ws_deps rd) → is_Some (ws_deps rd')) ∧
  ∀ k f, ws_deps rd = Some (VTable k f) →
    ∃ f', ws_deps rd' = Some (VTable k f') ∧
          ∀ dep v, tget dep f = Some v → tget dep f' = Some v.

(** The dependency section [sec] of the document of [p]. *)
Definition view (docs : gmap path table) (p : path) (sec : string)
  : option table :=
  as_block (tget sec (doc_at docs p)).

(** What [mutate_member_dep] turns a spec into. *)
Definition rw_spec (spec : value) : value :=
  match spec with
  | VStr _ => VTable Inline [("workspace", VBool true)]
  | VTable k f =>
      VTable k (tset "workspace" (VBool true)
                  (if thas "version" f then tdel "version" f else f))
  | _ => spec
  end.

(** A section in which the collected declarations of the selected names
    have been rewritten. *)
Definition rw_tbl (sel : string → bool) (tbl : table) : table :=
  (λ kv, (kv.1, if sel kv.1 && negb (table_with "workspace" kv.2)
                then rw_spec kv.2 else kv.2)) <$> tbl.

(** The declarations rewritten so far, as triples (file, section, name). *)
Definition sel_of (done : list (path * string * string)) (p : path)
    (sec : string) : string → bool :=
  λ dep, bool_decide ((p, sec, dep) ∈ done).

(** The file system a step of the write phase has reached. *)
Definition reached {A B} (r : fsys * A + fsys * B) : fsys :=
  match r with inl (fs, _) => fs | inr (fs, _) => fs end.

(** A root manifest that already shares [serde], and a member that
    declares another [serde] version and a new dependency. *)
Definition fs_shared : fsys :=
  <[ ["ws"; "Cargo.toml"] :=
       Toml [("workspace",
              VTable Block
                [("members", VArr [VStr "a"]);
                 ("dependencies", VTable Block [("serde", VStr "1.0.100")])])] ]>
  (<[ ["ws"; "a"; "Cargo.toml"] :=
        Toml [("dependencies",
               VTable Block [("serde", VStr "1.0.200"); ("log", VStr "0.4")])] ]> ∅).

(** The document has a declaration [hoist] collects: an entry of a
    dependency section that is not flagged [workspace]. *)
Definition has_collected (d : table) : Prop :=
  ∃ sec tbl dep spec,
    sec ∈ SECTIONS ∧ as_block (tget sec d) = Some tbl ∧
    (dep, spec) ∈ tbl ∧ table_with "workspace" spec = false.


Definition foo_bar : table :=
  [("foo", VStr "1.2"); ("bar", VTable Inline [("path", VStr "../bar")])].

Definition foo_bar_hoisted : table :=
  [("foo", VTable Inline [("workspace", VBool true)]);
   ("bar", VTable Inline [("path", VStr "../bar")])].

(** The tree of the scenario. *)
Definition fs_scenario : fsys :=
  <[ ["ws"; "Cargo.toml"] :=
       Toml [("package", VTable Block [("name", VStr "root")])] ]>
  (<[ ["ws"; "member"; "Cargo.toml"] :=
        Toml [("package", VTable Block [("name", VStr "member")]);
              ("dependencies", VTable Block foo_bar)] ]> ∅).

(** Dependency sections have distinct names, as in any parsed TOML file. *)
Definition wf_fs (fs : fsys) : Prop :=
  ∀ p d sec tbl, fs !! p = Some (Toml d) → sec ∈ SECTIONS →
                 as_block (tget sec d) = Some tbl → uniq_keys tbl.

(** Two members that share [serde]; one of them also has a path
    dependency. *)
Definition fs_two_members : fsys :=
  <[ ["ws"; "Cargo.toml"] :=
       Toml [("workspace", VTable Block [("members", VArr [VStr "a"; VStr "b"])])] ]>
  (<[ ["ws"; "a"; "Cargo.toml"] :=
        Toml [("dependencies",
               VTable Block
                 [("serde", VStr "1.0.200");
                  ("local", VTable Inline [("path", VStr "../local")])])] ]>
  (<[ ["ws"; "b"; "Cargo.toml"] :=
        Toml [("dev-dependencies",
               VTable Block
                 [("serde", VTable Inline [("version", VStr "1.0.100");
                                           ("features", VArr [VStr "derive"])])])] ]>
   ∅)).

(** The first backup of the manifest [p]: the [Cargo.toml.bak] next to it. *)
Definition first_backup (p : path) : path := with_name p "Cargo.toml.bak".

(** No file of the tree is named [Cargo.toml.bak]. *)
Definition no_first_backup (fs : fsys) : Prop :=
  map_Forall (λ (x : path) (_ : content), last x ≠ Some "Cargo.toml.bak") fs.

(** [fs1] is [fs] in which the manifests of [done] have been copied to
    their first backup and possibly rewritten; no other file differs. *)
Definition backed_up (fs fs1 : fsys) (done : list path) : Prop :=
  (∀ p, p ∈ done →
     is_manifest p ∧ is_Some (fs !! p) ∧ is_Some (fs1 !! p) ∧
     fs1 !! first_backup p = fs !! p) ∧
  ∀ x, x ∉ done → (∀ p, p ∈ done → x ≠ first_backup p) → fs1 !! x = fs !! x.

(** A workspace below a directory with an ignored name. *)
Definition fs_vendored : fsys :=
  <[ ["vendor"; "ws"; "Cargo.toml"] :=
       Toml [("dependencies",
              VTable Block [("serde", VStr "1.0"); ("anyhow", VStr "1.0")])] ]>
  (<[ ["vendor"; "ws"; "a"; "Cargo.toml"] :=
        Toml [("dependencies", VTable Block [("serde", VStr "1.0")])] ]>
  (<[ ["vendor"; "ws"; "a"; "Cargo.toml.bak"] :=
        Toml [("dependencies", VTable Block [("serde", VStr "0.9")])] ]> ∅)).

(** What one pass of a command over the manifest [p] does to the disk:
    nothing, the backup alone, or the backup and a new document. *)
Definition step_of (clock : path → string) (fs fs' : fsys) (p : path) : Prop :=
  fs' = fs ∨
  ∃ c, fs !! p = Some c ∧
       (fs' = <[backup_path clock fs p := c]> fs ∨
        ∃ d, fs' = <[p := Toml d]> (<[backup_path clock fs p := c]> fs)).

(** The disk along a list of manifests, one step each. *)
Inductive run (clock : path → string) : fsys → list path → fsys → Prop :=
| run_nil fs : run clock fs [] fs
| run_cons fs p fs1 ps fs2 :
    is_manifest p → step_of clock fs fs1 p → run clock fs1 ps fs2 →
    run clock fs (p :: ps) fs2.

(** A workspace that has been sorted once and edited since: the first
    backup holds the original root manifest. *)
Definition fs_backed : fsys :=
  <[ ["ws"; "Cargo.toml"] :=
       Toml [("workspace", VTable Block [("members", VArr [VStr "a"])]);
             ("dependencies",
              VTable Block [("serde", VStr "1.0"); ("anyhow", VStr "1.0")])] ]>
  (<[ ["ws"; "Cargo.toml.bak"] :=
        Toml [("workspace", VTable Block [("members", VArr [VStr "a"])])] ]>
  (<[ ["ws"; "a"; "Cargo.toml"] :=
        Toml [("dependencies", VTable Block [("serde", VStr "1.0")])] ]> ∅)).

(** The root document has no shared table yet, or one that is a table. *)
Definition shared_ok (rd : table) : bool :=
  match tget "workspace" rd with
  | None => true
  | Some (VTable _ ws) =>
      match tget "dependencies" ws with
      | None | Some (VTable _ _) => true
      | Some _ => false
      end
  | Some _ => false
  end.

Definition is_table (v : value) : bool :=
  match v with VTable _ _ => true | _ => false end.

(** The member manifests of a [hoist] run, in reading order. *)
Definition members_of (root : path) (fs : fsys) : list path :=
  remove_first (root ++ ["Cargo.toml"]) (find_cargo_tomls root fs).

(** The manifests of the tree that parse, as documents. *)
Definition disk_docs (fs : fsys) : gmap path table := omap parse fs.

(** The declarations [hoist] collects from the tree, filed under their
    names. *)
Definition needed_of (root : path) (fs : fsys) : needed_t :=
  collect (disk_docs fs) (members_of root fs).

(** The entries of the shared table of a root document. *)
Definition shared_entries (rd : table) : table :=
  match ws_deps rd with Some (VTable _ f) => f | _ => [] end.

(** The entries a run adds to the shared table [f]: the names that resolve
    and are not in it, each with the version resolved. *)
Definition new_entries (needed : needed_t) (f : table) : table :=
  omap (λ it : string * list occurrence,
          match resolve it.2 with
          | Some v => if thas it.1 f then None else Some (it.1, v)
          | None => None
          end) needed.

(** The number of collected declarations whose name resolves. *)
Definition resolved_declarations (needed : needed_t) : nat :=
  sum_list ((λ it : string * list occurrence,
               match resolve it.2 with
               | Some _ => length it.2
               | None => 0
               end) <$> needed).

(** Whether [hoist] resolves a version for [dep] on the tree. *)
Definition hoisted (root : path) (fs : fsys) (dep : string) : bool :=
  bool_decide (is_Some (resolve (occs_of dep (all_occ (disk_docs fs)
                                                (members_of root fs))))).

(** The root document in memory changes only in its [workspace] table,
    and there only in [dependencies]. *)
Definition root_frame (rd rd' : table) : Prop :=
  (∀ k, k ≠ "workspace" → tget k rd' = tget k rd) ∧
  ∀ k0 ws0, tget "workspace" rd = Some (VTable k0 ws0) →
    ∃ ws', tget "workspace" rd' = Some (VTable k0 ws') ∧
           ∀ key, key ≠ "dependencies" → tget key ws' = tget key ws0.

(** [d'] is [d] up to the content of its dependency sections that are
    tables. *)
Definition doc_frame (d d' : table) : Prop :=
  keys d' = keys d ∧
  ∀ k, k ∉ SECTIONS ∨ as_block (tget k d) = None → tget k d' = tget k d.

(** * Properties *)

(** ** Tables *)

Section tables.
Implicit Types (k : string) (v : value) (t : table).

Lemma tget_None k t : tget k t = None ↔ k ∉ keys t.
Proof.
  unfold keys. induction t as [|[k' v'] t IH]; csimpl.
  - split; [intros _; apply not_elem_of_nil | done].
  - rewrite not_elem_of_cons. case_decide.
    + split; [done | intros [? _]; done].
    + rewrite IH. split; [done | intros [_ ?]; done].
Qed.

Lemma tget_Some_elem k v t : tget k t = Some v → (k, v) ∈ t.
Proof.
  induction t as [|[k' v'] t IH]; simpl; [done|].
  case_decide; intros; simplify_eq; [left | right; auto].
Qed.

Lemma tget_elem_uniq k v t : uniq_keys t → (k, v) ∈ t → tget k t = Some v.
Proof.
  unfold uniq_keys, keys.
  induction t as [|[k' v'] t IH]; simpl; [by intros _ ?%elem_of_nil|].
  intros [Hk Hnd]%NoDup_cons [?|Hin]%elem_of_cons; simplify_eq.
  - by rewrite decide_True.
  - rewrite decide_False; [auto|].
    intros <-. apply Hk. by apply (list_elem_of_fmap_2 fst) in Hin.
Qed.

Lemma thas_true k t : thas k t = true ↔ k ∈ keys t.
Proof.
  unfold thas. destruct (tget k t) eqn:E.
  - split; [intros _|done]. destruct (decide (k ∈ keys t)) as [|Hn]; [done|].
    apply tget_None in Hn. congruence.
  - apply tget_None in E. split; [done|]. intros; contradiction.
Qed.

Lemma thas_false k t : thas k t = false ↔ tget k t = None.
Proof. unfold thas. destruct (tget k t); naive_solver. Qed.

Lemma tget_tset_eq k v t : tget k (tset k v t) = Some v.
Proof.
  induction t as [|[k' v'] t IH]; simpl.
  - by rewrite decide_True.
  - case_decide; simpl; [by rewrite decide_True | by rewrite decide_False].
Qed.

Lemma tget_tset_ne k k' v t : k ≠ k' → tget k' (tset k v t) = tget k' t.
Proof.
  intros Hne. induction t as [|[k0 v0] t IH]; simpl.
  - by rewrite decide_False.
  - destruct (decide (k = k0)) as [->|]; simpl.
    + by rewrite !decide_False.
    + by rewrite IH.
Qed.

Lemma tget_tset k k' v t :
  tget k' (tset k v t) = if decide (k = k') then Some v else tget k' t.
Proof.
  case_decide; [subst; apply tget_tset_eq | by apply tget_tset_ne].
Qed.

Lemma keys_tset k v t :
  keys (tset k v t) = if thas k t then keys t else keys t ++ [k].
Proof.
  unfold thas, keys. induction t as [|[k' v'] t IH]; csimpl; [done|].
  destruct (decide (k = k')) as [->|]; csimpl; [done|].
  rewrite IH. by destruct (tget k t).
Qed.

Lemma tset_present k v t :
  thas k t = true → keys (tset k v t) = keys t.
Proof. intros H. by rewrite keys_tset, H. Qed.

Lemma tget_tdel_eq k t : tget k (tdel k t) = None.
Proof.
  apply tget_None. unfold tdel, keys.
  intros ([k' v] & -> & [Hne _]%list_elem_of_filter)%list_elem_of_fmap.
  done.
Qed.


Lemma tset_tset k v v' t : tset k v' (tset k v t) = tset k v' t.
Proof.
  induction t as [|[k0 v0] t IH]; simpl.
  - by rewrite decide_True.
  - destruct (decide (k = k0)) as [->|]; simpl.
    + by rewrite decide_True.
    + rewrite decide_False by done. by rewrite IH.
Qed.

Lemma tset_id k v t : tget k t = Some v → tset k v t = t.
Proof.
  induction t as [|[k0 v0] t IH]; simpl; [done|].
  case_decide; intros; simplify_eq; [done|]. by rewrite IH.
Qed.

End tables.

(** ** Rewriting a member declaration *)



(** ** Version resolution *)

Lemma table_with_path_no_version spec :
  table_with "path" spec = true → extract_version spec = None.
Proof. destruct spec; simpl; try done. by intros ->. Qed.

Lemma first_version_skip occ version :
  (first_version occ version).2 = true ↔
  ∃ o, o ∈ occ ∧ table_with "path" o.2 = true.
Proof.
  revert version. induction occ as [|[[sec p] spec] occ IH]; intros version; simpl.
  - split; [done | by intros (? & ?%elem_of_nil & _)].
  - destruct (extract_version spec) eqn:Ev.
    + rewrite IH. split.
      * intros (o & Ho & Hp). exists o. split; [by right | done].
      * intros (o & [->|Ho]%elem_of_cons & Hp); [|by eauto].
        apply table_with_path_no_version in Hp. simpl in Hp. congruence.
    + destruct (table_with "path" spec) eqn:Ep; simpl.
      * split; [intros _ | done]. exists (sec, p, spec). split; [left | done].
      * rewrite IH. split.
        -- intros (o & Ho & Hp). exists o. split; [by right | done].
        -- intros (o & [->|Ho]%elem_of_cons & Hp); [|by eauto].
           simpl in Hp. congruence.
Qed.

Lemma first_version_found occ v : (first_version occ (Some v)).1 = Some v.
Proof.
  induction occ as [|[[sec p] spec] occ IH]; simpl; [done|].
  destruct (extract_version spec); [done|].
  by destruct (table_with "path" spec).
Qed.

Lemma first_version_none occ :
  (first_version occ None).2 = false →
  (first_version occ None).1 = None ↔
  ∀ o, o ∈ occ → extract_version o.2 = None.
Proof.
  induction occ as [|[[sec p] spec] occ IH]; simpl.
  - intros _. split; [by intros _ ? ?%elem_of_nil | done].
  - destruct (extract_version spec) as [v|] eqn:Ev.
    + intros _. rewrite first_version_found. split; [done|].
      intros H. specialize (H (sec, p, spec) ltac:(left)). simpl in H. congruence.
    + destruct (table_with "path" spec); simpl; [done|].
      intros Hs. rewrite (IH Hs). split.
      * intros H o [->|Ho]%elem_of_cons; [done | auto].
      * intros H o Ho. apply H. by right.
Qed.

Lemma resolve_None_iff (occ : list occurrence) :
  resolve occ = None ↔
  (∃ o, o ∈ occ ∧ table_with "path" o.2 = true) ∨
  (∀ o, o ∈ occ → extract_version o.2 = None).
Proof.
  unfold resolve. rewrite <- first_version_skip with (version := None).
  pose proof (first_version_none occ) as Hn.
  destruct (first_version occ None) as [version [|]]; simpl in *.
  - split; [by left | done].
  - rewrite <- (Hn eq_refl). split; [by right | by intros [?|?]].
Qed.



(** ** Discovery and backups *)

Lemma insert_by_perm {A} (leb : A → A → bool) x l : insert_by leb x l ≡ₚ x :: l.
Proof.
  induction l as [|y l IH]; simpl; [done|].
  destruct (leb x y); [done|]. rewrite IH. apply Permutation_swap.
Qed.

Lemma sorted_by_perm {A} (leb : A → A → bool) l : sorted_by leb l ≡ₚ l.
Proof.
  induction l as [|x l IH]; simpl; [done|].
  by rewrite insert_by_perm, IH.
Qed.

Lemma elem_of_find_cargo_tomls root fs p :
  p ∈ find_cargo_tomls root fs ↔
  is_Some (fs !! p) ∧ rglob_match root p = true ∧ ignored p = false.
Proof.
  unfold find_cargo_tomls. rewrite sorted_by_perm, list_elem_of_filter.
  rewrite list_elem_of_fmap. split.
  - intros [H ([p' c] & -> & Hin%elem_of_map_to_list)]. simpl in *. eauto.
  - intros ([c Hc] & H). split; [done|]. exists (p, c).
    split; [done | by apply elem_of_map_to_list].
Qed.

Lemma NoDup_find_cargo_tomls root fs : NoDup (find_cargo_tomls root fs).
Proof.
  unfold find_cargo_tomls. rewrite sorted_by_perm.
  apply NoDup_filter, NoDup_fst_map_to_list.
Qed.

Lemma find_cargo_tomls_manifest root fs p :
  p ∈ find_cargo_tomls root fs → is_manifest p ∧ is_Some (fs !! p).
Proof.
  intros (? & Hm & _)%elem_of_find_cargo_tomls. split; [|done].
  unfold rglob_match in Hm. apply andb_true_iff in Hm as [_ Hm].
  by apply bool_decide_eq_true in Hm.
Qed.

Lemma root_toml_manifest (root : path) : is_manifest (root ++ ["Cargo.toml"]).
Proof. unfold is_manifest. by rewrite last_snoc. Qed.

Lemma manifest_split p : is_manifest p → p = dir p ++ ["Cargo.toml"].
Proof.
  unfold is_manifest, dir. intros (l & ->)%last_Some.
  by rewrite removelast_last.
Qed.

Lemma manifest_dir_inj p q : is_manifest p → is_manifest q → dir p = dir q → p = q.
Proof.
  intros Hp%manifest_split Hq%manifest_split Hd. rewrite Hp, Hq. by rewrite Hd.
Qed.

Lemma last_with_name p n : last (with_name p n) = Some n.
Proof. unfold with_name. apply last_snoc. Qed.

Lemma dir_with_name p n : dir (with_name p n) = dir p.
Proof. unfold dir, with_name. apply removelast_last. Qed.

Lemma name_manifest p : is_manifest p → name p = "Cargo.toml".
Proof. unfold is_manifest, name. by intros ->. Qed.

(** What a successful [backup_file] of a manifest does: one file is added next to it. *)
Lemma backup_file_inr clock p fs fs' bak :
  is_manifest p →
  backup_file clock p fs = inr (fs', bak) →
  ∃ c, fs !! p = Some c ∧ fs' = <[bak := c]> fs ∧
       dir bak = dir p ∧ ¬ is_manifest bak.
Proof.
  intros Hp. unfold backup_file, copy2. rewrite (name_manifest p Hp).
  destruct (fs !! p) as [c|] eqn:Ec;
    destruct (fs !! with_name p _) eqn:Eb; simpl; intros ?; simplify_eq; exists c;
    (split; [done|]; split; [done|]; split; [apply dir_with_name|]);
    unfold is_manifest; rewrite last_with_name; intros [= H].
Qed.

Lemma backup_file_ok clock p fs :
  is_Some (fs !! p) → ∃ fs' bak, backup_file clock p fs = inr (fs', bak).
Proof.
  intros [c Hc]. unfold backup_file, copy2. rewrite Hc.
  destruct (fs !! with_name p _); eauto.
Qed.

Lemma backup_file_path clock p fs fs' bak :
  backup_file clock p fs = inr (fs', bak) → bak = backup_path clock fs p.
Proof.
  unfold backup_file, backup_path, copy2.
  destruct (fs !! p); destruct (fs !! with_name p _); simpl; intros ?; by simplify_eq.
Qed.

Lemma dir_backup_path clock fs p : dir (backup_path clock fs p) = dir p.
Proof. unfold backup_path. destruct (fs !! _); apply dir_with_name. Qed.

Lemma backup_path_agree clock fs fs' p :
  (∀ x, dir x = dir p → ¬ is_manifest x → fs' !! x = fs !! x) →
  is_manifest p →
  backup_path clock fs' p = backup_path clock fs p.
Proof.
  intros H Hp. unfold backup_path. rewrite H; [done | apply dir_with_name |].
  unfold is_manifest. rewrite last_with_name, (name_manifest p Hp). intros [= ?].
Qed.

Lemma sort_file_inv dry clock p fs fs2 r :
  is_manifest p →
  sort_file dry clock p fs = (fs2, r) →
  (fs !! p = None ∧ fs2 = fs ∧ r = inl (FileNotFound p)) ∨
  ∃ c, fs !! p = Some c ∧
    let fs1 := <[backup_path clock fs p := c]> fs in
    match parse c with
    | None => fs2 = fs1 ∧ r = inl (MalformedManifest p)
    | Some doc =>
        match sort_doc doc with
        | inl e => fs2 = fs1 ∧ r = inl e
        | inr (doc', m) =>
            r = inr m ∧
            fs2 = if m && negb dry then write_text p doc' fs1 else fs1
        end
    end.
Proof.
  intros Hp. unfold sort_file.
  destruct (backup_file clock p fs) as [e|[fs1 bak]] eqn:Eb.
  - unfold backup_file, copy2 in Eb.
    destruct (fs !! p) eqn:Ep.
    { destruct (fs !! with_name p _); simplify_eq. }
    intros ?. left. destruct (fs !! with_name p _); by simplify_eq.
  - pose proof (backup_file_path _ _ _ _ _ Eb) as ->.
    apply backup_file_inr in Eb as (c & Hc & -> & Hd & Hm); [|done].
    assert (backup_path clock fs p ≠ p) as Hne by (by intros E; rewrite E in Hm).
    rewrite lookup_insert_ne, Hc by done.
    intros H. right. exists c. split; [done|]. simpl.
    destruct (parse c) as [doc|]; [|by simplify_eq].
    destruct (sort_doc doc) as [e|[doc' m]]; by simplify_eq.
Qed.

Lemma sort_file_frame dry clock p fs fs2 r x :
  is_manifest p →
  sort_file dry clock p fs = (fs2, r) →
  dir x ≠ dir p → fs2 !! x = fs !! x.
Proof.
  intros Hp H Hx.
  assert (backup_path clock fs p ≠ x) by (intros <-; by rewrite dir_backup_path in Hx).
  assert (p ≠ x) by congruence.
  apply sort_file_inv in H as [(_ & -> & _)|(c & Hc & H)]; [done| |done].
  simpl in H. destruct (parse c) as [doc|].
  - destruct (sort_doc doc) as [e|[doc' m]].
    + destruct H as [-> _]. by rewrite lookup_insert_ne.
    + destruct H as [_ ->]. unfold write_text.
      destruct (m && negb dry); by rewrite ?lookup_insert_ne.
  - destruct H as [-> _]. by rewrite lookup_insert_ne.
Qed.


Lemma sort_files_frame dry clock l fs n fs' r x :
  Forall is_manifest l →
  sort_files dry clock l fs n = (fs', r) →
  (∀ q, q ∈ l → dir x ≠ dir q) → fs' !! x = fs !! x.
Proof.
  intros Hl. revert fs n. induction Hl as [|p l Hp Hl IH]; intros fs n; simpl.
  - by intros [= <- _].
  - destruct (sort_file dry clock p fs) as [fs2 [e|m]] eqn:E; intros H Hx.
    + simplify_eq. eapply sort_file_frame; [done..|]. apply Hx. left.
    + rewrite (IH _ _ H) by (intros q Hq; apply Hx; by right).
      eapply sort_file_frame; [done..|]. apply Hx. left.
Qed.



Lemma distinct_manifests_dirs p q :
  is_manifest p → is_manifest q → p ≠ q → dir p ≠ dir q.
Proof. intros Hp Hq Hne Hd. apply Hne. by apply manifest_dir_inj. Qed.

Lemma backup_path_not_manifest clock fs p :
  is_manifest p → ¬ is_manifest (backup_path clock fs p).
Proof.
  intros Hp. unfold backup_path, is_manifest.
  destruct (fs !! with_name p (name p +:+ ".bak"));
    rewrite last_with_name, (name_manifest p Hp); intros [= ?].
Qed.

Lemma backup_path_ne clock fs p : is_manifest p → backup_path clock fs p ≠ p.
Proof.
  intros Hp E. apply (backup_path_not_manifest clock fs p Hp). by rewrite E.
Qed.



Lemma find_cargo_tomls_Forall root fs : Forall is_manifest (find_cargo_tomls root fs).
Proof. apply Forall_forall. intros p Hp. by apply find_cargo_tomls_manifest in Hp as []. Qed.



(** ** Malformed manifests *)

Lemma elem_of_remove_first (x p : path) l :
  p ≠ x → p ∈ l → p ∈ remove_first x l.
Proof.
  intros Hne. induction l as [|y l IH]; simpl; [done|].
  intros [->|Hin]%elem_of_cons.
  - rewrite decide_False by done. left.
  - case_decide; [done|]. right. auto.
Qed.

Lemma remove_first_subseteq (x : path) l : remove_first x l ⊆ l.
Proof.
  intros p. induction l as [|y l IH]; simpl; [done|].
  case_decide; [by right|].
  intros [->|?]%elem_of_cons; [left | right; auto].
Qed.




(** ** What [sort] does to one document *)

Lemma existsb_agree {A} (f g : A → bool) (l : list A) :
  (∀ x, x ∈ l → f x = g x) → existsb f l = existsb g l.
Proof.
  induction l as [|x l IH]; simpl; [done|]. intros H.
  rewrite (H x) by left. f_equal. apply IH. intros y Hy. apply H. by right.
Qed.

Lemma sort_sections_fold secs doc m :
  NoDup secs →
  let out := foldl (λ '(d, m) sec,
                      match as_block (tget sec d) with
                      | Some tbl =>
                          (tset sec (VTable Block (sort_deps_table tbl)) d, true)
                      | None => (d, m)
                      end) (doc, m) secs in
  (∀ k, k ∉ secs → tget k out.1 = tget k doc) ∧
  (∀ sec, sec ∈ secs → tget sec out.1 = sorted_value (tget sec doc)) ∧
  out.2 = m || existsb (λ sec, is_block (tget sec doc)) secs.
Proof.
  intros Hnd. revert doc m.
  induction Hnd as [|sec secs Hsec Hnd IH]; intros doc m; simpl.
  { split; [done|]. split; [by intros ? ?%elem_of_nil | by rewrite orb_false_r]. }
  set (st := match as_block (tget sec doc) with
             | Some tbl => (tset sec (VTable Block (sort_deps_table tbl)) doc, true)
             | None => (doc, m)
             end).
  assert (Hst : (∀ k, k ≠ sec → tget k st.1 = tget k doc) ∧
                tget sec st.1 = sorted_value (tget sec doc) ∧
                st.2 = m || is_block (tget sec doc)).
  { unfold st, sorted_value, is_block. destruct (as_block (tget sec doc)); simpl.
    - split; [intros k Hk; by apply tget_tset_ne|].
      split; [apply tget_tset_eq | by rewrite orb_true_r].
    - split; [done|]. split; [done | by rewrite orb_false_r]. }
  destruct st as [d1 m1]. simpl in Hst. destruct Hst as (Hne & Heq & ->).
  destruct (IH d1 (m || is_block (tget sec doc))) as (H1 & H2 & H3).
  split; [|split].
  - intros k [Hk Hks]%not_elem_of_cons. rewrite H1 by done. by apply Hne.
  - intros s [->|Hs]%elem_of_cons.
    + by rewrite H1.
    + rewrite H2 by done. rewrite Hne; [done|]. by intros ->.
  - rewrite H3. rewrite <- orb_assoc. f_equal. f_equal.
    apply existsb_agree. intros s Hs. rewrite Hne; [done|]. by intros ->.
Qed.

Lemma NoDup_SECTIONS : NoDup SECTIONS.
Proof. by apply (bool_decide_unpack _). Qed.

Lemma workspace_not_section : "workspace" ∉ SECTIONS.
Proof. by apply (bool_decide_unpack _). Qed.

Lemma sort_sections_spec doc m :
  let out := sort_sections doc m in
  (∀ k, k ∉ SECTIONS → tget k out.1 = tget k doc) ∧
  (∀ sec, sec ∈ SECTIONS → tget sec out.1 = sorted_value (tget sec doc)) ∧
  out.2 = m || existsb (λ sec, is_block (tget sec doc)) SECTIONS.
Proof. apply sort_sections_fold, NoDup_SECTIONS. Qed.

Lemma sort_doc_modified doc doc' m :
  sort_doc doc = inr (doc', m) → m = has_sortable doc.
Proof.
  unfold sort_doc, has_sortable.
  destruct (sort_sections_spec doc false) as (Hk & _ & Hm).
  destruct (sort_sections doc false) as [d m0]. cbn [fst snd] in *. subst m0.
  rewrite orb_false_l.
  unfold sort_workspace. rewrite Hk by apply workspace_not_section.
  destruct (as_block (tget "workspace" doc)) as [ws|].
  2:{ intros; simplify_eq. symmetry; apply orb_false_r. }
  destruct (sort_workspace_table ws _) as [e|[ws' m']] eqn:E; [done|].
  intros [= _ <-]. revert E. unfold sort_workspace_table.
  unfold is_block. destruct (as_block (tget "dependencies" ws)) as [tbl|].
  - rewrite orb_true_l, orb_true_r.
    destruct (tget "members" _) as [[]|]; try (intros; by simplify_eq).
    destruct (sorted_members _); intros; by simplify_eq.
  - unfold is_array. rewrite orb_false_l.
    destruct (tget "members" ws) as [[]|];
      try (intros; simplify_eq; symmetry; apply orb_false_r).
    destruct (sorted_members _); intros; simplify_eq. symmetry; apply orb_true_r.
Qed.

Lemma sort_file_counted dry clock p fs fs2 md :
  is_manifest p → sort_file dry clock p fs = (fs2, inr md) → md = counted fs p.
Proof.
  intros Hp E. unfold counted.
  apply sort_file_inv in E as [(_ & _ & ?)|(c & -> & E)]; [done| |done].
  simpl in E. destruct c as [d|t]; simpl in E; [|by destruct E].
  destruct (sort_doc d) as [e|[d' m]] eqn:Es; [by destruct E|].
  destruct E as [? _]; simplify_eq. by eapply sort_doc_modified.
Qed.

Lemma filter_agree {A} (P Q : A → Prop) `{!∀ x, Decision (P x), !∀ x, Decision (Q x)}
    (l : list A) :
  (∀ x, x ∈ l → P x ↔ Q x) → filter P l = filter Q l.
Proof.
  induction l as [|x l IH]; [done|]. intros Hag. rewrite !filter_cons.
  rewrite IH by (intros y Hy; apply Hag; by right).
  pose proof (Hag x ltac:(left)) as Hx.
  destruct (decide (P x)), (decide (Q x)); tauto.
Qed.

Lemma sort_files_count dry clock l fs n fs' k :
  NoDup l → Forall is_manifest l →
  sort_files dry clock l fs n = (fs', inr k) →
  k = n + length (filter (λ p, counted fs p = true) l).
Proof.
  intros Hnd Hl. revert fs n.
  induction Hl as [|p l Hp Hl IH]; intros fs n; simpl.
  { intros; simplify_eq. by rewrite Nat.add_0_r. }
  apply NoDup_cons in Hnd as [Hpl Hnd].
  destruct (sort_file dry clock p fs) as [fs2 [e|md]] eqn:E; [done|].
  intros H. apply (IH Hnd) in H as ->.
  rewrite (sort_file_counted _ _ _ _ _ _ Hp E).
  assert (filter (λ q, counted fs2 q = true) l
          = filter (λ q, counted fs q = true) l) as ->.
  { apply filter_agree. intros q Hq. unfold counted.
    rewrite (sort_file_frame _ _ _ _ _ _ q Hp E); [done|].
    apply distinct_manifests_dirs; [|done|by intros ->].
    by eapply Forall_forall in Hl. }
  destruct (counted fs p) eqn:Ec.
  - rewrite filter_cons_True by done. simpl. lia.
  - rewrite filter_cons_False by (by rewrite Ec). lia.
Qed.

(** C7, as the code has it.  The count [sort] reports, in dry-run mode as
    in a real run, is the number of discovered manifests that have a
    dependency section, a shared table or a member list at all: [modified]
    is set whenever one of them is assigned, whether or not the order
    changes. *)
Theorem sort_count_is_files_with_tables (root : path) (dry_run : bool)
    (clock : path → string) (fs fs' : fsys) (n : nat) :
  sort root dry_run clock fs = (fs', inr n) →
  n = length (filter (λ p, counted fs p = true) (find_cargo_tomls root fs)).
Proof.
  unfold sort. intros H.
  apply sort_files_count in H;
    [done | apply NoDup_find_cargo_tomls | apply find_cargo_tomls_Forall].
Qed.

Lemma sort_count_is_files_with_tables_witness :
  let clock := λ _ : path, "20240101T000000Z" in
  sort ["ws"] true clock fs_sorted =
    (<[ ["ws"; "Cargo.toml.bak"] :=
          Toml [("dependencies",
                 VTable Block [("kintsu-core", VStr "0.1"); ("serde", VStr "1.0")])] ]>
       fs_sorted, inr 1) ∧
  1 = length (filter (λ p, counted fs_sorted p = true)
                (find_cargo_tomls ["ws"] fs_sorted)).
Proof.
  intros clock.
  assert (sort ["ws"] true clock fs_sorted =
    (<[ ["ws"; "Cargo.toml.bak"] :=
          Toml [("dependencies",
                 VTable Block [("kintsu-core", VStr "0.1"); ("serde", VStr "1.0")])] ]>
       fs_sorted, inr 1)) as Hrun by (vm_compute; reflexivity).
  split; [exact Hrun|].
  exact (sort_count_is_files_with_tables ["ws"] true clock fs_sorted _ 1 Hrun).
Defined.

(** C7 fails on the code: the only manifest of [fs_sorted] is already in
    sorted form, sorting would write back the very same document, and the
    dry run still reports one file. *)
Lemma sort_dry_run_counts_sorted_file :
  let clock := λ _ : path, "20240101T000000Z" in
  (∀ p d d' m, p ∈ find_cargo_tomls ["ws"] fs_sorted →
               fs_sorted !! p = Some (Toml d) →
               sort_doc d = inr (d', m) → d' = d) ∧
  (sort ["ws"] true clock fs_sorted).2 = inr 1.
Proof.
  intros clock. split; [|by vm_compute].
  assert (Hf : find_cargo_tomls ["ws"] fs_sorted = [["ws"; "Cargo.toml"]])
    by (vm_compute; reflexivity).
  intros p d d' m. rewrite Hf. intros ->%list_elem_of_singleton.
  assert (Hd : fs_sorted !! ["ws"; "Cargo.toml"] =
               Some (Toml [("dependencies",
                            VTable Block [("kintsu-core", VStr "0.1");
                                          ("serde", VStr "1.0")])]))
    by (vm_compute; reflexivity).
  rewrite Hd. intros [= <-]. vm_compute. by intros [= <- _].
Qed.

(** ** The order of a sorted table *)

Lemma leb_refl (a : string) : String.leb a a = true.
Proof. apply Is_true_true. apply (reflexivity (R := String.le)). Qed.

Lemma leb_trans (a b c : string) :
  String.leb a b = true → String.leb b c = true → String.leb a c = true.
Proof.
  intros H1%Is_true_true H2%Is_true_true. apply Is_true_true.
  by apply (transitivity (R := String.le) H1).
Qed.

Lemma leb_false (a b : string) : String.leb a b = false → String.leb b a = true.
Proof. destruct (String.leb_total a b); congruence. Qed.

Lemma leb_ne_ltb (a b : string) :
  String.leb a b = true → a ≠ b → String.ltb a b = true.
Proof.
  unfold String.leb, String.ltb. intros H Hne.
  destruct (String.compare a b) eqn:E; try done.
  by apply String.compare_eq_iff in E.
Qed.

Section sorted_by.
Context {A : Type} (leb : A → A → bool).
Hypothesis leb_total : ∀ a b, leb a b = false → leb b a = true.
Hypothesis leb_transitive : ∀ a b c, leb a b = true → leb b c = true → leb a c = true.

Lemma insert_by_sorted x l :
  StronglySorted (λ a b, leb a b = true) l →
  StronglySorted (λ a b, leb a b = true) (insert_by leb x l).
Proof.
  induction 1 as [|y l Hl IH Hy]; simpl.
  - repeat constructor.
  - destruct (leb x y) eqn:E.
    + constructor; [by constructor|]. constructor; [done|].
      eapply Forall_impl; [exact Hy|]. intros z Hz. simpl in Hz. eauto.
    + constructor; [done|]. rewrite insert_by_perm. constructor; auto.
Qed.

Lemma sorted_by_sorted l : StronglySorted (λ a b, leb a b = true) (sorted_by leb l).
Proof.
  induction l as [|x l IH]; simpl; [constructor | by apply insert_by_sorted].
Qed.

Lemma sorted_by_id l :
  StronglySorted (λ a b, leb a b = true) l → sorted_by leb l = l.
Proof.
  induction 1 as [|x l Hl IH Hx]; simpl; [done|]. rewrite IH.
  destruct Hx as [|y l' Hxy _]; simpl; [done|]. by rewrite Hxy.
Qed.

End sorted_by.

Lemma key_leb_total (a b : string * value) : key_leb a b = false → key_leb b a = true.
Proof. apply leb_false. Qed.

Lemma key_leb_trans (a b c : string * value) :
  key_leb a b = true → key_leb b c = true → key_leb a c = true.
Proof. apply leb_trans. Qed.

Lemma from_items_snoc l k v : from_items (l ++ [(k, v)]) = tset k v (from_items l).
Proof. unfold from_items. by rewrite foldl_snoc. Qed.

Lemma elem_of_keys_tset k k' v t :
  k' ∈ keys (tset k v t) ↔ k' = k ∨ k' ∈ keys t.
Proof.
  rewrite keys_tset. destruct (thas k t) eqn:E.
  - apply thas_true in E. split; [by right | by intros [->|?]].
  - rewrite elem_of_app, list_elem_of_singleton. tauto.
Qed.

Lemma elem_of_tset k v kv t : kv ∈ tset k v t → kv = (k, v) ∨ kv ∈ t.
Proof.
  induction t as [|[k0 v0] t IH]; simpl.
  - intros ->%list_elem_of_singleton. by left.
  - case_decide.
    + intros [->|?]%elem_of_cons; [by left | right; by right].
    + intros [->|[->|?]%IH]%elem_of_cons; [right; left | by left | right; by right].
Qed.

Lemma uniq_keys_tset k v t : uniq_keys t → uniq_keys (tset k v t).
Proof.
  unfold uniq_keys. intros H. rewrite keys_tset. destruct (thas k t) eqn:E; [done|].
  apply NoDup_app. split; [done|]. split; [|apply NoDup_singleton].
  intros x Hx ->%list_elem_of_singleton.
  apply thas_false, tget_None in E. done.
Qed.

Lemma from_items_spec l :
  uniq_keys (from_items l) ∧
  (∀ k, k ∈ keys (from_items l) ↔ k ∈ keys l) ∧
  (∀ kv, kv ∈ from_items l → kv ∈ l) ∧
  (∀ R : relation string, StronglySorted R (keys l) →
                          StronglySorted R (keys (from_items l))).
Proof.
  induction l as [|[k v] l (IH1 & IH2 & IH3 & IH4)] using rev_ind.
  - split; [apply NoDup_nil_2|]. split; [done|]. split; [done|]. done.
  - rewrite from_items_snoc. split; [by apply uniq_keys_tset|].
    split; [|split].
    + intros k'. rewrite elem_of_keys_tset, IH2. unfold keys.
      rewrite fmap_app, elem_of_app. simpl. rewrite list_elem_of_singleton. tauto.
    + intros kv [->|Hin%IH3]%elem_of_tset; apply elem_of_app; [right; left | by left].
    + intros R. unfold keys at 1. rewrite fmap_app. simpl.
      intros (Hlast & Hl & _)%StronglySorted_app.
      rewrite keys_tset. destruct (thas k (from_items l)); [by apply IH4|].
      apply StronglySorted_app_2; [|by apply IH4|repeat constructor].
      intros a b Ha%IH2 Hb. by apply Hlast.
Qed.

Lemma from_items_uniq l : uniq_keys l → from_items l = l.
Proof.
  induction l as [|[k v] l IH] using rev_ind; [done|].
  unfold uniq_keys, keys. rewrite fmap_app. simpl.
  intros (Hl & Hk & _)%NoDup_app. rewrite from_items_snoc, IH by done.
  clear IH. induction l as [|[k0 v0] l IH]; simpl; [done|].
  rewrite decide_False.
  - f_equal. apply IH.
    + by apply NoDup_cons in Hl as [_ ?].
    + intros x Hx. apply Hk. by right.
  - intros <-. apply (Hk k); [left | left].
Qed.

Lemma StronglySorted_fmap_inv {A B} (f : A → B) (R : relation B) (l : list A) :
  StronglySorted R (f <$> l) ↔ StronglySorted (λ a b, R (f a) (f b)) l.
Proof.
  induction l as [|x l IH]; csimpl.
  - split; constructor.
  - rewrite !StronglySorted_cons, IH, Forall_fmap. done.
Qed.

Lemma StronglySorted_impl_Forall {A} (R R' : relation A) (P : A → Prop) l :
  (∀ a b, P a → P b → R a b → R' a b) →
  Forall P l → StronglySorted R l → StronglySorted R' l.
Proof.
  intros HR HP. induction 1 as [|x l Hl IH Hx]; [constructor|].
  apply Forall_cons in HP as [Hpx HP]. constructor; [auto|].
  rewrite Forall_forall in *. intros y Hy. apply HR; auto.
Qed.

Lemma StronglySorted_filter {A} (R : relation A) (P : A → Prop)
    `{!∀ x, Decision (P x)} l :
  StronglySorted R l → StronglySorted R (filter P l).
Proof.
  induction 1 as [|x l Hl IH Hx]; [constructor|].
  rewrite filter_cons. destruct (decide (P x)); [|done].
  constructor; [done|]. rewrite Forall_forall in *.
  intros y [_ Hy]%list_elem_of_filter. auto.
Qed.

Lemma filter_all {A} (P : A → Prop) `{!∀ x, Decision (P x)} l :
  Forall P l → filter P l = l.
Proof.
  induction 1 as [|x l Hx Hl IH]; [done|].
  by rewrite filter_cons_True, IH.
Qed.

Lemma filter_none {A} (P : A → Prop) `{!∀ x, Decision (P x)} l :
  Forall (λ x, ¬ P x) l → filter P l = [].
Proof.
  induction 1 as [|x l Hx Hl IH]; [done|].
  by rewrite filter_cons_False, IH.
Qed.

(** A list in which the elements satisfying [P] come first is the
    concatenation of its two filters. *)
Lemma filter_partition_sorted {A} (P : A → Prop) `{!∀ x, Decision (P x)} l :
  StronglySorted (λ a b, P b → P a) l → filter P l ++ filter (λ x, ¬ P x) l = l.
Proof.
  induction 1 as [|x l Hl IH Hx]; [done|].
  rewrite !filter_cons. destruct (decide (P x)) as [HP|HP].
  - rewrite decide_False by tauto. simpl. by rewrite IH.
  - rewrite decide_True by done.
    assert (Forall (λ y, ¬ P y) l) as Hn.
    { eapply Forall_impl; [exact Hx|]. simpl. tauto. }
    by rewrite (filter_none P l Hn), (filter_all _ l Hn).
Qed.

Lemma inline_if_table_idem v :
  inline_if_table (inline_if_table v) = inline_if_table v.
Proof.
  destruct v as [| | | | |[] f]; try done. simpl.
  case_bool_decide as E; simpl; [by rewrite bool_decide_true | done].
Qed.

Lemma is_internal_not_false k : is_internal k ≠ true ↔ is_internal k = false.
Proof. by destruct (is_internal k). Qed.

Lemma sorted_groups_perm tbl : sorted_groups tbl ≡ₚ tbl.
Proof.
  unfold sorted_groups. rewrite !sorted_by_perm.
  induction tbl as [|[k v] tbl IH]; [done|].
  rewrite !filter_cons. simpl. destruct (is_internal k) eqn:E.
  - rewrite decide_True, decide_False by done. simpl. by rewrite IH.
  - rewrite decide_False, decide_True by done.
    rewrite <- Permutation_middle. by rewrite IH.
Qed.

Lemma sorted_groups_sorted tbl :
  StronglySorted (λ a b, dep_le a.1 b.1) (sorted_groups tbl).
Proof.
  unfold sorted_groups. apply StronglySorted_app_2.
  - intros a b. rewrite !sorted_by_perm.
    intros [Ha _]%list_elem_of_filter [Hb _]%list_elem_of_filter. by left.
  - eapply (StronglySorted_impl_Forall _ _ (λ kv, is_internal kv.1 = true)).
    + intros a b Ha Hb Hab. right. split; [congruence | exact Hab].
    + apply Forall_forall. intros a. rewrite sorted_by_perm.
      by intros [Ha _]%list_elem_of_filter.
    + apply sorted_by_sorted; [apply key_leb_total | apply key_leb_trans].
  - eapply (StronglySorted_impl_Forall _ _ (λ kv, is_internal kv.1 = false)).
    + intros a b Ha Hb Hab. right. split; [congruence | exact Hab].
    + apply Forall_forall. intros a. rewrite sorted_by_perm.
      by intros [Ha _]%list_elem_of_filter.
    + apply sorted_by_sorted; [apply key_leb_total | apply key_leb_trans].
Qed.

Lemma sort_deps_table_unfold tbl :
  sort_deps_table tbl =
  from_items ((λ kv, (kv.1, inline_if_table kv.2)) <$> sorted_groups tbl).
Proof. done. Qed.

Lemma keys_fmap_snd (f : value → value) (t : table) :
  keys ((λ kv, (kv.1, f kv.2)) <$> t) = keys t.
Proof. unfold keys. rewrite <- list_fmap_compose. by apply list_fmap_ext. Qed.

Lemma sort_deps_table_spec tbl :
  uniq_keys (sort_deps_table tbl) ∧
  StronglySorted dep_le (keys (sort_deps_table tbl)) ∧
  (∀ k, k ∈ keys (sort_deps_table tbl) ↔ k ∈ keys tbl) ∧
  (∀ kv, kv ∈ sort_deps_table tbl → inline_if_table kv.2 = kv.2).
Proof.
  rewrite sort_deps_table_unfold.
  destruct (from_items_spec ((λ kv, (kv.1, inline_if_table kv.2)) <$> sorted_groups tbl))
    as (H1 & H2 & H3 & H4).
  split; [done|]. split; [|split].
  - apply H4. rewrite keys_fmap_snd. apply StronglySorted_fmap_inv.
    apply sorted_groups_sorted.
  - intros k. rewrite H2, keys_fmap_snd. unfold keys. by rewrite sorted_groups_perm.
  - intros kv ([k v] & -> & _)%H3%list_elem_of_fmap. simpl.
    apply inline_if_table_idem.
Qed.

(** A table that is already in the order and form [sort_deps_table]
    produces is returned as it is. *)
Lemma sort_deps_table_fixed t :
  uniq_keys t → StronglySorted dep_le (keys t) →
  (∀ kv, kv ∈ t → inline_if_table kv.2 = kv.2) →
  sort_deps_table t = t.
Proof.
  intros Hu Hs Hv. rewrite sort_deps_table_unfold.
  unfold keys in Hs. apply (StronglySorted_fmap_inv fst) in Hs.
  assert (sorted_groups t = t) as ->.
  { unfold sorted_groups.
    rewrite (sorted_by_id key_leb
               (filter (λ kv, is_internal kv.1 = true) t)).
    2:{ eapply (StronglySorted_impl_Forall (λ a b, dep_le a.1 b.1) _ (λ kv, is_internal kv.1 = true)).
        - intros a b Ha Hb [[_ ?]|[_ ?]]; [congruence | done].
        - apply Forall_forall. by intros a [Ha _]%list_elem_of_filter.
        - by apply StronglySorted_filter. }
    rewrite (sorted_by_id key_leb
               (filter (λ kv, is_internal kv.1 = false) t)).
    2:{ eapply (StronglySorted_impl_Forall (λ a b, dep_le a.1 b.1) _ (λ kv, is_internal kv.1 = false)).
        - intros a b Ha Hb [[? _]|[_ ?]]; [congruence | done].
        - apply Forall_forall. by intros a [Ha _]%list_elem_of_filter.
        - by apply StronglySorted_filter. }
    rewrite <- (filter_partition_sorted (λ kv, is_internal kv.1 = true) t) at 3.
    - f_equal. apply filter_agree. intros kv _. symmetry. apply is_internal_not_false.
    - eapply (StronglySorted_impl_Forall (λ a b, dep_le a.1 b.1) _ (λ _, True));
        [|by apply Forall_true|exact Hs].
      intros a b _ _ [[_ ?]|[? _]] Hb; congruence. }
  assert (((λ kv, (kv.1, inline_if_table kv.2)) <$> t) = t) as ->.
  { rewrite <- (list_fmap_id t) at 2. apply Forall_fmap_ext, Forall_forall.
    intros [k v] Hkv. simpl. f_equal. by apply (Hv (k, v)). }
  by apply from_items_uniq.
Qed.

Lemma sort_deps_table_idem tbl :
  sort_deps_table (sort_deps_table tbl) = sort_deps_table tbl.
Proof.
  destruct (sort_deps_table_spec tbl) as (H1 & H2 & _ & H4).
  by apply sort_deps_table_fixed.
Qed.

(** ** Sorting twice *)

Lemma as_block_Some v tbl : as_block v = Some tbl ↔ v = Some (VTable Block tbl).
Proof.
  destruct v as [[| | | | |[] f]|]; simpl; split; intros; by simplify_eq.
Qed.

Lemma mapM_as_string_VStr ss : mapM as_string (VStr <$> ss) = Some ss.
Proof.
  induction ss as [|s ss IH]; [done|]. rewrite fmap_cons. simpl. by rewrite IH.
Qed.

Lemma sorted_members_idem l l' :
  sorted_members l = inr l' → sorted_members l' = inr l'.
Proof.
  unfold sorted_members. destruct l as [|x [|y l]]; try (intros; by simplify_eq).
  destruct (mapM as_string (x :: y :: l)) as [ss|] eqn:E; [|done].
  intros [= <-].
  assert (length (sorted_by String.leb ss) = length (x :: y :: l)) as Hlen.
  { rewrite sorted_by_perm. symmetry. by eapply length_mapM. }
  destruct (sorted_by String.leb ss) as [|a [|b r]] eqn:Es; [done..|].
  change (VStr <$> a :: b :: r) with (VStr a :: VStr b :: (VStr <$> r)).
  cbv iota. change (VStr a :: VStr b :: (VStr <$> r)) with (VStr <$> a :: b :: r).
  rewrite mapM_as_string_VStr, <- Es, sorted_by_id; [done|].
  apply sorted_by_sorted; [apply leb_false | apply leb_trans].
Qed.

Lemma sort_workspace_table_fixed ws m ws' m' m0 :
  sort_workspace_table ws m = inr (ws', m') →
  ∃ m2, sort_workspace_table ws' m0 = inr (ws', m2).
Proof.
  unfold sort_workspace_table.
  set (st := match as_block (tget "dependencies" ws) with
             | Some tbl => (tset "dependencies" (VTable Block (sort_deps_table tbl)) ws, true)
             | None => (ws, m)
             end).
  assert (Hst : ∀ m0, match as_block (tget "dependencies" st.1) with
             | Some tbl => (tset "dependencies" (VTable Block (sort_deps_table tbl)) st.1, true)
             | None => (st.1, m0)
             end = (st.1, match as_block (tget "dependencies" st.1) with
                          | Some _ => true | None => m0 end)).
  { intros m1. unfold st. destruct (as_block (tget "dependencies" ws)) as [tbl|] eqn:E; simpl.
    - rewrite tget_tset_eq. simpl. by rewrite sort_deps_table_idem, tset_tset.
    - by rewrite E. }
  destruct st as [ws1 m1]. simpl in Hst.
  destruct (tget "members" ws1) as [v|] eqn:Em.
  - destruct v as [| | | |l|];
      try (intros [= <- <-]; rewrite Hst, Em; eauto).
    destruct (sorted_members l) as [e|l'] eqn:Es; [done|].
    intros [= <- <-].
    assert (as_block (tget "dependencies" (tset "members" (VArr l') ws1))
            = as_block (tget "dependencies" ws1)) as Hd
      by (by rewrite tget_tset_ne).
    specialize (Hst m0). rewrite Hd.
    destruct (as_block (tget "dependencies" ws1)) as [tbl|] eqn:E.
    + apply as_block_Some in E. injection Hst as Hst.
      assert (sort_deps_table tbl = tbl) as ->.
      { apply (f_equal (tget "dependencies")) in Hst.
        rewrite tget_tset_eq, E in Hst. by simplify_eq. }
      rewrite (tset_id "dependencies" (VTable Block tbl)) by (by rewrite tget_tset_ne).
      rewrite tget_tset_eq, (sorted_members_idem _ _ Es), tset_tset. eauto.
    + rewrite tget_tset_eq, (sorted_members_idem _ _ Es), tset_tset. eauto.
  - intros [= <- <-]. rewrite Hst, Em. eauto.
Qed.

Lemma sort_sections_fold_fixed secs d m :
  (∀ sec tbl, sec ∈ secs → as_block (tget sec d) = Some tbl →
              sort_deps_table tbl = tbl) →
  (foldl (λ '(d, m) sec,
            match as_block (tget sec d) with
            | Some tbl =>
                (tset sec (VTable Block (sort_deps_table tbl)) d, true)
            | None => (d, m)
            end) (d, m) secs).1 = d.
Proof.
  revert m. induction secs as [|sec secs IH]; intros m H; simpl; [done|].
  destruct (as_block (tget sec d)) as [tbl|] eqn:E.
  - rewrite (H sec tbl) by (done || left).
    apply as_block_Some in E. rewrite (tset_id _ _ _ E).
    apply IH. intros s t Hs. apply H. by right.
  - apply IH. intros s t Hs. apply H. by right.
Qed.

(** A second pass of [sort] over a document it has sorted returns the same
    document. *)
Lemma sort_doc_idem doc doc' m :
  sort_doc doc = inr (doc', m) → ∃ m2, sort_doc doc' = inr (doc', m2).
Proof.
  unfold sort_doc.
  destruct (sort_sections_spec doc false) as (Hk & Hs & _).
  destruct (sort_sections doc false) as [d1 m1]. cbn [fst snd] in *.
  intros Hw.
  assert (Hsec : ∀ sec, sec ∈ SECTIONS → tget sec doc' = tget sec d1).
  { intros sec Hsec. revert Hw. unfold sort_workspace.
    destruct (as_block (tget "workspace" d1)); [|by intros [= <- _]].
    destruct (sort_workspace_table _ _) as [|[ws' m']]; [done|].
    intros [= <- _]. apply tget_tset_ne. intros <-.
    by apply workspace_not_section. }
  assert (Hfix : (sort_sections doc' false).1 = doc').
  { apply sort_sections_fold_fixed. intros sec tbl Hsec' E.
    rewrite (Hsec sec Hsec'), (Hs sec Hsec') in E.
    unfold sorted_value in E.
    destruct (as_block (tget sec doc)) as [t0|] eqn:E0.
    - simpl in E. simplify_eq. apply sort_deps_table_idem.
    - congruence. }
  destruct (sort_sections doc' false) as [d2 m2]. simpl in Hfix. subst d2.
  revert Hw. unfold sort_workspace.
  destruct (as_block (tget "workspace" d1)) as [ws|] eqn:Ew.
  - destruct (sort_workspace_table ws m1) as [|[ws' m']] eqn:Et; [done|].
    intros [= <- <-]. rewrite tget_tset_eq. simpl.
    destruct (sort_workspace_table_fixed _ _ _ _ m2 Et) as [m3 ->].
    rewrite tset_tset. eauto.
  - intros [= <- <-]. rewrite Ew. eauto.
Qed.

Lemma sort_deps_table_ordered tbl : ordered (keys (sort_deps_table tbl)).
Proof.
  destruct (sort_deps_table_spec tbl) as (Hu & Hs & _ & _).
  intros pre a rest b E Hb. unfold uniq_keys in Hu. rewrite E in Hu, Hs.
  apply StronglySorted_app_1_r, StronglySorted_cons in Hs as [Hs _].
  apply NoDup_app in Hu as (_ & _ & [Ha _]%NoDup_cons).
  rewrite Forall_forall in Hs. specialize (Hs b Hb).
  assert (a ≠ b) as Hne by (by intros ->).
  destruct Hs as [[Hia Hib]|[Hi Hle]].
  - split; [done | congruence].
  - split; [congruence | intros _; by apply leb_ne_ltb].
Qed.

Lemma sort_doc_sections doc doc' m sec :
  sort_doc doc = inr (doc', m) → sec ∈ SECTIONS →
  tget sec doc' = sorted_value (tget sec doc).
Proof.
  unfold sort_doc.
  destruct (sort_sections_spec doc false) as (_ & Hs & _).
  destruct (sort_sections doc false) as [d1 m1]. cbn [fst snd] in *.
  intros Hw Hsec. rewrite <- (Hs sec Hsec). revert Hw. unfold sort_workspace.
  destruct (as_block (tget "workspace" d1)); [|by intros [= <- _]].
  destruct (sort_workspace_table _ _) as [|[ws' m']]; [done|].
  intros [= <- _]. apply tget_tset_ne. intros <-.
  by apply workspace_not_section.
Qed.

Lemma sort_workspace_table_deps ws m ws' m' :
  sort_workspace_table ws m = inr (ws', m') →
  tget "dependencies" ws' = sorted_value (tget "dependencies" ws).
Proof.
  unfold sort_workspace_table, sorted_value.
  destruct (as_block (tget "dependencies" ws)) as [tbl|] eqn:E.
  - destruct (tget "members" _) as [[| | | |l|]|];
      try (intros [= <- _]; apply tget_tset_eq).
    destruct (sorted_members l); [done|].
    intros [= <- _]. rewrite tget_tset_ne by done. apply tget_tset_eq.
  - destruct (tget "members" _) as [[| | | |l|]|]; try (by intros [= <- _]).
    destruct (sorted_members l); [done|].
    intros [= <- _]. by rewrite tget_tset_ne.
Qed.

Lemma sort_doc_tables doc doc' m pl tbl :
  sort_doc doc = inr (doc', m) →
  table_at pl doc = Some tbl → table_at pl doc' = Some (sort_deps_table tbl).
Proof.
  intros Hs. destruct pl as [sec|]; simpl.
  - case_bool_decide as Hsec; [|done].
    rewrite (sort_doc_sections _ _ _ _ Hs Hsec). unfold sorted_value.
    by intros ->.
  - revert Hs. unfold sort_doc.
    destruct (sort_sections_spec doc false) as (Hk & _ & _).
    destruct (sort_sections doc false) as [d1 m1]. cbn [fst snd] in *.
    unfold sort_workspace. rewrite (Hk "workspace" workspace_not_section).
    destruct (as_block (tget "workspace" doc)) as [ws|]; [|done].
    destruct (sort_workspace_table ws m1) as [|[ws' m']] eqn:E; [done|].
    intros [= <- _] Ht. rewrite tget_tset_eq. simpl.
    rewrite (sort_workspace_table_deps _ _ _ _ E). unfold sorted_value.
    by rewrite Ht.
Qed.

Lemma sort_doc_unmodified doc doc' :
  sort_doc doc = inr (doc', false) → doc' = doc.
Proof.
  intros Hs. pose proof (sort_doc_modified _ _ _ Hs) as Hm.
  unfold has_sortable in Hm. symmetry in Hm.
  apply orb_false_iff in Hm as [Hsec Hws].
  revert Hs. unfold sort_doc.
  assert ((sort_sections doc false).1 = doc) as Hfix.
  { apply sort_sections_fold_fixed. intros sec tbl Hin E.
    assert (existsb (λ sec, is_block (tget sec doc)) SECTIONS = true); [|congruence].
    apply existsb_exists. exists sec. split; [by apply list_elem_of_In|].
    unfold is_block. by rewrite E. }
  destruct (sort_sections doc false) as [d1 m1]. simpl in Hfix. subst d1.
  unfold sort_workspace.
  destruct (as_block (tget "workspace" doc)) as [ws|] eqn:Ew; [|by intros [= <- _]].
  apply orb_false_iff in Hws as [Hd Ha].
  unfold sort_workspace_table. unfold is_block in Hd.
  destruct (as_block (tget "dependencies" ws)); [done|].
  apply as_block_Some in Ew.
  destruct (tget "members" ws) as [[| | | |l|]|]; try done;
    intros [= <- _]; by apply tset_id.
Qed.

Lemma sort_file_manifests dry clock p fs fs2 r x :
  is_manifest p → sort_file dry clock p fs = (fs2, r) →
  is_manifest x → x ≠ p → fs2 !! x = fs !! x.
Proof.
  intros Hp E Hx Hne. apply (sort_file_frame _ _ _ _ _ _ x Hp E).
  by apply distinct_manifests_dirs.
Qed.

Lemma sort_file_result dry clock p fs fs2 md :
  is_manifest p → sort_file dry clock p fs = (fs2, inr md) →
  ∃ d d', fs !! p = Some (Toml d) ∧ sort_doc d = inr (d', md) ∧
          fs2 !! p = Some (Toml (if md && negb dry then d' else d)).
Proof.
  intros Hp E. pose proof (backup_path_ne clock fs p Hp) as Hne.
  apply sort_file_inv in E as [(_ & _ & ?)|(c & Hc & E)]; [done| |done].
  simpl in E. destruct c as [d|t]; simpl in E; [|by destruct E].
  destruct (sort_doc d) as [e|[d' m]] eqn:Es; [by destruct E|].
  destruct E as [[= <-] ->]. exists d, d'. split; [done|]. split; [done|].
  unfold write_text. destruct (md && negb dry).
  - by rewrite lookup_insert_eq.
  - by rewrite lookup_insert_ne.
Qed.

Lemma sort_files_result dry clock l fs n fs1 n1 p :
  NoDup l → Forall is_manifest l →
  sort_files dry clock l fs n = (fs1, inr n1) → p ∈ l →
  ∃ d d' m, fs !! p = Some (Toml d) ∧ sort_doc d = inr (d', m) ∧
            fs1 !! p = Some (Toml (if m && negb dry then d' else d)).
Proof.
  intros Hnd Hl. revert fs n.
  induction Hl as [|p0 l Hp0 Hl IH]; intros fs n; simpl; [by intros _ ?%elem_of_nil|].
  apply NoDup_cons in Hnd as [Hp0l Hnd].
  destruct (sort_file dry clock p0 fs) as [fs2 [e|md]] eqn:E; [done|].
  intros H [->|Hp]%elem_of_cons.
  - destruct (sort_file_result _ _ _ _ _ _ Hp0 E) as (d & d' & Hd & Hs & H2).
    exists d, d', md. split; [done|]. split; [done|]. rewrite <- H2.
    apply (sort_files_frame _ _ _ _ _ _ _ p0 Hl H).
    intros q Hq. apply distinct_manifests_dirs; [done| |by intros ->].
    by eapply Forall_forall in Hl.
  - destruct (IH Hnd _ _ H Hp) as (d & d' & m & Hd & Hs & H1).
    exists d, d', m. split; [|done]. rewrite <- Hd. symmetry.
    apply (sort_file_manifests _ _ _ _ _ _ p Hp0 E); [|by intros ->].
    by eapply Forall_forall in Hl.
Qed.

Lemma sort_files_other_manifests dry clock l fs n fs1 r x :
  Forall is_manifest l →
  sort_files dry clock l fs n = (fs1, r) →
  is_manifest x → x ∉ l → fs1 !! x = fs !! x.
Proof.
  intros Hl H Hx Hxl. apply (sort_files_frame _ _ _ _ _ _ _ x Hl H).
  intros q Hq. apply distinct_manifests_dirs; [done| |by intros ->].
  by eapply Forall_forall in Hl.
Qed.

Lemma sort_file_stable dry clock p fs :
  is_manifest p → stable_at fs p →
  ∃ fs2 md, sort_file dry clock p fs = (fs2, inr md) ∧
            ∀ x, is_manifest x → fs2 !! x = fs !! x.
Proof.
  intros Hp (d & d' & m & Hd & Hs & Hm).
  destruct (sort_file dry clock p fs) as [fs2 r] eqn:E.
  assert (Hfr : ∀ x, is_manifest x → x ≠ p → fs2 !! x = fs !! x)
    by (intros x; apply (sort_file_manifests _ _ _ _ _ _ x Hp E)).
  pose proof (backup_path_ne clock fs p Hp) as Hne.
  apply sort_file_inv in E as [(? & _)|(c & Hc & E)]; [congruence| |done].
  rewrite Hd in Hc. simplify_eq. simpl in E. rewrite Hs in E.
  destruct E as [-> ->]. eexists _, m. split; [done|].
  intros x Hx. destruct (decide (x = p)) as [->|Hxp].
  - unfold write_text. destruct m; simpl.
    + rewrite (Hm eq_refl). destruct dry; simpl.
      * by rewrite lookup_insert_ne.
      * by rewrite lookup_insert_eq.
    + by rewrite lookup_insert_ne.
  - rewrite <- (Hfr x Hx Hxp). done.
Qed.

Lemma sort_files_stable dry clock l fs n :
  Forall is_manifest l → (∀ p, p ∈ l → stable_at fs p) →
  ∃ fs2 n2, sort_files dry clock l fs n = (fs2, inr n2) ∧
            ∀ x, is_manifest x → fs2 !! x = fs !! x.
Proof.
  intros Hl. revert fs n. induction Hl as [|p l Hp Hl IH]; intros fs n Hst; simpl.
  { eauto. }
  destruct (sort_file_stable dry clock p fs Hp) as (fs2 & md & -> & Hfr).
  { apply Hst. left. }
  destruct (IH fs2 (if md then S n else n)) as (fs3 & n3 & -> & Hfr3).
  { intros q Hq. destruct (Hst q) as (d & d' & m & Hd & Hs); [by right|].
    exists d, d', m. split; [|done]. rewrite Hfr; [done|].
    by eapply Forall_forall in Hl. }
  eexists _, _. split; [done|]. intros x Hx. by rewrite Hfr3, Hfr.
Qed.

Lemma find_cargo_tomls_agree root fs fs1 :
  (∀ x, is_manifest x → is_Some (fs1 !! x) ↔ is_Some (fs !! x)) →
  ∀ p, p ∈ find_cargo_tomls root fs1 ↔ p ∈ find_cargo_tomls root fs.
Proof.
  intros H p. rewrite !elem_of_find_cargo_tomls.
  split; intros (Hs & Hm & Hi); (split; [|done]); apply H; try done;
    unfold rglob_match in Hm; apply andb_true_iff in Hm as [_ Hm];
    by apply bool_decide_eq_true in Hm.
Qed.

(** C9.  After a run of [sort] that completes, every manifest holds the
    document [sort_doc] computes from it: each dependency section and the
    shared table has become [sort_deps_table] of what it was, in which the
    names with the internal prefix precede all others and each group is
    strictly increasing.  A second run, dry or not, completes as well and
    leaves the content of every manifest as the first run left it. *)
Theorem sort_orders_and_is_idempotent (root : path)
    (clock clock2 : path → string) (dry2 : bool) (fs fs1 : fsys) (n : nat) :
  sort root false clock fs = (fs1, inr n) →
  (∀ p, p ∈ find_cargo_tomls root fs →
     ∃ d d', fs !! p = Some (Toml d) ∧ fs1 !! p = Some (Toml d') ∧
       ∀ pl tbl, table_at pl d = Some tbl →
         table_at pl d' = Some (sort_deps_table tbl) ∧
         ordered (keys (sort_deps_table tbl)) ∧
         ∀ k, k ∈ keys (sort_deps_table tbl) ↔ k ∈ keys tbl) ∧
  ∃ fs2 n2, sort root dry2 clock2 fs1 = (fs2, inr n2) ∧
            ∀ p, p ∈ find_cargo_tomls root fs → fs2 !! p = fs1 !! p.
Proof.
  unfold sort. intros H.
  pose proof (NoDup_find_cargo_tomls root fs) as Hnd.
  pose proof (find_cargo_tomls_Forall root fs) as Hl.
  assert (Hres : ∀ p, p ∈ find_cargo_tomls root fs →
            ∃ d d' m, fs !! p = Some (Toml d) ∧ sort_doc d = inr (d', m) ∧
                      fs1 !! p = Some (Toml d')).
  { intros p Hp.
    destruct (sort_files_result _ _ _ _ _ _ _ p Hnd Hl H Hp)
      as (d & d' & m & Hd & Hs & H1).
    exists d, d', m. split; [done|]. split; [done|]. rewrite H1.
    destruct m; simpl; [done|]. by rewrite (sort_doc_unmodified _ _ Hs). }
  split.
  - intros p Hp. destruct (Hres p Hp) as (d & d' & m & Hd & Hs & H1).
    exists d, d'. split; [done|]. split; [done|]. intros pl tbl Ht.
    split; [by eapply sort_doc_tables|]. split; [apply sort_deps_table_ordered|].
    apply sort_deps_table_spec.
  - assert (Hmem : ∀ p, p ∈ find_cargo_tomls root fs1 ↔ p ∈ find_cargo_tomls root fs).
    { apply find_cargo_tomls_agree. intros x Hx.
      destruct (decide (x ∈ find_cargo_tomls root fs)) as [Hin|Hin].
      - destruct (Hres x Hin) as (d & d' & m & -> & _ & ->). split; eauto.
      - by rewrite (sort_files_other_manifests _ _ _ _ _ _ _ x Hl H Hx Hin). }
    destruct (sort_files_stable dry2 clock2 (find_cargo_tomls root fs1) fs1 0)
      as (fs2 & n2 & -> & Hfr).
    + apply find_cargo_tomls_Forall.
    + intros p Hp%Hmem. destruct (Hres p Hp) as (d & d' & m & Hd & Hs & H1).
      destruct (sort_doc_idem _ _ _ Hs) as [m2 Hs2].
      by exists d', d', m2.
    + exists fs2, n2. split; [done|]. intros p Hp. apply Hfr.
      by eapply Forall_forall in Hl.
Qed.

Lemma sort_orders_and_is_idempotent_witness :
  let clock := λ _ : path, "20240101T000000Z" in
  let clock2 := λ _ : path, "20240102T000000Z" in
  let fs1 := (sort ["ws"] false clock fs_unsorted).1 in
  sort ["ws"] false clock fs_unsorted = (fs1, inr 2) ∧
  (∀ p, p ∈ find_cargo_tomls ["ws"] fs_unsorted →
     ∃ d d', fs_unsorted !! p = Some (Toml d) ∧ fs1 !! p = Some (Toml d') ∧
       ∀ pl tbl, table_at pl d = Some tbl →
         table_at pl d' = Some (sort_deps_table tbl) ∧
         ordered (keys (sort_deps_table tbl)) ∧
         ∀ k, k ∈ keys (sort_deps_table tbl) ↔ k ∈ keys tbl) ∧
  ∃ fs2 n2, sort ["ws"] true clock2 fs1 = (fs2, inr n2) ∧
            ∀ p, p ∈ find_cargo_tomls ["ws"] fs_unsorted → fs2 !! p = fs1 !! p.
Proof.
  intros clock clock2 fs1.
  assert (Hrun : sort ["ws"] false clock fs_unsorted = (fs1, inr 2))
    by (vm_compute; reflexivity).
  split; [exact Hrun|].
  exact (sort_orders_and_is_idempotent ["ws"] clock clock2 true
           fs_unsorted fs1 2 Hrun).
Defined.

Example sort_unsorted_member :
  (sort ["ws"] false (λ _, "20240101T000000Z") fs_unsorted).1
    !! ["ws"; "crates"; "a"; "Cargo.toml"] =
  Some (Toml [("package", VTable Block [("name", VStr "a")]);
              ("dependencies",
               VTable Block
                 [("kintsu-core", VTable Inline [("workspace", VBool true)]);
                  ("anyhow", VStr "1.0");
                  ("tokio", VTable Inline [("version", VStr "1");
                                           ("features", VArr [VStr "rt"])])])]).
Proof. by vm_compute. Qed.

(** ** Where [sort] stops *)







(** ** What [hoist] collects *)

Lemma foldl_bind {A B C} (f : A → C → A) (g : B → list C) (l : list B) (a : A) :
  foldl f a (l ≫= g) = foldl (λ a x, foldl f a (g x)) a l.
Proof.
  revert a. induction l as [|x l IH]; intros a; [done|].
  rewrite bind_cons, foldl_app. apply IH.
Qed.

Lemma collect_section_occ docs sec p tbl nd :
  as_block (tget sec (doc_at docs p)) = Some tbl →
  collect_section sec p tbl nd =
  foldl (λ nd x, needed_append x.1 x.2 nd) nd (section_occ docs p sec).
Proof.
  intros E. unfold section_occ, collect_section. rewrite E. clear E.
  revert nd. induction tbl as [|[dep spec] tbl IH]; intros nd; [done|].
  rewrite filter_cons. simpl. destruct (table_with "workspace" spec) eqn:Ew.
  - rewrite decide_False by done. apply IH.
  - rewrite decide_True by done. simpl. apply IH.
Qed.

Lemma foldl_agree {A B} (f g : A → B → A) (l : list B) (a : A) :
  (∀ a x, f a x = g a x) → foldl f a l = foldl g a l.
Proof.
  intros H. revert a. induction l as [|x l IH]; intros a; simpl; [done|].
  by rewrite H, IH.
Qed.

Lemma collect_group docs members :
  collect docs members = group (all_occ docs members).
Proof.
  unfold collect, group, all_occ. rewrite foldl_bind.
  apply foldl_agree. intros nd p. rewrite foldl_bind.
  unfold collect_file. apply foldl_agree. intros nd' sec.
  destruct (as_block (tget sec (doc_at docs p))) as [tbl|] eqn:E.
  - by apply collect_section_occ.
  - unfold section_occ. by rewrite E.
Qed.

Lemma elem_of_all_occ docs members dep sec p spec :
  (dep, (sec, p, spec)) ∈ all_occ docs members ↔
  p ∈ members ∧ sec ∈ SECTIONS ∧
  ∃ tbl, as_block (tget sec (doc_at docs p)) = Some tbl ∧
         (dep, spec) ∈ tbl ∧ table_with "workspace" spec = false.
Proof.
  unfold all_occ. rewrite list_elem_of_bind. split.
  - intros (p' & (sec' & Hin & Hsec)%list_elem_of_bind & Hp).
    unfold section_occ in Hin.
    destruct (as_block (tget sec' (doc_at docs p'))) as [tbl|] eqn:E;
      [|by apply elem_of_nil in Hin].
    apply list_elem_of_fmap in Hin as ([k v] & [= -> -> -> ->] & [Hw Hkv]%list_elem_of_filter).
    eauto 10.
  - intros (Hp & Hsec & tbl & E & Hin & Hw). exists p. split; [|done].
    apply list_elem_of_bind. exists sec. split; [|done].
    unfold section_occ. rewrite E. apply list_elem_of_fmap.
    exists (dep, spec). split; [done|]. by apply list_elem_of_filter.
Qed.

(** *** Grouping *)

Lemma group_snoc l x : group (l ++ [x]) = needed_append x.1 x.2 (group l).
Proof. unfold group. by rewrite foldl_snoc. Qed.

Lemma needed_append_keys dep o (nd : needed_t) :
  fst <$> needed_append dep o nd =
  if bool_decide (dep ∈ fst <$> nd) then fst <$> nd else (fst <$> nd) ++ [dep].
Proof.
  induction nd as [|[d os] nd IH]; csimpl; [done|].
  destruct (decide (dep = d)) as [->|Hne]; csimpl.
  - rewrite bool_decide_true; [done | left].
  - rewrite IH. destruct (bool_decide (dep ∈ nd.*1)) eqn:E.
    + apply bool_decide_eq_true in E. rewrite bool_decide_true; [done | by right].
    + apply bool_decide_eq_false in E. rewrite bool_decide_false; [done|].
      by intros [?|?]%elem_of_cons.
Qed.

Lemma needed_append_elem dep o (nd : needed_t) d occ :
  NoDup nd.*1 →
  (d, occ) ∈ needed_append dep o nd ↔
  (d ≠ dep ∧ (d, occ) ∈ nd) ∨
  (d = dep ∧ ((∃ os, (dep, os) ∈ nd ∧ occ = os ++ [o]) ∨
              ((dep ∉ nd.*1) ∧ occ = [o]))).
Proof.
  induction nd as [|[d0 os0] nd IH]; csimpl; intros Hnd.
  - rewrite list_elem_of_singleton. split.
    + intros [= -> ->]. right. split; [done|]. right.
      split; [apply not_elem_of_nil | done].
    + intros [[_ ?%elem_of_nil]|[-> [(os & ?%elem_of_nil & _)|[_ ->]]]]; done.
  - apply NoDup_cons in Hnd as [Hd0 Hnd].
    assert (Hfst : ∀ os, (d0, os) ∈ nd → False).
    { intros os Hin. apply Hd0. by apply (list_elem_of_fmap_2 fst) in Hin. }
    destruct (decide (dep = d0)) as [<-|Hne].
    + rewrite !elem_of_cons. split.
      * intros [[= -> ->]|Hin].
        -- right. split; [done|]. left. exists os0. split; [by left | done].
        -- left. split; [|by right]. intros ->. by eapply Hfst.
      * intros [[Hne Hin]|[-> Hcase]].
        -- destruct Hin as [[= ? ?]|Hin]; [done | by right].
        -- destruct Hcase as [(os & Hin & ->)|[Hn _]].
           ++ apply elem_of_cons in Hin as [[= ->]|Hin]; [by left|].
              exfalso. by eapply Hfst.
           ++ exfalso. apply Hn. by left.
    + rewrite elem_of_cons, (IH Hnd). rewrite !not_elem_of_cons. split.
      * intros [[= -> ->]|[[Hd Hin]|[-> Hcase]]].
        -- left. split; [by intros -> | left].
        -- left. split; [done | by right].
        -- right. split; [done|]. destruct Hcase as [(os & Hin & ->)|[Hn ->]].
           ++ left. exists os. split; [by right | done].
           ++ right. done.
      * intros [[Hd Hin]|[-> Hcase]].
        -- apply elem_of_cons in Hin as [[= -> ->]|Hin]; [by left|].
           right. left. done.
        -- right. right. split; [done|].
           destruct Hcase as [(os & Hin & ->)|[[_ Hn] ->]].
           ++ apply elem_of_cons in Hin as [[= ? ?]|Hin]; [done|].
              left. eauto.
           ++ by right.
Qed.

Lemma occs_of_snoc dep l x :
  occs_of dep (l ++ [x]) =
  if decide (x.1 = dep) then occs_of dep l ++ [x.2] else occs_of dep l.
Proof.
  unfold occs_of. rewrite filter_app, filter_cons, filter_nil.
  destruct (decide (x.1 = dep)); [by rewrite fmap_app | by rewrite app_nil_r].
Qed.

Lemma occs_of_nil dep l : dep ∉ l.*1 → occs_of dep l = [].
Proof.
  intros H. unfold occs_of. rewrite filter_none; [done|].
  apply Forall_forall. intros x Hx <-. apply H. by apply list_elem_of_fmap_2.
Qed.

Lemma group_spec l :
  NoDup (group l).*1 ∧
  (∀ dep, dep ∈ (group l).*1 ↔ dep ∈ l.*1) ∧
  (∀ dep occ, (dep, occ) ∈ group l → occ = occs_of dep l).
Proof.
  induction l as [|x l (IH1 & IH2 & IH3)] using rev_ind.
  { split; [apply NoDup_nil_2|]. split; [done|]. by intros ? ? ?%elem_of_nil. }
  rewrite group_snoc. split; [|split].
  - rewrite needed_append_keys. case_bool_decide as E; [done|].
    apply NoDup_app. split; [done|]. split; [|apply NoDup_singleton].
    by intros d Hd ->%list_elem_of_singleton.
  - intros dep. rewrite needed_append_keys, fmap_app, elem_of_app. csimpl.
    rewrite list_elem_of_singleton, <- IH2.
    case_bool_decide as E.
    + split; [by left | intros [?| ->]; done].
    + rewrite elem_of_app, list_elem_of_singleton. done.
  - intros dep occ. rewrite needed_append_elem by done. rewrite occs_of_snoc.
    intros [[Hne Hin]|[-> [(os & Hin & ->)|[Hn ->]]]].
    + rewrite decide_False by done. by apply IH3.
    + rewrite decide_True by done. by rewrite (IH3 _ _ Hin).
    + rewrite decide_True by done. rewrite occs_of_nil; [done|]. by rewrite <- IH2.
Qed.

(** ** The shared table during a run *)

Lemma ws_extends_refl rd : ws_extends rd rd.
Proof. split; [done|]. intros k f H. eauto. Qed.

Lemma ws_extends_trans rd1 rd2 rd3 :
  ws_extends rd1 rd2 → ws_extends rd2 rd3 → ws_extends rd1 rd3.
Proof.
  intros [H1 H1'] [H2 H2']. split; [auto|].
  intros k f Hf. destruct (H1' k f Hf) as (f' & Hf' & Hsub).
  destruct (H2' k f' Hf') as (f'' & Hf'' & Hsub'). eauto.
Qed.

Lemma ws_deps_Some rd w :
  ws_deps rd = Some w ↔
  ∃ k ws, tget "workspace" rd = Some (VTable k ws) ∧ tget "dependencies" ws = Some w.
Proof.
  unfold ws_deps. split.
  - destruct (tget "workspace" rd) as [[| | | | |k ws]|]; try done. eauto.
  - by intros (k & ws & -> & ->).
Qed.

Lemma ws_deps_tset_section rd sec v :
  sec ∈ SECTIONS → ws_deps (tset sec v rd) = ws_deps rd.
Proof.
  intros Hsec. unfold ws_deps. rewrite tget_tset_ne; [done|].
  intros ->. by apply workspace_not_section.
Qed.

Lemma ws_insert_extends dep version rd rd' w :
  ws_deps rd = Some w → ws_contains dep w = inr false →
  ws_insert dep version rd = inr rd' →
  ws_extends rd rd' ∧
  ∃ k f, w = VTable k f ∧ ws_deps rd' = Some (VTable k (f ++ [(dep, version)])).
Proof.
  intros (k & ws & Hws & Hw)%ws_deps_Some Hc. unfold ws_insert.
  rewrite Hws, Hw. destruct w as [| | | | |k' f]; try done.
  intros [= <-]. simpl in Hc. injection Hc as Hc. apply thas_false in Hc.
  assert (Hd : ws_deps (tset "workspace"
                 (VTable k (tset "dependencies" (VTable k' (tset dep version f)) ws)) rd)
               = Some (VTable k' (tset dep version f))).
  { unfold ws_deps. by rewrite tget_tset_eq, tget_tset_eq. }
  split.
  - split; [by rewrite Hd|]. intros k0 f0 Hf0.
    assert (ws_deps rd = Some (VTable k' f)) as Hrd by (apply ws_deps_Some; eauto).
    rewrite Hrd in Hf0. simplify_eq. exists (tset dep version f0).
    split; [done|]. intros d v Hv. rewrite tget_tset_ne; [done|]. congruence.
  - exists k', f. split; [done|]. rewrite Hd. do 2 f_equal.
    clear -Hc. induction f as [|[k0 v0] f IH]; simpl in *; [done|].
    destruct (decide (dep = k0)); [done|]. by rewrite IH.
Qed.

Lemma ensure_workspace_deps_inr rd rd' :
  ensure_workspace_deps rd = inr rd' →
  is_Some (ws_deps rd') ∧ ws_extends rd rd' ∧
  (ws_deps rd = None → ws_deps rd' = Some (VTable Block [])) ∧
  ∀ k, k ≠ "workspace" → tget k rd' = tget k rd.
Proof.
  unfold ensure_workspace_deps.
  destruct (thas "workspace" rd) eqn:Eh.
  - destruct (tget "workspace" rd) as [[| | | | |k ws]|] eqn:Ew; try done.
    destruct (thas "dependencies" ws) eqn:Ed.
    + intros [= <-]. unfold thas in Ed.
      destruct (tget "dependencies" ws) as [w|] eqn:Ew'; [|done].
      assert (ws_deps rd = Some w) as Hd by (apply ws_deps_Some; eauto).
      split; [by rewrite Hd|]. split; [apply ws_extends_refl|].
      split; [congruence | done].
    + intros [= <-]. apply thas_false in Ed.
      assert (ws_deps rd = None) as Hn by (unfold ws_deps; by rewrite Ew).
      assert (ws_deps (tset "workspace"
                (VTable k (tset "dependencies" (VTable Block []) ws)) rd)
              = Some (VTable Block [])) as Hd
        by (unfold ws_deps; by rewrite tget_tset_eq, tget_tset_eq).
      split; [by rewrite Hd|]. split; [|split].
      * split; [by rewrite Hn; intros [? [=]]|]. intros ? ?. by rewrite Hn.
      * done.
      * intros k0 Hk0. by apply tget_tset_ne.
  - rewrite tget_tset_eq. simpl. intros [= <-]. rewrite tset_tset.
    apply thas_false in Eh.
    assert (ws_deps rd = None) as Hn by (unfold ws_deps; by rewrite Eh).
    assert (ws_deps (tset "workspace"
              (VTable Block [("dependencies", VTable Block [])]) rd)
            = Some (VTable Block [])) as Hd
      by (unfold ws_deps; by rewrite tget_tset_eq).
    split; [by rewrite Hd|]. split; [|split].
    + split; [by rewrite Hn; intros [? [=]]|]. intros ? ?. by rewrite Hn.
    + done.
    + intros k0 Hk0. by apply tget_tset_ne.
Qed.

Lemma ensure_workspace_deps_fixed rd :
  is_Some (ws_deps rd) → ensure_workspace_deps rd = inr rd.
Proof.
  intros [w (k & ws & Hws & Hw)%ws_deps_Some]. unfold ensure_workspace_deps, thas.
  by rewrite Hws, Hws, Hw.
Qed.

(** ** The documents [hoist] leaves in memory *)

Lemma mutate_member_dep_rw sect dep version spec :
  tget dep sect = Some spec →
  mutate_member_dep sect dep version = Some (tset dep (rw_spec spec) sect).
Proof.
  intros H. unfold mutate_member_dep. rewrite H.
  destruct spec; try done; simpl; by rewrite (tset_id _ _ _ H).
Qed.

Lemma keys_rw_tbl sel tbl : keys (rw_tbl sel tbl) = keys tbl.
Proof. unfold keys, rw_tbl. rewrite <- list_fmap_compose. by apply list_fmap_ext. Qed.

Lemma tget_rw_tbl sel tbl dep :
  tget dep (rw_tbl sel tbl) =
  (λ v, if sel dep && negb (table_with "workspace" v) then rw_spec v else v)
    <$> tget dep tbl.
Proof.
  induction tbl as [|[k v] tbl IH]; csimpl; [done|].
  destruct (decide (dep = k)) as [->|]; [done | apply IH].
Qed.

Lemma rw_tbl_ext sel sel' tbl :
  (∀ kv, kv ∈ tbl → table_with "workspace" kv.2 = false → sel kv.1 = sel' kv.1) →
  rw_tbl sel tbl = rw_tbl sel' tbl.
Proof.
  intros H. unfold rw_tbl. apply Forall_fmap_ext, Forall_forall.
  intros [k v] Hin. simpl. f_equal.
  destruct (table_with "workspace" v) eqn:E; simpl.
  - by rewrite !andb_false_r.
  - specialize (H (k, v) Hin E). simpl in H. by rewrite H.
Qed.

Lemma rw_tbl_none tbl : rw_tbl (λ _, false) tbl = tbl.
Proof.
  unfold rw_tbl. rewrite <- (list_fmap_id tbl) at 2.
  apply list_fmap_ext. by intros _ [k v] _.
Qed.

Lemma rw_tbl_tset sel tbl dep spec :
  uniq_keys tbl → (dep, spec) ∈ tbl →
  table_with "workspace" spec = false → sel dep = false →
  tset dep (rw_spec spec) (rw_tbl sel tbl) =
  rw_tbl (λ d, bool_decide (d = dep) || sel d) tbl.
Proof.
  unfold uniq_keys, keys. intros Hu Hin Hw Hs.
  induction tbl as [|[k v] tbl IH]; [by apply elem_of_nil in Hin|].
  apply NoDup_cons in Hu as [Hk Hu]. csimpl.
  destruct (decide (dep = k)) as [<-|Hne].
  - assert (v = spec) as ->.
    { apply elem_of_cons in Hin as [[= ->]|Hin]; [done|].
      exfalso. apply Hk. by apply (list_elem_of_fmap_2 fst) in Hin. }
    rewrite bool_decide_true by done. rewrite Hw. simpl. f_equal.
    apply rw_tbl_ext. intros [k' v'] Hin' _. simpl.
    rewrite bool_decide_false; [done|]. intros ->.
    apply Hk. by apply (list_elem_of_fmap_2 fst) in Hin'.
  - rewrite bool_decide_false by congruence. simpl. f_equal. apply IH; [done|].
    apply elem_of_cons in Hin as [[= ? ?]|Hin]; [congruence | done].
Qed.

Lemma sel_of_cons_same done p sec dep k :
  sel_of ((p, sec, dep) :: done) p sec k = bool_decide (k = dep) || sel_of done p sec k.
Proof.
  unfold sel_of. apply eq_true_iff_eq.
  rewrite orb_true_iff, !bool_decide_eq_true, elem_of_cons.
  split; (intros [H|H]; [left | by right]); congruence.
Qed.

Lemma sel_of_cons_other done p sec dep p' sec' k :
  ¬ (p = p' ∧ sec = sec') →
  sel_of ((p, sec, dep) :: done) p' sec' k = sel_of done p' sec' k.
Proof.
  intros Hne. unfold sel_of. apply bool_decide_ext. rewrite elem_of_cons.
  split; [intros [[= -> -> ->]|H]; [by destruct Hne | done] | by right].
Qed.

Lemma doc_at_insert (docs : gmap path table) p d q :
  doc_at (<[p := d]> docs) q = if decide (p = q) then d else doc_at docs q.
Proof.
  unfold doc_at. rewrite lookup_insert. by destruct (decide (p = q)).
Qed.

Lemma view_insert docs p sec t p' sec' :
  view (<[p := tset sec (VTable Block t) (doc_at docs p)]> docs) p' sec' =
  if decide (p = p' ∧ sec = sec') then Some t else view docs p' sec'.
Proof.
  unfold view. rewrite doc_at_insert.
  destruct (decide (p = p')) as [<-|Hp].
  - rewrite tget_tset. destruct (decide (sec = sec')) as [<-|Hs].
    + by rewrite decide_True.
    + rewrite decide_False; [done | by intros [_ ?]].
  - rewrite decide_False; [done | by intros [? _]].
Qed.

Lemma for_each_cons {S A} (f : S → A → error + S) x l s :
  for_each f (x :: l) s =
  match f s x with inr s' => for_each f l s' | inl e => inl e end.
Proof. done. Qed.

Section hoist_loop.
Variables (docs0 : gmap path table) (members : list path) (root_toml : path).
Hypothesis root_not_member : root_toml ∉ members.
Hypothesis members_NoDup : NoDup members.
Hypothesis wf : ∀ p sec tbl,
  p ∈ members → sec ∈ SECTIONS → view docs0 p sec = Some tbl → uniq_keys tbl.

Definition Inv (docs : gmap path table) (done : list (path * string * string))
  : Prop :=
  ∀ p sec, p ∈ members → sec ∈ SECTIONS →
    view docs p sec = rw_tbl (sel_of done p sec) <$> view docs0 p sec.

Lemma Inv_equiv docs done done' :
  (∀ t, t ∈ done ↔ t ∈ done') → Inv docs done → Inv docs done'.
Proof.
  intros H HI p sec Hp Hsec. rewrite (HI p sec Hp Hsec).
  destruct (view docs0 p sec) as [tbl|]; [|done]. simpl. f_equal.
  apply rw_tbl_ext. intros kv _ _. unfold sel_of.
  apply bool_decide_ext, H.
Qed.

Lemma mutate_occurrence_step docs u done dep version sec p spec :
  Inv docs done →
  (dep, (sec, p, spec)) ∈ all_occ docs0 members →
  (p, sec, dep) ∉ done →
  ∃ docs', mutate_occurrence dep version (docs, u) (sec, p, spec)
             = inr (docs', S u) ∧
           Inv docs' ((p, sec, dep) :: done) ∧
           ∀ q, q ∉ members → docs' !! q = docs !! q.
Proof.
  intros HI (Hp & Hsec & tbl & Hv & Hin & Hw)%elem_of_all_occ Hnd.
  pose proof (HI p sec Hp Hsec) as Hcur. unfold view in Hcur at 2.
  rewrite Hv in Hcur. simpl in Hcur.
  assert (Hu : uniq_keys tbl) by (by eapply wf).
  assert (Hsel : sel_of done p sec dep = false).
  { unfold sel_of. by apply bool_decide_eq_false. }
  assert (Hget : tget dep (rw_tbl (sel_of done p sec) tbl) = Some spec).
  { rewrite tget_rw_tbl, (tget_elem_uniq _ _ _ Hu Hin). simpl. by rewrite Hsel. }
  unfold mutate_occurrence. unfold view in Hcur. rewrite Hcur.
  unfold thas. rewrite Hget, (mutate_member_dep_rw _ _ _ _ Hget).
  rewrite (rw_tbl_tset _ _ _ _ Hu Hin Hw Hsel).
  eexists. split; [done|]. split.
  - intros p' sec' Hp' Hsec'. rewrite view_insert.
    destruct (decide (p = p' ∧ sec = sec')) as [[<- <-]|Hne].
    + unfold view at 1. rewrite Hv. simpl. f_equal. apply rw_tbl_ext.
      intros [k v] _ _. simpl. by rewrite sel_of_cons_same.
    + rewrite (HI p' sec' Hp' Hsec').
      destruct (view docs0 p' sec'); [|done]. simpl. f_equal.
      apply rw_tbl_ext. intros [k v] _ _. simpl. by rewrite sel_of_cons_other.
  - intros q Hq. apply lookup_insert_ne. by intros ->.
Qed.

Lemma section_occ_elem docs p sec x :
  x ∈ section_occ docs p sec → x.2.1.1 = sec ∧ x.2.1.2 = p.
Proof.
  unfold section_occ. destruct (as_block _); [|by intros ?%elem_of_nil].
  by intros ([k v] & -> & _)%list_elem_of_fmap.
Qed.

Lemma all_occ_NoDup : NoDup (all_occ docs0 members).
Proof.
  unfold all_occ. apply NoDup_bind; [| |done].
  - intros p1 p2 x _ _ (s1 & [_ H1]%section_occ_elem & _)%list_elem_of_bind
                       (s2 & [_ H2]%section_occ_elem & _)%list_elem_of_bind.
    congruence.
  - intros p Hp. apply NoDup_bind; [| |apply NoDup_SECTIONS].
    + intros s1 s2 x _ _ [H1 _]%section_occ_elem [H2 _]%section_occ_elem.
      congruence.
    + intros sec Hsec. unfold section_occ.
      destruct (as_block (tget sec (doc_at docs0 p))) as [tbl|] eqn:E;
        [|apply NoDup_nil_2].
      apply NoDup_fmap_2_strong.
      * intros [k v] [k' v'] _ _ [= -> ->]. done.
      * apply NoDup_filter. eapply NoDup_fmap_1. by apply (wf p sec).
Qed.

Lemma all_occ_spec_unique dep sec p spec spec' :
  (dep, (sec, p, spec)) ∈ all_occ docs0 members →
  (dep, (sec, p, spec')) ∈ all_occ docs0 members → spec = spec'.
Proof.
  intros (Hp & Hsec & tbl & Hv & Hin & _)%elem_of_all_occ
         (_ & _ & tbl' & Hv' & Hin' & _)%elem_of_all_occ.
  assert (tbl' = tbl) as -> by congruence.
  assert (uniq_keys tbl) as Hu by (by eapply wf).
  apply (tget_elem_uniq _ _ _ Hu) in Hin, Hin'. congruence.
Qed.

Lemma elem_of_occs_of dep o l : o ∈ occs_of dep l ↔ (dep, o) ∈ l.
Proof.
  unfold occs_of. rewrite list_elem_of_fmap. split.
  - intros ([d o'] & -> & [Hd Hin]%list_elem_of_filter). simpl in *. by subst.
  - intros Hin. exists (dep, o). split; [done|]. by apply list_elem_of_filter.
Qed.

Lemma occs_of_positions_NoDup dep :
  NoDup ((λ o : occurrence, (o.1.2, o.1.1)) <$> occs_of dep (all_occ docs0 members)).
Proof.
  unfold occs_of. rewrite <- list_fmap_compose.
  apply NoDup_fmap_2_strong; [|apply NoDup_filter, all_occ_NoDup].
  intros [d [[sec p] spec]] [d' [[sec' p'] spec']]
         [Hd Hin]%list_elem_of_filter [Hd' Hin']%list_elem_of_filter [= -> ->].
  simpl in *. subst. f_equal. f_equal. by eapply all_occ_spec_unique.
Qed.

Lemma mutate_loop dep version os : ∀ docs u done,
  Inv docs done →
  NoDup ((λ o : occurrence, (o.1.2, o.1.1)) <$> os) →
  (∀ o, o ∈ os → (dep, o) ∈ all_occ docs0 members) →
  (∀ o, o ∈ os → (o.1.2, o.1.1, dep) ∉ done) →
  ∃ docs' done',
    for_each (mutate_occurrence dep version) os (docs, u)
      = inr (docs', length os + u) ∧
    Inv docs' done' ∧
    (∀ t, t ∈ done' ↔ t ∈ done ∨ ∃ o, o ∈ os ∧ t = (o.1.2, o.1.1, dep)) ∧
    (∀ q, q ∉ members → docs' !! q = docs !! q).
Proof.
  induction os as [|[[sec p] spec] os IH]; intros docs u done HI Hnd Hall Hfresh.
  { exists docs, done. split; [done|]. split; [done|]. split; [|done].
    intros t. split; [by left | intros [?|(o & ?%elem_of_nil & _)]; done]. }
  rewrite fmap_cons in Hnd. apply NoDup_cons in Hnd as [Hhd Hnd]. simpl in Hhd.
  destruct (mutate_occurrence_step docs u done dep version sec p spec)
    as (docs1 & Hstep & HI1 & Hfr1); [done | apply Hall; left | apply (Hfresh (sec, p, spec)); left |].
  destruct (IH docs1 (S u) ((p, sec, dep) :: done)) as (docs2 & done2 & Hrun & HI2 & Hmem & Hfr2).
  - done.
  - done.
  - intros o Ho. apply Hall. by right.
  - intros o Ho [[= Hp Hs]|Hin]%elem_of_cons.
    + apply Hhd. apply list_elem_of_fmap. exists o. split; [|done].
      by rewrite Hp, Hs.
    + by apply (Hfresh o); [right|].
  - exists docs2, done2. split; [|split; [done|split]].
    + rewrite for_each_cons, Hstep, Hrun. simpl. f_equal. f_equal. lia.
    + intros t. rewrite Hmem, elem_of_cons. split.
      * intros [[->|?]|(o & Ho & ->)].
        -- right. exists (sec, p, spec). split; [left | done].
        -- by left.
        -- right. exists o. split; [by right | done].
      * intros [?|(o & [->|Ho]%elem_of_cons & ->)].
        -- left. by right.
        -- left. by left.
        -- right. eauto.
    + intros q Hq. by rewrite Hfr2, Hfr1.
Qed.

Lemma Inv_root_insert docs done rd :
  Inv docs done → Inv (<[root_toml := rd]> docs) done.
Proof.
  intros HI p sec Hp Hsec. rewrite <- (HI p sec Hp Hsec).
  unfold view. rewrite doc_at_insert, decide_False; [done|]. by intros <-.
Qed.

Lemma hoist_dep_step dep docs c done docs' c' :
  Inv docs done →
  (∀ p sec, (p, sec, dep) ∉ done) →
  hoist_dep root_toml (docs, c) (dep, occs_of dep (all_occ docs0 members))
    = inr (docs', c') →
  ∃ done', Inv docs' done' ∧
    (∀ t, t ∈ done' ↔
          t ∈ done ∨
          (is_Some (resolve (occs_of dep (all_occ docs0 members))) ∧
           ∃ o, (dep, o) ∈ all_occ docs0 members ∧ t = (o.1.2, o.1.1, dep))) ∧
    (∀ q, q ∉ members → q ≠ root_toml → docs' !! q = docs !! q) ∧
    ws_extends (doc_at docs root_toml) (doc_at docs' root_toml).
Proof.
  intros HI Hfresh. unfold hoist_dep.
  destruct (resolve _) as [version|] eqn:Er.
  2:{ intros [= <- <-]. exists done. split; [done|]. split; [|split; [done|]].
      - intros t. split; [by left | intros [?|[[? [=]] _]]; done].
      - apply ws_extends_refl. }
  destruct (ws_deps _) as [w|] eqn:Ew; [|done].
  destruct (ws_contains dep w) as [e|present] eqn:Ec; [done|].
  set (ins := if present then _ else _).
  assert (Hins : match ins with
                 | inl _ => True
                 | inr (docs1, _) =>
                     Inv docs1 done ∧
                     (∀ q, q ∉ members → q ≠ root_toml → docs1 !! q = docs !! q) ∧
                     ws_extends (doc_at docs root_toml) (doc_at docs1 root_toml)
                 end).
  { unfold ins. destruct present.
    - split; [done|]. split; [done | apply ws_extends_refl].
    - destruct (ws_insert _ _ _) as [|rd'] eqn:Ei; [done|].
      split; [by apply Inv_root_insert|]. split.
      + intros q _ Hq. by apply lookup_insert_ne.
      + rewrite doc_at_insert, decide_True by done.
        by destruct (ws_insert_extends _ _ _ _ _ Ew Ec Ei). }
  destruct ins as [e|[docs1 add1]]; [done|]. destruct Hins as (HI1 & Hfr1 & Hws1).
  destruct (mutate_loop dep version (occs_of dep (all_occ docs0 members))
              docs1 (updated c) done)
    as (docs2 & done2 & Hrun & HI2 & Hmem & Hfr2).
  - done.
  - apply occs_of_positions_NoDup.
  - intros o. by rewrite elem_of_occs_of.
  - intros o _. apply Hfresh.
  - rewrite Hrun. intros [= <- <-]. exists done2. split; [done|]. split; [|split].
    + intros t. rewrite Hmem. split.
      * intros [?|(o & Ho%elem_of_occs_of & ->)]; [by left|]. right. eauto.
      * intros [?|[_ (o & Ho & ->)]]; [by left|]. right.
        exists o. by rewrite elem_of_occs_of.
    + intros q Hq Hqr. by rewrite Hfr2, Hfr1.
    + unfold doc_at at 2. by rewrite (Hfr2 root_toml root_not_member).
Qed.

Lemma hoist_loop nd : ∀ docs c done docs' c',
  Inv docs done → NoDup nd.*1 →
  (∀ dep occ, (dep, occ) ∈ nd → occ = occs_of dep (all_occ docs0 members)) →
  (∀ p sec dep, (p, sec, dep) ∈ done → dep ∉ nd.*1) →
  for_each (hoist_dep root_toml) nd (docs, c) = inr (docs', c') →
  ∃ done', Inv docs' done' ∧
    (∀ t, t ∈ done' ↔
          t ∈ done ∨
          (t.2 ∈ nd.*1 ∧
           is_Some (resolve (occs_of t.2 (all_occ docs0 members))) ∧
           ∃ o, (t.2, o) ∈ all_occ docs0 members ∧ t = (o.1.2, o.1.1, t.2))) ∧
    (∀ q, q ∉ members → q ≠ root_toml → docs' !! q = docs !! q) ∧
    ws_extends (doc_at docs root_toml) (doc_at docs' root_toml).
Proof.
  induction nd as [|[dep occ] nd IH]; intros docs c done docs' c' HI Hnd Hocc Hfresh.
  { intros [= <- <-]. exists done. split; [done|]. split; [|split; [done|]].
    - intros t. split; [by left | intros [?|[?%elem_of_nil _]]; done].
    - apply ws_extends_refl. }
  rewrite for_each_cons. rewrite fmap_cons in Hnd.
  apply NoDup_cons in Hnd as [Hdep Hnd]. simpl in Hdep.
  rewrite (Hocc dep occ) by left.
  destruct (hoist_dep root_toml (docs, c) _) as [e|[docs1 c1]] eqn:Estep; [done|].
  destruct (hoist_dep_step dep docs c done docs1 c1 HI)
    as (done1 & HI1 & Hmem1 & Hfr1 & Hws1).
  { intros p sec Hin. apply (Hfresh _ _ _ Hin). left. }
  { done. }
  intros Hrest.
  destruct (IH docs1 c1 done1 docs' c' HI1 Hnd)
    as (done2 & HI2 & Hmem2 & Hfr2 & Hws2).
  - intros d o Hin. apply Hocc. by right.
  - intros p sec d [Hin|[_ (o & _ & [= -> -> ->])]]%Hmem1.
    + intros Hd. apply (Hfresh _ _ _ Hin). by right.
    + done.
  - done.
  - exists done2. split; [done|]. split; [|split].
    + intros [[p sec] d]. rewrite Hmem2, Hmem1. rewrite fmap_cons, elem_of_cons.
      simpl. split.
      * intros [[?|[Hr (o & Ho & [= -> -> ->])]]|(Hd & Hr & Ho)].
        -- by left.
        -- right. split; [by left|]. split; [done|]. eauto.
        -- right. split; [by right|]. done.
      * intros [?|([->|Hd] & Hr & o & Ho & [= -> ->])].
        -- left. by left.
        -- left. right. split; [done|]. eauto.
        -- right. split; [done|]. split; [done|]. eauto.
    + intros q Hq Hqr. by rewrite Hfr2, Hfr1.
    + by eapply ws_extends_trans.
Qed.

End hoist_loop.
(** ** The write phase of [hoist] *)

Lemma backup_and_write_inl root clock docs p fs m fs' m' :
  is_manifest p →
  backup_and_write root clock docs p (fs, m) = inl (fs', m') →
  ∃ c, fs !! p = Some c ∧
       fs' = <[p := Toml (doc_at docs p)]> (<[backup_path clock fs p := c]> fs) ∧
       m' = m ++ [(drop (length root) p, name (backup_path clock fs p))].
Proof.
  intros Hp. unfold backup_and_write.
  destruct (backup_file clock p fs) as [e|[fs1 bak]] eqn:Eb; [done|].
  pose proof (backup_file_path _ _ _ _ _ Eb) as ->.
  apply backup_file_inr in Eb as (c & Hc & -> & _); [|done].
  intros [= <- <-]. eauto.
Qed.

Lemma backup_and_write_ok root clock docs p fs m :
  is_Some (fs !! p) → ∃ st', backup_and_write root clock docs p (fs, m) = inl st'.
Proof.
  intros H. unfold backup_and_write.
  destruct (backup_file_ok clock p fs H) as (fs' & bak & ->). eauto.
Qed.

Lemma backup_and_write_frame root clock docs p fs m fs' m' x :
  is_manifest p →
  backup_and_write root clock docs p (fs, m) = inl (fs', m') →
  dir x ≠ dir p → fs' !! x = fs !! x.
Proof.
  intros Hp (c & Hc & -> & _)%backup_and_write_inl Hx; [|done].
  rewrite !lookup_insert_ne; [done| |].
  - intros <-. by rewrite dir_backup_path in Hx.
  - by intros <-.
Qed.

Section write_members.
Variables (root : path) (clock : path → string) (docs : gmap path table)
          (root_toml : path).

(** The paths the loop writes: the first occurrence of each path that is
    not yet seen and is not the root manifest. *)
Definition to_write (ps seen : list path) (x : path) : Prop :=
  x ∈ ps ∧ (x ∉ seen) ∧ x ≠ root_toml.

Lemma write_members_cons p ps seen st :
  write_members root clock docs root_toml (p :: ps) seen st =
  if bool_decide (p ∈ seen) || bool_decide (p = root_toml)
  then write_members root clock docs root_toml ps seen st
  else match backup_and_write root clock docs p st with
       | inl st' => write_members root clock docs root_toml ps (p :: seen) st'
       | inr e => inr e
       end.
Proof. done. Qed.

Lemma to_write_skip p ps seen x :
  p ∈ seen ∨ p = root_toml →
  to_write (p :: ps) seen x ↔ to_write ps seen x.
Proof.
  intros Hskip. unfold to_write. rewrite elem_of_cons. split.
  - intros ([->|?] & ? & ?); [by destruct Hskip | done].
  - intros (? & ? & ?). auto.
Qed.

Lemma to_write_step p ps seen x :
  p ∉ seen → p ≠ root_toml →
  to_write (p :: ps) seen x ↔ x = p ∨ to_write ps (p :: seen) x.
Proof.
  intros Hseen Hroot. unfold to_write. rewrite elem_of_cons, not_elem_of_cons.
  split.
  - intros ([->|?] & ? & ?); [by left|].
    destruct (decide (x = p)) as [->|]; [by left | by right].
  - intros [->|(? & [? ?] & ?)]; auto.
Qed.

Lemma write_members_inl ps : ∀ seen fs m fs' m',
  Forall is_manifest ps →
  write_members root clock docs root_toml ps seen (fs, m) = inl (fs', m') →
  (∀ x, (∀ q, to_write ps seen q → dir x ≠ dir q) → fs' !! x = fs !! x) ∧
  (∀ x, to_write ps seen x →
        fs' !! x = Some (Toml (doc_at docs x)) ∧
        fs' !! backup_path clock fs x = fs !! x ∧ is_Some (fs !! x)) ∧
  (∀ rel, rel ∈ m'.*1 ↔
          rel ∈ m.*1 ∨ ∃ q, to_write ps seen q ∧ rel = drop (length root) q).
Proof.
  induction ps as [|p ps IH]; intros seen fs m fs' m' Hps.
  { intros [= <- <-]. split; [done|]. split.
    - by intros x [?%elem_of_nil _].
    - intros rel. split; [by left | intros [?|(q & [?%elem_of_nil _] & _)]; done]. }
  apply Forall_cons in Hps as [Hp Hps]. rewrite write_members_cons.
  destruct (bool_decide (p ∈ seen) || bool_decide (p = root_toml)) eqn:Eskip.
  - intros H. destruct (IH _ _ _ _ _ Hps H) as (Hfr & Hw & Hm).
    assert (Hskip : p ∈ seen ∨ p = root_toml).
    { apply orb_true_iff in Eskip as [?%bool_decide_eq_true|?%bool_decide_eq_true]; auto. }
    split; [|split].
    + intros x Hx. apply Hfr. intros q Hq. apply Hx. by apply to_write_skip.
    + intros x Hx%to_write_skip; [by apply Hw | done].
    + intros rel. rewrite Hm. split.
      * intros [?|(q & Hq & ->)]; [by left|]. right. exists q.
        split; [by apply to_write_skip | done].
      * intros [?|(q & Hq%to_write_skip & ->)]; [by left| |done]. right. eauto.
  - apply orb_false_iff in Eskip as [Hseen%bool_decide_eq_false Hroot%bool_decide_eq_false].
    destruct (backup_and_write root clock docs p (fs, m)) as [[fs1 m1]|[fs1 e]] eqn:Eb; [|done].
    intros H. destruct (IH _ _ _ _ _ Hps H) as (Hfr & Hw & Hm).
    assert (Hfr1 : ∀ x, dir x ≠ dir p → fs1 !! x = fs !! x).
    { intros x. by apply (backup_and_write_frame _ _ _ _ _ _ _ _ x Hp Eb). }
    pose proof Eb as (c & Hc & Hfs1 & ->)%backup_and_write_inl; [|done].
    assert (Hdirs : ∀ q, to_write ps (p :: seen) q → dir q ≠ dir p).
    { intros q (Hq & [Hqp _]%not_elem_of_cons & _).
      apply distinct_manifests_dirs; [|done..]. by eapply Forall_forall in Hps. }
    split; [|split].
    + intros x Hx. rewrite Hfr.
      * apply Hfr1. apply Hx. apply to_write_step; auto.
      * intros q Hq. apply Hx. apply to_write_step; auto.
    + intros x [->|Hx]%to_write_step; [| |done..].
      * assert (∀ y, dir y = dir p → fs' !! y = fs1 !! y) as Hsame.
        { intros y Hy. apply Hfr. intros q Hq. rewrite Hy. symmetry.
          by apply not_eq_sym, not_eq_sym, Hdirs. }
        rewrite !Hsame by (done || apply dir_backup_path). rewrite Hfs1.
        rewrite lookup_insert_eq.
        rewrite lookup_insert_ne by (by apply not_eq_sym, backup_path_ne).
        rewrite lookup_insert_eq. eauto.
      * destruct (Hw x Hx) as (H1 & H2 & H3).
        pose proof (Hdirs x Hx) as Hd.
        rewrite <- (Hfr1 x Hd). split; [done|]. split; [|done].
        rewrite <- (backup_path_agree clock fs fs1 x); [done| |].
        -- intros y Hy _. apply Hfr1. congruence.
        -- destruct Hx as (Hx & _). by eapply Forall_forall in Hps.
    + intros rel. rewrite Hm, fmap_app, elem_of_app. simpl.
      rewrite list_elem_of_singleton. split.
      * intros [[? | ->] | (q & Hq & ->)].
        -- by left.
        -- right. exists p. split; [|done]. apply to_write_step; auto.
        -- right. exists q. split; [|done]. apply to_write_step; auto.
      * intros [?|(q & [->|Hq]%to_write_step & ->)]; [| | |done..].
        -- left. by left.
        -- left. by right.
        -- right. eauto.
Qed.

Lemma write_members_ok ps : ∀ seen fs m,
  Forall is_manifest ps → (∀ p, p ∈ ps → is_Some (fs !! p)) →
  ∃ st', write_members root clock docs root_toml ps seen (fs, m) = inl st'.
Proof.
  induction ps as [|p ps IH]; intros seen fs m Hps Hex; [by eexists|].
  apply Forall_cons in Hps as [Hp Hps]. rewrite write_members_cons.
  destruct (_ || _).
  - apply IH; [done|]. intros q Hq. apply Hex. by right.
  - destruct (backup_and_write_ok root clock docs p fs m) as ([fs1 m1] & Eb).
    { apply Hex. left. }
    rewrite Eb. apply IH; [done|]. intros q Hq.
    apply backup_and_write_inl in Eb as (c & Hc & -> & _); [|done].
    destruct (decide (q = p)) as [->|]; [by rewrite lookup_insert_eq|].
    rewrite lookup_insert_ne by done.
    destruct (decide (backup_path clock fs p = q)) as [<-|].
    + by rewrite lookup_insert_eq.
    + rewrite lookup_insert_ne by done. apply Hex. by right.
Qed.

End write_members.
(** ** The shared table is append-only *)

Lemma ws_extends_eq rd rd' : ws_deps rd' = ws_deps rd → ws_extends rd rd'.
Proof. intros H. unfold ws_extends. rewrite H. split; [done|]. eauto. Qed.

Lemma mutate_occurrence_root root_toml dep version docs u o docs' u' :
  o.1.1 ∈ SECTIONS →
  mutate_occurrence dep version (docs, u) o = inr (docs', u') →
  ws_deps (doc_at docs' root_toml) = ws_deps (doc_at docs root_toml).
Proof.
  destruct o as [[sec p] spec]. simpl. intros Hsec. unfold mutate_occurrence.
  destruct (as_block _) as [sect|]; [|by intros [= <- _]].
  destruct (thas dep sect); [|by intros [= <- _]].
  destruct (mutate_member_dep sect dep version); [|done].
  intros [= <- _]. rewrite doc_at_insert.
  destruct (decide (p = root_toml)) as [->|]; [|done].
  by apply ws_deps_tset_section.
Qed.

Lemma mutate_occurrences_root root_toml dep version os : ∀ docs u docs' u',
  (∀ o, o ∈ os → o.1.1 ∈ SECTIONS) →
  for_each (mutate_occurrence dep version) os (docs, u) = inr (docs', u') →
  ws_deps (doc_at docs' root_toml) = ws_deps (doc_at docs root_toml).
Proof.
  induction os as [|o os IH]; intros docs u docs' u' Hsec.
  { by intros [= <- _]. }
  rewrite for_each_cons.
  destruct (mutate_occurrence dep version (docs, u) o) as [e|[docs1 u1]] eqn:E; [done|].
  intros H. rewrite (IH _ _ _ _ ltac:(intros; apply Hsec; by right) H).
  eapply mutate_occurrence_root; [|exact E]. apply Hsec. left.
Qed.

Lemma hoist_dep_root root_toml docs c dep occ docs' c' :
  (∀ o, o ∈ occ → o.1.1 ∈ SECTIONS) →
  hoist_dep root_toml (docs, c) (dep, occ) = inr (docs', c') →
  ws_extends (doc_at docs root_toml) (doc_at docs' root_toml).
Proof.
  intros Hsec. unfold hoist_dep.
  destruct (resolve occ) as [version|]; [|intros [= <- _]; apply ws_extends_refl].
  destruct (ws_deps _) as [w|] eqn:Ew; [|done].
  destruct (ws_contains dep w) as [e|[|]] eqn:Ec; [done| |].
  - destruct (for_each _ _ _) as [|[docs2 u2]] eqn:E; [done|].
    intros [= <- _]. apply ws_extends_eq.
    by eapply mutate_occurrences_root.
  - destruct (ws_insert _ _ _) as [|rd'] eqn:Ei; [done|].
    destruct (for_each _ _ _) as [|[docs2 u2]] eqn:E; [done|].
    intros [= <- _].
    eapply ws_extends_trans; [by eapply ws_insert_extends|].
    apply ws_extends_eq.
    rewrite (mutate_occurrences_root _ _ _ _ _ _ _ _ Hsec E).
    by rewrite doc_at_insert, decide_True.
Qed.

Lemma hoist_deps_root root_toml nd : ∀ docs c docs' c',
  (∀ dep occ o, (dep, occ) ∈ nd → o ∈ occ → o.1.1 ∈ SECTIONS) →
  for_each (hoist_dep root_toml) nd (docs, c) = inr (docs', c') →
  ws_extends (doc_at docs root_toml) (doc_at docs' root_toml).
Proof.
  induction nd as [|[dep occ] nd IH]; intros docs c docs' c' Hsec.
  { intros [= <- _]. apply ws_extends_refl. }
  rewrite for_each_cons.
  destruct (hoist_dep root_toml (docs, c) (dep, occ)) as [e|[docs1 c1]] eqn:E; [done|].
  intros H. eapply ws_extends_trans.
  - eapply hoist_dep_root; [|exact E]. intros o. apply (Hsec dep occ). left.
  - eapply IH; [|exact H]. intros d oc o Hin. apply (Hsec d oc). by right.
Qed.

Lemma collect_sections docs members dep occ o :
  (dep, occ) ∈ collect docs members → o ∈ occ → o.1.1 ∈ SECTIONS.
Proof.
  rewrite collect_group. intros Hin Ho.
  destruct (group_spec (all_occ docs members)) as (_ & _ & H).
  rewrite (H _ _ Hin) in Ho. unfold occs_of in Ho.
  apply list_elem_of_fmap in Ho as ([d [[sec p] spec]] & -> & [_ Hx]%list_elem_of_filter).
  by apply elem_of_all_occ in Hx as (_ & ? & _).
Qed.

Lemma elem_of_concat {A} (x : A) (ls : list (list A)) :
  x ∈ concat ls ↔ ∃ l, x ∈ l ∧ l ∈ ls.
Proof.
  induction ls as [|l ls IH]; simpl.
  - split; [by intros ?%elem_of_nil | by intros (? & _ & ?%elem_of_nil)].
  - rewrite elem_of_app, IH. split.
    + intros [?|(l' & ? & ?)]; [exists l; split; [done | left] |].
      exists l'. split; [done | by right].
    + intros (l' & ? & [->|?]%elem_of_cons); [by left | right; eauto].
Qed.

Lemma elem_of_occurrence_paths docs members p :
  p ∈ occurrence_paths (collect docs members) ↔
  ∃ dep sec spec, (dep, (sec, p, spec)) ∈ all_occ docs members.
Proof.
  unfold occurrence_paths. rewrite collect_group.
  destruct (group_spec (all_occ docs members)) as (_ & Hk & Hg).
  rewrite list_elem_of_fmap. split.
  - intros ([[sec p'] spec] & -> & Ho).
    apply elem_of_concat in Ho as (occ & Ho & Hocc).
    apply list_elem_of_fmap in Hocc as ([dep occ'] & -> & Hin').
    rewrite (Hg _ _ Hin') in Ho. apply elem_of_occs_of in Ho. eauto.
  - intros (dep & sec & spec & Hin). exists (sec, p, spec). split; [done|].
    assert (dep ∈ (group (all_occ docs members)).*1) as Hd.
    { apply Hk. by apply (list_elem_of_fmap_2 fst) in Hin. }
    apply list_elem_of_fmap in Hd as ([d occ] & -> & Hocc).
    apply elem_of_concat. exists occ. split.
    + rewrite (Hg _ _ Hocc). by apply elem_of_occs_of.
    + by apply (list_elem_of_fmap_2 snd) in Hocc.
Qed.

Lemma occurrence_paths_members docs members p :
  p ∈ occurrence_paths (collect docs members) → p ∈ members.
Proof.
  intros (dep & sec & spec & Hin)%elem_of_occurrence_paths.
  by apply elem_of_all_occ in Hin as (? & _).
Qed.

Lemma parse_all_inr fs files : ∀ docs0 docs,
  parse_all fs files docs0 = inr docs →
  (∀ p, p ∉ files → docs !! p = docs0 !! p) ∧
  (NoDup files → ∀ p, p ∈ files → ∃ d, fs !! p = Some (Toml d) ∧ docs !! p = Some d).
Proof.
  induction files as [|q files IH]; intros docs0 docs; simpl.
  { intros [= <-]. split; [done|]. by intros _ p ?%elem_of_nil. }
  destruct (fs !! q) as [[d|t]|] eqn:Eq; try done. simpl.
  intros H. destruct (IH _ _ H) as [Hout Hin]. split.
  - intros p [Hpq Hp]%not_elem_of_cons. rewrite (Hout p Hp).
    by apply lookup_insert_ne.
  - intros [Hq Hnd]%NoDup_cons p [->|Hp]%elem_of_cons.
    + exists d. split; [done|]. rewrite (Hout q Hq). apply lookup_insert_eq.
    + by apply Hin.
Qed.

Lemma parse_all_ok fs files : ∀ docs0,
  (∀ p, p ∈ files → ∃ d, fs !! p = Some (Toml d)) →
  ∃ docs, parse_all fs files docs0 = inr docs.
Proof.
  induction files as [|q files IH]; intros docs0 H; simpl; [eauto|].
  destruct (H q) as [d ->]; [left|]. simpl. apply IH.
  intros p Hp. apply H. by right.
Qed.

Lemma remove_first_NoDup (x : path) l :
  NoDup l → NoDup (remove_first x l) ∧ x ∉ remove_first x l.
Proof.
  induction 1 as [|y l Hy Hl [IH1 IH2]]; simpl.
  { split; [constructor | apply not_elem_of_nil]. }
  case_decide as E.
  - subst. done.
  - split.
    + constructor; [|done]. intros Hin. apply Hy. by eapply remove_first_subseteq.
    + by intros [?|?]%elem_of_cons.
Qed.

(** The state of a [hoist] run before the write phase. *)
Lemma hoist_compute_inr root_toml files fs needed docs c :
  hoist_compute root_toml files fs = inr (needed, docs, c) →
  ∃ docs0 rd,
    parse_all fs files ∅ = inr docs0 ∧
    needed = collect docs0 (tail files) ∧
    ensure_workspace_deps (doc_at docs0 root_toml) = inr rd ∧
    for_each (hoist_dep root_toml) needed (<[root_toml := rd]> docs0, Counts 0 0 0)
      = inr (docs, c).
Proof.
  unfold hoist_compute.
  destruct (parse_all fs files ∅) as [|docs0] eqn:Ep; [done|].
  destruct (ensure_workspace_deps _) as [|rd] eqn:Ee; [done|].
  destruct (for_each _ _ _) as [|[docs' c']] eqn:E; [done|].
  intros [= <- <- <-]. by exists docs0, rd.
Qed.

Lemma backup_and_write_inr root clock docs p fs m fs' e :
  backup_and_write root clock docs p (fs, m) = inr (fs', e) → fs' = fs.
Proof.
  unfold backup_and_write.
  destruct (backup_file clock p fs) as [|[fs1 bak]]; by intros [= <- _].
Qed.

Lemma write_members_root root clock docs root_toml ps : ∀ seen fs m,
  Forall is_manifest ps → is_manifest root_toml →
  reached (write_members root clock docs root_toml ps seen (fs, m)) !! root_toml
    = fs !! root_toml.
Proof.
  induction ps as [|p ps IH]; intros seen fs m Hps Hr; [done|].
  apply Forall_cons in Hps as [Hp Hps]. rewrite write_members_cons.
  destruct (bool_decide (p ∈ seen) || bool_decide (p = root_toml)) eqn:Eskip.
  { by apply IH. }
  apply orb_false_iff in Eskip as [_ Hroot%bool_decide_eq_false].
  destruct (backup_and_write root clock docs p (fs, m)) as [[fs1 m1]|[fs1 e]] eqn:Eb.
  - rewrite IH by done.
    apply (backup_and_write_frame _ _ _ _ _ _ _ _ root_toml Hp Eb).
    by apply distinct_manifests_dirs.
  - simpl. by rewrite (backup_and_write_inr _ _ _ _ _ _ _ _ Eb).
Qed.

(** C3.  Whatever a [hoist] run does and however it ends, every entry the
    root manifest's shared table had before the run is still there, with
    the same value, in the root manifest on disk after the run. *)
Theorem shared_table_append_only (root : path) (dry_run : bool)
    (clock : path → string) (fs fs' : fsys) (r : error + report)
    (rd : table) (k : tkind) (f : table) :
  fs !! (root ++ ["Cargo.toml"]) = Some (Toml rd) →
  ws_deps rd = Some (VTable k f) →
  hoist root dry_run clock fs = (fs', r) →
  ∃ rd' f',
    fs' !! (root ++ ["Cargo.toml"]) = Some (Toml rd') ∧
    ws_deps rd' = Some (VTable k f') ∧
    ∀ dep v, tget dep f = Some v → tget dep f' = Some v.
Proof.
  intros Hrd Hws. unfold hoist. rewrite Hrd.
  set (root_toml := root ++ ["Cargo.toml"]) in *.
  set (files := root_toml :: remove_first root_toml (find_cargo_tomls root fs)).
  assert (Hsame : ∃ rd' f', fs !! root_toml = Some (Toml rd') ∧
            ws_deps rd' = Some (VTable k f') ∧
            ∀ dep v, tget dep f = Some v → tget dep f' = Some v) by eauto.
  destruct (hoist_compute root_toml files fs) as [e|[[needed docs] c]] eqn:Ec.
  { by intros [= <- _]. }
  destruct dry_run; [by intros [= <- _]|].
  apply hoist_compute_inr in Ec as (docs0 & rd1 & Hparse & -> & Hens & Hloop).
  pose proof (NoDup_find_cargo_tomls root fs) as Hnd.
  destruct (remove_first_NoDup root_toml _ Hnd) as [Hnd' Hroot].
  assert (Hfiles : NoDup files) by (by constructor).
  destruct (parse_all_inr _ _ _ _ Hparse) as [_ Hin].
  destruct (Hin Hfiles root_toml) as (d & Hd & Hd0); [left|].
  rewrite Hrd in Hd. simplify_eq.
  assert (Hext : ws_extends d (doc_at docs root_toml)).
  { apply ensure_workspace_deps_inr in Hens as (_ & Hext1 & _).
    unfold doc_at in Hext1 at 1. rewrite Hd0 in Hext1. simpl in Hext1.
    eapply ws_extends_trans; [exact Hext1|].
    apply hoist_deps_root in Hloop.
    - by rewrite doc_at_insert, decide_True in Hloop.
    - intros dep occ o. apply collect_sections. }
  destruct Hext as [_ Hext]. destruct (Hext k f Hws) as (f' & Hf' & Hsub).
  assert (Hmembers : Forall is_manifest (occurrence_paths (collect docs0 (tail files)))).
  { apply Forall_forall. intros p Hp%occurrence_paths_members. simpl in Hp.
    apply remove_first_subseteq in Hp.
    by apply find_cargo_tomls_manifest in Hp as []. }
  pose proof (root_toml_manifest root) as Hrm. fold root_toml in Hrm.
  set (st0 := if bool_decide (added c ≠ 0) then _ else _).
  assert (Hst0 : match st0 with
                 | inl (fs0, _) => fs0 !! root_toml = Some (Toml d) ∨
                                   fs0 !! root_toml = Some (Toml (doc_at docs root_toml))
                 | inr (fs0, _) => fs0 = fs
                 end).
  { unfold st0. case_bool_decide; [|by left].
    destruct (backup_and_write _ _ _ _ _) as [[fs0 m0]|[fs0 e]] eqn:Eb.
    - right. apply backup_and_write_inl in Eb as (c0 & _ & -> & _); [|done].
      apply lookup_insert_eq.
    - by eapply backup_and_write_inr. }
  destruct st0 as [[fs0 m0]|[fs0 e]].
  - pose proof (write_members_root root clock docs root_toml
                  (occurrence_paths (collect docs0 (tail files))) [] fs0 m0 Hmembers Hrm) as Hw.
    destruct (write_members _ _ _ _ _ _ _) as [[fs2 m2]|[fs2 e]];
      simpl in Hw; intros [= <- _]; rewrite Hw; destruct Hst0 as [->| ->]; eauto.
  - subst fs0. by intros [= <- _].
Qed.

Lemma shared_table_append_only_witness :
  let clock := λ _ : path, "20240101T000000Z" in
  let rd := [("workspace",
              VTable Block
                [("members", VArr [VStr "a"]);
                 ("dependencies", VTable Block [("serde", VStr "1.0.100")])])] in
  let out := hoist ["ws"] false clock fs_shared in
  fs_shared !! (["ws"] ++ ["Cargo.toml"]) = Some (Toml rd) ∧
  ws_deps rd = Some (VTable Block [("serde", VStr "1.0.100")]) ∧
  hoist ["ws"] false clock fs_shared = (out.1, out.2) ∧
  ∃ rd' f',
    out.1 !! (["ws"] ++ ["Cargo.toml"]) = Some (Toml rd') ∧
    ws_deps rd' = Some (VTable Block f') ∧
    ∀ dep v, tget dep [("serde", VStr "1.0.100")] = Some v → tget dep f' = Some v.
Proof.
  intros clock rd out.
  assert (H1 : fs_shared !! (["ws"] ++ ["Cargo.toml"]) = Some (Toml rd))
    by (vm_compute; reflexivity).
  assert (H2 : ws_deps rd = Some (VTable Block [("serde", VStr "1.0.100")]))
    by reflexivity.
  assert (H3 : hoist ["ws"] false clock fs_shared = (out.1, out.2))
    by (vm_compute; reflexivity).
  split; [exact H1|]. split; [exact H2|]. split; [exact H3|].
  exact (shared_table_append_only ["ws"] false clock fs_shared out.1 out.2
           rd Block [("serde", VStr "1.0.100")] H1 H2 H3).
Defined.

Example hoist_keeps_shared_version :
  (hoist ["ws"] false (λ _, "20240101T000000Z") fs_shared).1 !! ["ws"; "Cargo.toml"] =
  Some (Toml [("workspace",
               VTable Block
                 [("members", VArr [VStr "a"]);
                  ("dependencies",
                   VTable Block [("serde", VStr "1.0.100"); ("log", VStr "0.4")])])]).
Proof. by vm_compute. Qed.

(** ** Which files [hoist] writes *)

Lemma hoist_inr root clock fs fs' rep :
  hoist root false clock fs = (fs', inr rep) →
  let root_toml := root ++ ["Cargo.toml"] in
  let files := root_toml :: remove_first root_toml (find_cargo_tomls root fs) in
  ∃ needed docs fs0 m0,
    is_Some (fs !! root_toml) ∧
    hoist_compute root_toml files fs = inr (needed, docs, rep_counts rep) ∧
    (if bool_decide (added (rep_counts rep) ≠ 0)
     then backup_and_write root clock docs root_toml (fs, [])
     else inl (fs, [])) = inl (fs0, m0) ∧
    write_members root clock docs root_toml (occurrence_paths needed) [] (fs0, m0)
      = inl (fs', rep_backups rep).
Proof.
  unfold hoist. destruct (fs !! (root ++ ["Cargo.toml"])) as [c0|] eqn:Er; [|done].
  destruct (hoist_compute _ _ fs) as [|[[needed docs] c]] eqn:Ec; [done|].
  match goal with |- context [match ?s with inl _ => _ | inr _ => _ end] =>
    destruct s as [[fs0 m0]|[fs0 e]] eqn:E0 end; [|done].
  destruct (write_members _ _ _ _ _ _ _) as [[fs2 m2]|[fs2 e]] eqn:Ew; [|done].
  intros [= <- <-]. simpl. exists needed, docs, fs0, m0. eauto.
Qed.

Section hoist_run.
Variables (root : path) (fs : fsys).
Let root_toml := root ++ ["Cargo.toml"].
Let members := remove_first root_toml (find_cargo_tomls root fs).
Let files := root_toml :: members.

Lemma members_NoDup : NoDup members.
Proof. apply remove_first_NoDup, NoDup_find_cargo_tomls. Qed.

Lemma root_not_member : root_toml ∉ members.
Proof. apply remove_first_NoDup, NoDup_find_cargo_tomls. Qed.

Lemma members_found p : p ∈ members → p ∈ find_cargo_tomls root fs.
Proof. apply remove_first_subseteq. Qed.

Lemma found_members p :
  p ∈ find_cargo_tomls root fs → p ≠ root_toml → p ∈ members.
Proof. intros. by apply elem_of_remove_first. Qed.

Lemma members_manifest p : p ∈ members → is_manifest p.
Proof. intros Hp%members_found. by apply find_cargo_tomls_manifest in Hp as []. Qed.

Lemma files_NoDup : NoDup files.
Proof. constructor; [apply root_not_member | apply members_NoDup]. Qed.

Lemma members_dir p : p ∈ members → dir p ≠ dir root_toml.
Proof.
  intros Hp. apply distinct_manifests_dirs;
    [by apply members_manifest | apply root_toml_manifest |].
  intros ->. by apply root_not_member.
Qed.

Lemma members_prefix p : p ∈ members → root ++ drop (length root) p = p.
Proof.
  intros (_ & Hm & _)%members_found%elem_of_find_cargo_tomls.
  unfold rglob_match in Hm. apply andb_true_iff in Hm as [Hm _].
  apply andb_true_iff in Hm as [[k ->]%bool_decide_eq_true _].
  by rewrite drop_app_length.
Qed.

(** The documents [hoist] parses. *)
Lemma parsed_docs docs0 p :
  parse_all fs files ∅ = inr docs0 → p ∈ files →
  ∃ d, fs !! p = Some (Toml d) ∧ docs0 !! p = Some d ∧ doc_at docs0 p = d.
Proof.
  intros Hparse Hp. destruct (parse_all_inr _ _ _ _ Hparse) as [_ Hin].
  destruct (Hin files_NoDup p Hp) as (d & Hd & Hd0).
  exists d. split; [done|]. split; [done|]. unfold doc_at. by rewrite Hd0.
Qed.

Lemma occurrence_paths_collected docs0 p :
  parse_all fs files ∅ = inr docs0 →
  p ∈ occurrence_paths (collect docs0 members) ↔
  p ∈ members ∧ ∃ d, fs !! p = Some (Toml d) ∧ has_collected d.
Proof.
  intros Hparse. rewrite elem_of_occurrence_paths. split.
  - intros (dep & sec & spec & (Hp & Hsec & tbl & Hv & Hin & Hw)%elem_of_all_occ).
    split; [done|].
    destruct (parsed_docs docs0 p Hparse) as (d & Hd & _ & Hd'); [by right|].
    exists d. split; [done|]. rewrite Hd' in Hv. by exists sec, tbl, dep, spec.
  - intros (Hp & d & Hd & sec & tbl & dep & spec & Hsec & Hv & Hin & Hw).
    exists dep, sec, spec. apply elem_of_all_occ. split; [done|]. split; [done|].
    destruct (parsed_docs docs0 p Hparse) as (d' & Hd' & _ & Hd''); [by right|].
    exists tbl. rewrite Hd''. split; [|done]. congruence.
Qed.

End hoist_run.

(** What a [hoist] run that is not dry and completes leaves on disk, in
    terms of the documents [docs] it has in memory when it starts to
    write. *)
Lemma hoist_disk root clock fs fs' rep :
  hoist root false clock fs = (fs', inr rep) →
  let root_toml := root ++ ["Cargo.toml"] in
  let members := remove_first root_toml (find_cargo_tomls root fs) in
  ∃ docs0 rd docs,
    parse_all fs (root_toml :: members) ∅ = inr docs0 ∧
    ensure_workspace_deps (doc_at docs0 root_toml) = inr rd ∧
    for_each (hoist_dep root_toml) (collect docs0 members)
             (<[root_toml := rd]> docs0, Counts 0 0 0)
      = inr (docs, rep_counts rep) ∧
    (if bool_decide (added (rep_counts rep) ≠ 0)
     then fs' !! backup_path clock fs root_toml = fs !! root_toml ∧
          fs' !! root_toml = Some (Toml (doc_at docs root_toml)) ∧
          ["Cargo.toml"] ∈ (rep_backups rep).*1
     else ∀ x, dir x = dir root_toml → fs' !! x = fs !! x) ∧
    (∀ p d, p ∈ members → fs !! p = Some (Toml d) →
       (has_collected d →
          fs' !! backup_path clock fs p = fs !! p ∧
          fs' !! p = Some (Toml (doc_at docs p)) ∧
          drop (length root) p ∈ (rep_backups rep).*1) ∧
       (¬ has_collected d →
          (∀ x, dir x = dir p → fs' !! x = fs !! x) ∧
          drop (length root) p ∉ (rep_backups rep).*1)) ∧
    (∀ x, dir x ≠ dir root_toml → (∀ p, p ∈ members → dir x ≠ dir p) →
          fs' !! x = fs !! x).
Proof.
  intros (needed & docs & fs0 & m0 & Hroot & Hc & H0 & Hw)%hoist_inr.
  cbv zeta.
  set (root_toml := root ++ ["Cargo.toml"]) in *.
  set (members := remove_first root_toml (find_cargo_tomls root fs)) in *.
  apply hoist_compute_inr in Hc as (docs0 & rd & Hparse & -> & Hens & Hloop).
  cbn [tail] in Hw, Hloop.
  exists docs0, rd, docs. split; [done|]. split; [done|]. split; [done|].
  pose proof (root_toml_manifest root) as Hrm. fold root_toml in Hrm.
  assert (Hps : Forall is_manifest (occurrence_paths (collect docs0 members))).
  { apply Forall_forall. intros p Hp%occurrence_paths_members.
    by eapply members_manifest. }
  destruct (write_members_inl _ _ _ _ _ _ _ _ _ _ Hps Hw) as (Hfr & Hwr & Hm).
  assert (Hto : ∀ p, to_write root_toml (occurrence_paths (collect docs0 members)) [] p ↔
                     p ∈ members ∧ ∃ d, fs !! p = Some (Toml d) ∧ has_collected d).
  { intros p. unfold to_write.
    pose proof (occurrence_paths_collected root fs docs0 p Hparse) as Hoc.
    fold root_toml in Hoc. fold members in Hoc. rewrite Hoc. split.
    - by intros (? & _ & _).
    - intros [Hp ?]. split; [done|]. split; [apply not_elem_of_nil|].
      intros ->. by eapply root_not_member. }
  assert (Hfs0 : ∀ x, dir x ≠ dir root_toml → fs0 !! x = fs !! x).
  { intros x Hx. revert H0. case_bool_decide; [|by intros [= <- _]].
    intros H0. by apply (backup_and_write_frame _ _ _ _ _ _ _ _ x Hrm H0). }
  assert (Hrootdir : ∀ x, dir x = dir root_toml → fs' !! x = fs0 !! x).
  { intros x Hx. apply Hfr. intros q [Hq _]%Hto. rewrite Hx.
    apply not_eq_sym. by eapply members_dir. }
  split; [|split].
  - revert H0. case_bool_decide as Hadd.
    + intros (c & Hcr & -> & ->)%backup_and_write_inl; [|done].
      split; [|split].
      * rewrite Hrootdir by apply dir_backup_path.
        rewrite lookup_insert_ne by (by apply not_eq_sym, backup_path_ne).
        by rewrite lookup_insert_eq.
      * rewrite Hrootdir by done. by rewrite lookup_insert_eq.
      * apply Hm. left. simpl. apply list_elem_of_singleton.
        unfold root_toml. by rewrite drop_app_length.
    + intros [= <- _]. done.
  - intros p d Hpm Hd.
    assert (Hne : p ≠ root_toml) by (intros ->; by eapply root_not_member).
    pose proof (members_dir _ _ _ Hpm) as Hpd. fold root_toml in Hpd.
    pose proof (members_manifest _ _ _ Hpm) as Hpman.
    split.
    + intros Hcol. assert (Htw : to_write root_toml
                       (occurrence_paths (collect docs0 members)) [] p).
      { apply Hto. eauto. }
      destruct (Hwr p Htw) as (H1 & H2 & _). split; [|split].
      * rewrite <- (Hfs0 p Hpd), <- H2. f_equal.
        symmetry. apply backup_path_agree; [|done].
        intros x Hx _. apply Hfs0. congruence.
      * done.
      * apply Hm. right. eauto.
    + intros Hcol. split.
      * intros x Hx. rewrite Hfr.
        -- apply Hfs0. congruence.
        -- intros q Hq. rewrite Hx. pose proof Hq as [Hqm (d' & Hd' & Hc')]%Hto.
           apply distinct_manifests_dirs; [done | by eapply members_manifest |].
           intros ->. rewrite Hd in Hd'. by simplify_eq.
      * intros [Hin|(q & [Hqm (d' & Hd' & Hc')]%Hto & Heq)]%Hm.
        -- revert H0 Hin. case_bool_decide; [|by intros [= _ <-] ?%elem_of_nil].
           intros (c & _ & _ & ->)%backup_and_write_inl; [|done]. simpl.
           intros Heq%list_elem_of_singleton.
           apply Hne. rewrite <- (members_prefix _ _ _ Hpm), Heq.
           unfold root_toml. by rewrite drop_app_length.
        -- assert (p = q) as <-.
           { rewrite <- (members_prefix _ _ _ Hpm), <- (members_prefix _ _ _ Hqm).
             by rewrite Heq. }
           rewrite Hd in Hd'. by simplify_eq.
  - intros x Hxr Hxm. rewrite Hfr; [by apply Hfs0|].
    intros q [Hq _]%Hto. by apply Hxm.
Qed.




(** ** The scenario of the design document *)

Lemma NoDup_singleton_eq {A} (l : list A) (a : A) :
  NoDup l → (∀ x, x ∈ l ↔ x = a) → l = [a].
Proof.
  intros Hnd H. destruct l as [|x l].
  { exfalso. by apply (not_elem_of_nil a), H. }
  assert (x = a) as -> by (apply H; left).
  destruct l as [|y l]; [done|].
  apply NoDup_cons in Hnd as [Hx _].
  assert (y = a) as -> by (apply H; right; left).
  exfalso. apply Hx. left.
Qed.

Lemma collect_foo_bar docs m md sec :
  doc_at docs m = md →
  sec ∈ SECTIONS → as_block (tget sec md) = Some foo_bar →
  (∀ s, s ∈ SECTIONS → s ≠ sec → as_block (tget s md) = None) →
  collect docs [m] =
    [("foo", [(sec, m, VStr "1.2")]);
     ("bar", [(sec, m, VTable Inline [("path", VStr "../bar")])])].
Proof.
  intros Hd Hsec Hfb Hother.
  unfold collect, collect_file. cbn [foldl]. rewrite Hd.
  unfold SECTIONS in *. cbn [foldl].
  repeat (apply elem_of_cons in Hsec as [->|Hsec]).
  - rewrite Hfb, !Hother by (done || (apply (bool_decide_unpack _); by vm_compute)).
    done.
  - rewrite Hfb, !Hother by (done || (apply (bool_decide_unpack _); by vm_compute)).
    done.
  - rewrite Hfb, !Hother by (done || (apply (bool_decide_unpack _); by vm_compute)).
    done.
  - by apply elem_of_nil in Hsec.
Qed.

Lemma ensure_no_shared rd :
  tget "workspace" rd = None ∨
  (∃ k ws, tget "workspace" rd = Some (VTable k ws) ∧
           tget "dependencies" ws = None) →
  ∃ rd1, ensure_workspace_deps rd = inr rd1 ∧
         ws_deps rd1 = Some (VTable Block []) ∧
         ∀ k, k ≠ "workspace" → tget k rd1 = tget k rd.
Proof.
  intros H.
  assert (ws_deps rd = None) as Hn.
  { unfold ws_deps. destruct H as [->|(k & ws & -> & ->)]; done. }
  assert (∃ rd1, ensure_workspace_deps rd = inr rd1) as [rd1 He].
  { unfold ensure_workspace_deps, thas.
    destruct H as [Hw|(k & ws & Hw & Hd)]; rewrite Hw; cbv iota.
    - rewrite tget_tset_eq. simpl. eauto.
    - rewrite Hw. cbv iota. rewrite Hd. eauto. }
  exists rd1. split; [done|].
  apply ensure_workspace_deps_inr in He as (_ & _ & H1 & H2). auto.
Qed.

Lemma ws_insert_ok dep version rd k f :
  ws_deps rd = Some (VTable k f) →
  ∃ rd', ws_insert dep version rd = inr rd' ∧
         ws_deps rd' = Some (VTable k (tset dep version f)) ∧
         ∀ key, key ≠ "workspace" → tget key rd' = tget key rd.
Proof.
  intros (k0 & ws & Hws & Hw)%ws_deps_Some. unfold ws_insert.
  rewrite Hws, Hw. eexists. split; [done|]. split.
  - unfold ws_deps. by rewrite !tget_tset_eq.
  - intros key Hk. by apply tget_tset_ne.
Qed.

(** C2.  The scenario, for any root directory, any member path, any of the
    three section names and whatever else the two manifests hold: the root
    manifest has no shared table, and the one member declares exactly
    [foo = "1.2"] and [bar = { path = "../bar" }]. *)
Theorem hoist_scenario (root m : path) (clock : path → string) (fs : fsys)
    (rd md : table) (sec : string) :
  fs !! (root ++ ["Cargo.toml"]) = Some (Toml rd) →
  fs !! m = Some (Toml md) →
  m ∈ find_cargo_tomls root fs → m ≠ root ++ ["Cargo.toml"] →
  (∀ p, p ∈ find_cargo_tomls root fs → p = root ++ ["Cargo.toml"] ∨ p = m) →
  tget "workspace" rd = None ∨
  (∃ k ws, tget "workspace" rd = Some (VTable k ws) ∧
           tget "dependencies" ws = None) →
  sec ∈ SECTIONS → as_block (tget sec md) = Some foo_bar →
  (∀ s, s ∈ SECTIONS → s ≠ sec → as_block (tget s md) = None) →
  ∃ fs' rd' backups,
    hoist root false clock fs
      = (fs', inr (Report false (Counts 1 1 1) backups)) ∧
    fs' !! (root ++ ["Cargo.toml"]) = Some (Toml rd') ∧
    ws_deps rd' = Some (VTable Block [("foo", VStr "1.2")]) ∧
    (∀ k, k ≠ "workspace" → tget k rd' = tget k rd) ∧
    fs' !! m = Some (Toml (tset sec (VTable Block foo_bar_hoisted) md)).
Proof.
  intros Hrd Hmd Hm Hne Hall Hws Hsec Hfb Hother.
  set (root_toml := root ++ ["Cargo.toml"]) in *.
  assert (Hmem : remove_first root_toml (find_cargo_tomls root fs) = [m]).
  { apply NoDup_singleton_eq; [apply members_NoDup|]. intros x. split.
    - intros Hx. pose proof (members_found _ _ _ Hx) as [->| ->]%Hall; [|done].
      by apply root_not_member in Hx.
    - intros ->. by apply found_members. }
  pose proof (find_cargo_tomls_manifest _ _ _ Hm) as [Hmm _].
  pose proof (root_toml_manifest root) as Hrm. fold root_toml in Hrm.
  destruct (ensure_no_shared rd Hws) as (rd1 & Hens & Hws1 & Hk1).
  destruct (ws_insert_ok "foo" (VStr "1.2") rd1 Block [] Hws1) as (rd2 & Hins & Hws2 & Hk2).
  set (docs0 := <[m := md]> (<[root_toml := rd]> (∅ : gmap path table))).
  set (docs2 := <[m := tset sec (VTable Block foo_bar_hoisted) md]>
                  (<[root_toml := rd2]> (<[root_toml := rd1]> docs0))).
  assert (Hcompute : hoist_compute root_toml [root_toml; m] fs =
            inr ([("foo", [(sec, m, VStr "1.2")]);
                  ("bar", [(sec, m, VTable Inline [("path", VStr "../bar")])])],
                 docs2, Counts 1 1 1)).
  { unfold hoist_compute. cbn [parse_all]. rewrite Hrd. cbn [parse].
    rewrite Hmd. cbn [parse tail]. fold docs0.
    assert (doc_at docs0 m = md) as Hd0.
    { unfold doc_at, docs0. by rewrite lookup_insert_eq. }
    assert (doc_at docs0 root_toml = rd) as Hr0.
    { unfold doc_at, docs0. rewrite lookup_insert_ne by done.
      by rewrite lookup_insert_eq. }
    rewrite (collect_foo_bar docs0 m md sec Hd0 Hsec Hfb Hother), Hr0, Hens.
    rewrite !for_each_cons. unfold hoist_dep at 1.
    change (resolve [(sec, m, VStr "1.2")]) with (Some (VStr "1.2")). cbv iota.
    rewrite doc_at_insert, decide_True by done. rewrite Hws1.
    change (ws_contains "foo" (VTable Block [])) with (inr false : error + bool).
    cbv iota. rewrite Hins. rewrite for_each_cons. unfold mutate_occurrence.
    rewrite !doc_at_insert, !decide_False, Hd0, Hfb by done.
    change (thas "foo" foo_bar) with true. cbv iota.
    change (mutate_member_dep foo_bar "foo" (VStr "1.2")) with (Some foo_bar_hoisted).
    cbv iota. cbn [for_each]. fold docs2. unfold hoist_dep.
    change (resolve [(sec, m, VTable Inline [("path", VStr "../bar")])]) with (@None value).
    done. }
  assert (Hd2m : doc_at docs2 m = tset sec (VTable Block foo_bar_hoisted) md).
  { unfold doc_at, docs2. by rewrite lookup_insert_eq. }
  assert (Hd2r : doc_at docs2 root_toml = rd2).
  { unfold doc_at, docs2. rewrite lookup_insert_ne by done.
    by rewrite lookup_insert_eq. }
  unfold hoist. fold root_toml. rewrite Hrd, Hmem, Hcompute.
  rewrite bool_decide_true by done.
  destruct (backup_and_write_ok root clock docs2 root_toml fs [])
    as ([fs0 m0] & Eb); [by rewrite Hrd|].
  rewrite Eb.
  change (occurrence_paths _) with [m; m].
  assert (Hps : Forall is_manifest [m; m]) by (by repeat constructor).
  assert (Hfs0 : fs0 !! m = fs !! m).
  { apply (backup_and_write_frame _ _ _ _ _ _ _ _ m Hrm Eb).
    by apply distinct_manifests_dirs. }
  destruct (write_members_ok root clock docs2 root_toml [m; m] [] fs0 m0 Hps)
    as ([fs' m'] & Ew).
  { intros p [->|[->|?%elem_of_nil]%elem_of_cons]%elem_of_cons;
      try done; by rewrite Hfs0, Hmd. }
  rewrite Ew. exists fs', rd2, m'. split; [done|].
  pose proof (write_members_root root clock docs2 root_toml [m; m] [] fs0 m0 Hps Hrm)
    as Hroot.
  rewrite Ew in Hroot. simpl in Hroot.
  destruct (write_members_inl _ _ _ _ _ _ _ _ _ _ Hps Ew) as (_ & Hwr & _).
  destruct (Hwr m) as (Hm' & _).
  { split; [left|]. split; [apply not_elem_of_nil | done]. }
  split; [|split; [|split]].
  - rewrite Hroot.
    apply backup_and_write_inl in Eb as (c & _ & -> & _); [|done].
    by rewrite lookup_insert_eq, Hd2r.
  - done.
  - intros k Hk. by rewrite Hk2, Hk1.
  - by rewrite Hm', Hd2m.
Qed.

Lemma hoist_scenario_witness :
  let clock := λ _ : path, "20240101T000000Z" in
  let rd := [("package", VTable Block [("name", VStr "root")])] in
  let md := [("package", VTable Block [("name", VStr "member")]);
             ("dependencies", VTable Block foo_bar)] in
  let m := ["ws"; "member"; "Cargo.toml"] in
  ∃ fs' rd' backups,
    hoist ["ws"] false clock fs_scenario
      = (fs', inr (Report false (Counts 1 1 1) backups)) ∧
    fs' !! (["ws"] ++ ["Cargo.toml"]) = Some (Toml rd') ∧
    ws_deps rd' = Some (VTable Block [("foo", VStr "1.2")]) ∧
    (∀ k, k ≠ "workspace" → tget k rd' = tget k rd) ∧
    fs' !! m = Some (Toml (tset "dependencies" (VTable Block foo_bar_hoisted) md)).
Proof.
  intros clock rd md m.
  apply (hoist_scenario ["ws"] m clock fs_scenario rd md "dependencies").
  - by vm_compute.
  - by vm_compute.
  - vm_compute. right. left.
  - done.
  - assert (find_cargo_tomls ["ws"] fs_scenario = [["ws"; "Cargo.toml"]; m]) as ->
      by (by vm_compute).
    intros p [->|[->|?%elem_of_nil]%elem_of_cons]%elem_of_cons; auto. done.
  - by left.
  - left.
  - done.
  - intros s [->|[->|[->|?%elem_of_nil]%elem_of_cons]%elem_of_cons]%elem_of_cons Hs;
      done.
Defined.

Example hoist_scenario_run :
  let out := hoist ["ws"] false (λ _, "20240101T000000Z") fs_scenario in
  out.2 = inr (Report false (Counts 1 1 1)
                 [(["Cargo.toml"], "Cargo.toml.bak");
                  (["member"; "Cargo.toml"], "Cargo.toml.bak")]) ∧
  out.1 !! ["ws"; "Cargo.toml"] =
    Some (Toml [("package", VTable Block [("name", VStr "root")]);
                ("workspace",
                 VTable Block [("dependencies", VTable Block [("foo", VStr "1.2")])])]) ∧
  out.1 !! ["ws"; "member"; "Cargo.toml"] =
    Some (Toml [("package", VTable Block [("name", VStr "member")]);
                ("dependencies",
                 VTable Block
                   [("foo", VTable Inline [("workspace", VBool true)]);
                    ("bar", VTable Inline [("path", VStr "../bar")])])]).
Proof. by vm_compute. Qed.

(** ** Running [hoist] again *)

Lemma rw_spec_collected spec :
  table_with "workspace" (rw_spec spec) = false →
  rw_spec spec = spec ∧ extract_version spec = None ∧
  table_with "path" spec = false.
Proof.
  destruct spec as [| | | | |k f]; simpl; try done.
  unfold get_truthy. by rewrite tget_tset_eq.
Qed.

Lemma elem_of_rw_tbl sel tbl dep spec' :
  (dep, spec') ∈ rw_tbl sel tbl ↔
  ∃ spec, (dep, spec) ∈ tbl ∧
          spec' = if sel dep && negb (table_with "workspace" spec)
                  then rw_spec spec else spec.
Proof.
  unfold rw_tbl. rewrite list_elem_of_fmap. split.
  - intros ([k v] & [= -> ->] & Hin). eauto.
  - intros (spec & Hin & ->). by exists (dep, spec).
Qed.

(** A run in which every dependency is skipped touches nothing. *)
Lemma hoist_deps_all_skipped root_toml nd : ∀ docs c,
  (∀ dep occ, (dep, occ) ∈ nd → resolve occ = None) →
  for_each (hoist_dep root_toml) nd (docs, c) =
  inr (docs, Counts (added c) (updated c) (length nd + skipped c)).
Proof.
  induction nd as [|[dep occ] nd IH]; intros docs c H.
  { by destruct c. }
  rewrite for_each_cons. unfold hoist_dep at 1.
  rewrite (H dep occ) by left. rewrite IH by (intros d o Hin; apply (H d o); by right).
  simpl. do 3 f_equal. lia.
Qed.

Section second_run.
Variables (docs0 docs2 : gmap path table) (members members2 : list path).
Hypothesis members_same : ∀ p, p ∈ members2 ↔ p ∈ members.

(** [selR dep]: the first run resolved [dep]. *)
Let selR (dep : string) : bool :=
  bool_decide (is_Some (resolve (occs_of dep (all_occ docs0 members)))).

Hypothesis views2 : ∀ p sec, p ∈ members → sec ∈ SECTIONS →
  view docs2 p sec = rw_tbl selR <$> view docs0 p sec.

Lemma second_run_all_skipped dep occ :
  (dep, occ) ∈ collect docs2 members2 → resolve occ = None.
Proof.
  rewrite collect_group. intros Hin.
  destruct (group_spec (all_occ docs2 members2)) as (_ & _ & Hg).
  rewrite (Hg _ _ Hin). clear Hin Hg occ.
  assert (Hocc2 : ∀ sec p spec',
            (dep, (sec, p, spec')) ∈ all_occ docs2 members2 ↔
            p ∈ members ∧ sec ∈ SECTIONS ∧
            ∃ tbl spec, view docs0 p sec = Some tbl ∧ (dep, spec) ∈ tbl ∧
              spec' = (if selR dep && negb (table_with "workspace" spec)
                       then rw_spec spec else spec) ∧
              table_with "workspace" spec' = false).
  { intros sec p spec'. rewrite elem_of_all_occ, members_same. split.
    - intros (Hp & Hsec & tbl2 & Hv & Hin & Hw). split; [done|]. split; [done|].
      pose proof (views2 p sec Hp Hsec) as Hv2. unfold view in Hv2 at 1.
      rewrite Hv in Hv2. destruct (view docs0 p sec) as [tbl|]; [|done].
      simpl in Hv2. simplify_eq.
      apply elem_of_rw_tbl in Hin as (spec & Hin & ->). eauto 10.
    - intros (Hp & Hsec & tbl & spec & Hv & Hin & -> & Hw).
      split; [done|]. split; [done|].
      exists (rw_tbl selR tbl). split.
      + pose proof (views2 p sec Hp Hsec) as Hv2. by rewrite Hv in Hv2.
      + split; [|done]. apply elem_of_rw_tbl. eauto. }
  apply resolve_None_iff.
  destruct (resolve (occs_of dep (all_occ docs0 members))) as [v|] eqn:ER.
  - right. intros [[sec p] spec'] Ho%elem_of_occs_of. simpl.
    apply Hocc2 in Ho as (_ & _ & tbl & spec & _ & _ & -> & Hw).
    assert (selR dep = true) as Hs.
    { unfold selR. apply bool_decide_eq_true. rewrite ER. eauto. }
    rewrite Hs in *. simpl in *.
    destruct (table_with "workspace" spec) eqn:Ews; simpl in *; [congruence|].
    apply rw_spec_collected in Hw as (-> & ? & _). done.
  - assert (selR dep = false) as Hs.
    { unfold selR. apply bool_decide_eq_false. rewrite ER. by intros [? [=]]. }
    assert (Hsame : ∀ o, o ∈ occs_of dep (all_occ docs2 members2) ↔
                         o ∈ occs_of dep (all_occ docs0 members)).
    { intros [[sec p] spec']. rewrite !elem_of_occs_of, Hocc2, elem_of_all_occ.
      rewrite Hs. simpl. split.
      - intros (Hp & Hsec & tbl & spec & Hv & Hin & -> & Hw). eauto 10.
      - intros (Hp & Hsec & tbl & Hv & Hin & Hw). eauto 10. }
    apply resolve_None_iff in ER as [(o & Ho & Hp)|Hall].
    + left. exists o. split; [by apply Hsame | done].
    + right. intros o Ho%Hsame. by apply Hall.
Qed.

End second_run.

Lemma first_run_views docs0 members root_toml rd docs c :
  root_toml ∉ members → NoDup members →
  (∀ p sec tbl, p ∈ members → sec ∈ SECTIONS →
                view docs0 p sec = Some tbl → uniq_keys tbl) →
  for_each (hoist_dep root_toml) (collect docs0 members)
           (<[root_toml := rd]> docs0, Counts 0 0 0) = inr (docs, c) →
  ∀ p sec, p ∈ members → sec ∈ SECTIONS →
    view docs p sec =
    rw_tbl (λ dep, bool_decide
                     (is_Some (resolve (occs_of dep (all_occ docs0 members)))))
      <$> view docs0 p sec.
Proof.
  intros Hroot Hnd Hwf Hloop. rewrite collect_group in Hloop.
  destruct (group_spec (all_occ docs0 members)) as (Hkeys & Hk & Hg).
  destruct (hoist_loop docs0 members root_toml Hroot Hnd Hwf
              (group (all_occ docs0 members)) (<[root_toml := rd]> docs0)
              (Counts 0 0 0) [] docs c) as (done' & HI & Hmem & _).
  - apply Inv_root_insert; [done|]. intros p sec Hp Hsec.
    destruct (view docs0 p sec) as [tbl|]; [|done]. simpl. f_equal.
    rewrite <- (rw_tbl_none tbl) at 1. apply rw_tbl_ext.
    intros kv _ _. unfold sel_of. symmetry. apply bool_decide_eq_false.
    apply not_elem_of_nil.
  - done.
  - done.
  - by intros p sec dep ?%elem_of_nil.
  - done.
  - intros p sec Hp Hsec. rewrite (HI p sec Hp Hsec).
    destruct (view docs0 p sec) as [tbl|] eqn:Ev; [|done]. simpl. f_equal.
    apply rw_tbl_ext. intros [k v] Hin Hw. simpl. unfold sel_of.
    apply bool_decide_ext. rewrite Hmem. simpl.
    assert ((k, (sec, p, v)) ∈ all_occ docs0 members) as Hocc.
    { apply elem_of_all_occ. eauto 10. }
    split.
    + intros [?%elem_of_nil|(_ & Hr & _)]; done.
    + intros Hr. right. split; [|split; [done|]].
      * apply Hk. by apply (list_elem_of_fmap_2 fst) in Hocc.
      * by exists (sec, p, v).
Qed.

Lemma elem_of_remove_first_iff (x p : path) l :
  NoDup l → p ∈ remove_first x l ↔ p ∈ l ∧ p ≠ x.
Proof.
  intros Hnd. split.
  - intros Hp. split; [by eapply remove_first_subseteq|].
    intros ->. by apply (remove_first_NoDup x l Hnd) in Hp.
  - intros [? ?]. by apply elem_of_remove_first.
Qed.

(** C4.  On a tree whose dependency sections have distinct names, a
    [hoist] run that follows a completed, non-dry [hoist] run completes as
    well, dry or not, and reports [added = 0] and [updated = 0]: every
    dependency it still collects is skipped. *)
Theorem hoist_idempotent (root : path) (clock clock2 : path → string)
    (dry2 : bool) (fs fs1 : fsys) (rep : report) :
  wf_fs fs →
  hoist root false clock fs = (fs1, inr rep) →
  ∃ fs2 rep2,
    hoist root dry2 clock2 fs1 = (fs2, inr rep2) ∧
    added (rep_counts rep2) = 0 ∧ updated (rep_counts rep2) = 0.
Proof.
  intros Hwf Hrun.
  pose proof Hrun as (docs0 & rd & docs & Hparse & Hens & Hloop & Hrootf & Hmemf & Hframe)%hoist_disk.
  cbv zeta in *.
  set (root_toml := root ++ ["Cargo.toml"]) in *.
  set (members := remove_first root_toml (find_cargo_tomls root fs)) in *.
  pose proof (root_toml_manifest root) as Hrm. fold root_toml in Hrm.
  pose proof (members_NoDup root fs) as Hmnd. fold root_toml members in Hmnd.
  pose proof (root_not_member root fs) as Hrnm. fold root_toml members in Hrnm.
  assert (Hparsed : ∀ p, p ∈ root_toml :: members →
            ∃ d, fs !! p = Some (Toml d) ∧ doc_at docs0 p = d).
  { intros p Hp. destruct (parsed_docs root fs docs0 p Hparse Hp) as (d & ? & _ & ?).
    eauto. }
  assert (Hwf0 : ∀ p sec tbl, p ∈ members → sec ∈ SECTIONS →
            view docs0 p sec = Some tbl → uniq_keys tbl).
  { intros p sec tbl Hp Hsec Hv. destruct (Hparsed p) as (d & Hd & Hd0); [by right|].
    unfold view in Hv. rewrite Hd0 in Hv. by eapply Hwf. }
  pose proof (first_run_views docs0 members root_toml rd docs _ Hrnm Hmnd Hwf0 Hloop)
    as Hviews.
  set (selR := λ dep, bool_decide
                 (is_Some (resolve (occs_of dep (all_occ docs0 members))))) in *.
  (* the root manifest on disk *)
  assert (Hroot1 : ∃ rdisk rd2, fs1 !! root_toml = Some (Toml rdisk) ∧
                                ensure_workspace_deps rdisk = inr rd2).
  { destruct (Hparsed root_toml) as (d0 & Hd0 & Hdoc0); [left|].
    revert Hrootf. case_bool_decide.
    - intros (_ & Hr1 & _). exists (doc_at docs root_toml), (doc_at docs root_toml).
      split; [done|]. apply ensure_workspace_deps_fixed.
      apply ensure_workspace_deps_inr in Hens as (Hsome & _).
      apply hoist_deps_root in Hloop as [Hext _].
      + apply Hext. by rewrite doc_at_insert, decide_True.
      + intros dep occ o. apply collect_sections.
    - intros Hfr. exists d0, rd. rewrite Hfr by done. split; [done|].
      by rewrite <- Hdoc0. }
  (* the member manifests on disk *)
  assert (Hmem1 : ∀ p, p ∈ members →
            ∃ d2, fs1 !! p = Some (Toml d2) ∧
                  ∀ sec, sec ∈ SECTIONS →
                         as_block (tget sec d2) = rw_tbl selR <$> view docs0 p sec).
  { intros p Hp. destruct (Hparsed p) as (d & Hd & Hdoc0); [by right|].
    destruct (Hmemf p d Hp Hd) as [Hcol Hnot].
    destruct (decide (p ∈ occurrence_paths (collect docs0 members))) as [Hin|Hin].
    - apply (occurrence_paths_collected root fs docs0 p Hparse) in Hin
        as (_ & d' & Hd' & Hc). rewrite Hd in Hd'. simplify_eq.
      destruct (Hcol Hc) as (_ & Hp1 & _). exists (doc_at docs p).
      split; [done|]. intros sec Hsec. by apply Hviews.
    - assert (¬ has_collected d) as Hnc.
      { intros Hc. apply Hin.
        apply (occurrence_paths_collected root fs docs0 p Hparse). eauto. }
      destruct (Hnot Hnc) as (Hfr & _). exists d. split; [by rewrite Hfr|].
      intros sec Hsec. unfold view. rewrite Hdoc0.
      destruct (as_block (tget sec d)) as [tbl|] eqn:Et; [|done]. simpl. f_equal.
      rewrite <- (rw_tbl_none tbl) at 1. apply rw_tbl_ext.
      intros [k v] Hkv Hw. exfalso. apply Hnc. by exists sec, tbl, k, v. }
  (* the manifests of the second run *)
  assert (Hfind : ∀ p, p ∈ find_cargo_tomls root fs1 ↔ p ∈ find_cargo_tomls root fs).
  { apply find_cargo_tomls_agree. intros x Hx.
    destruct (decide (x = root_toml)) as [->|Hxr].
    { destruct Hroot1 as (? & ? & -> & _).
      destruct (Hparsed root_toml) as (? & -> & _); [left|]. split; eauto. }
    destruct (decide (x ∈ members)) as [Hxm|Hxm].
    { destruct (Hmem1 x Hxm) as (? & -> & _).
      destruct (Hparsed x) as (? & -> & _); [by right|]. split; eauto. }
    rewrite Hframe; [done| |].
    - by apply distinct_manifests_dirs.
    - intros p Hp. apply distinct_manifests_dirs; [done| |by intros ->].
      by eapply members_manifest. }
  set (members2 := remove_first root_toml (find_cargo_tomls root fs1)).
  assert (Hsame : ∀ p, p ∈ members2 ↔ p ∈ members).
  { intros p. unfold members2, members.
    rewrite !elem_of_remove_first_iff by apply NoDup_find_cargo_tomls.
    by rewrite Hfind. }
  destruct Hroot1 as (rdisk & rd2 & Hrdisk & Hens2).
  destruct (parse_all_ok fs1 (root_toml :: members2) ∅) as [docs2 Hparse2].
  { intros p [->|Hp%Hsame]%elem_of_cons; [eauto|].
    destruct (Hmem1 p Hp) as (d2 & ? & _). eauto. }
  assert (Hviews2 : ∀ p sec, p ∈ members → sec ∈ SECTIONS →
            view docs2 p sec = rw_tbl selR <$> view docs0 p sec).
  { intros p sec Hp Hsec. destruct (Hmem1 p Hp) as (d2 & Hd2 & Hv).
    destruct (parsed_docs root fs1 docs2 p Hparse2) as (d & Hd & _ & Hdoc).
    { right. by apply Hsame. }
    unfold view. rewrite Hdoc. rewrite Hd2 in Hd. simplify_eq. by apply Hv. }
  assert (Hroot2 : doc_at docs2 root_toml = rdisk).
  { destruct (parsed_docs root fs1 docs2 root_toml Hparse2) as (d & Hd & _ & Hdoc).
    { left. }
    rewrite Hdoc. congruence. }
  assert (Hcompute : hoist_compute root_toml (root_toml :: members2) fs1 =
            inr (collect docs2 members2, <[root_toml := rd2]> docs2,
                 Counts 0 0 (length (collect docs2 members2) + 0))).
  { unfold hoist_compute. rewrite Hparse2. cbn [tail]. rewrite Hroot2, Hens2.
    rewrite hoist_deps_all_skipped; [done|].
    intros dep occ. by apply (second_run_all_skipped docs0 docs2 members members2). }
  unfold hoist. fold root_toml. rewrite Hrdisk. fold members2. rewrite Hcompute.
  destruct dry2.
  { eexists _, _. split; [done|]. done. }
  rewrite bool_decide_false by (simpl; lia).
  destruct (write_members_ok root clock2 (<[root_toml := rd2]> docs2) root_toml
              (occurrence_paths (collect docs2 members2)) [] fs1 [])
    as ([fs2 m2] & Hw2).
  - apply Forall_forall. intros p Hp%occurrence_paths_members.
    by eapply members_manifest.
  - intros p Hp%occurrence_paths_members%Hsame.
    destruct (Hmem1 p Hp) as (d2 & -> & _). eauto.
  - rewrite Hw2. eexists _, _. split; [done|]. done.
Qed.

Lemma wf_fs_two_members : wf_fs fs_two_members.
Proof.
  intros p d sec tbl Hp Hsec Ht.
  unfold fs_two_members in Hp.
  repeat (apply lookup_insert_Some in Hp as [[_ Hp]|[_ Hp]]);
    [..|by rewrite lookup_empty in Hp];
    injection Hp as <-;
    repeat (apply elem_of_cons in Hsec as [->|Hsec]);
    try (by apply elem_of_nil in Hsec); simpl in Ht; simplify_eq;
    apply (bool_decide_unpack _); by vm_compute.
Qed.

Lemma hoist_idempotent_witness :
  let clock := λ _ : path, "20240101T000000Z" in
  let clock2 := λ _ : path, "20240102T000000Z" in
  let fs1 := (hoist ["ws"] false clock fs_two_members).1 in
  let rep := Report false (Counts 1 2 1)
               [(["Cargo.toml"], "Cargo.toml.bak");
                (["a"; "Cargo.toml"], "Cargo.toml.bak");
                (["b"; "Cargo.toml"], "Cargo.toml.bak")] in
  wf_fs fs_two_members ∧
  hoist ["ws"] false clock fs_two_members = (fs1, inr rep) ∧
  ∃ fs2 rep2,
    hoist ["ws"] false clock2 fs1 = (fs2, inr rep2) ∧
    added (rep_counts rep2) = 0 ∧ updated (rep_counts rep2) = 0.
Proof.
  intros clock clock2 fs1 rep.
  assert (Hrun : hoist ["ws"] false clock fs_two_members = (fs1, inr rep))
    by (vm_compute; reflexivity).
  split; [exact wf_fs_two_members|]. split; [exact Hrun|].
  exact (hoist_idempotent ["ws"] clock clock2 false fs_two_members fs1 rep
           wf_fs_two_members Hrun).
Defined.

Example hoist_twice :
  let fs1 := (hoist ["ws"] false (λ _, "20240101T000000Z") fs_two_members).1 in
  (hoist ["ws"] false (λ _, "20240102T000000Z") fs1).2 =
  inr (Report false (Counts 0 0 1) [(["a"; "Cargo.toml"], "Cargo.toml.20240102T000000Z.bak")]).
Proof. by vm_compute. Qed.

(** * Further properties *)

(** ** Discovery order *)

Lemma compare_refl (a : string) : String.compare a a = Eq.
Proof.
  destruct (String.compare a a) eqn:E; [done| |];
    pose proof (String.compare_antisym a a) as H; rewrite E in H; done.
Qed.

Lemma compare_lt_trans (a b c : string) :
  String.compare a b = Lt → String.compare b c = Lt → String.compare a c = Lt.
Proof.
  intros Hab Hbc.
  assert (String.leb a c = true) as Hle.
  { apply (leb_trans a b c); unfold String.leb; by rewrite ?Hab, ?Hbc. }
  unfold String.leb in Hle. destruct (String.compare a c) eqn:E; [|done..].
  apply String.compare_eq_iff in E as ->.
  rewrite String.compare_antisym, Hbc in Hab. done.
Qed.

Lemma path_leb_total (p q : path) : path_leb p q = false → path_leb q p = true.
Proof.
  revert q. induction p as [|a p IH]; intros [|b q]; simpl; try done.
  rewrite (String.compare_antisym b a).
  destruct (String.compare a b); simpl; auto.
Qed.

Lemma path_leb_trans (p q r : path) :
  path_leb p q = true → path_leb q r = true → path_leb p r = true.
Proof.
  revert q r. induction p as [|a p IH]; intros [|b q] [|c r]; simpl; try done.
  destruct (String.compare a b) eqn:Eab; [|clear IH|done].
  - apply String.compare_eq_iff in Eab as ->.
    destruct (String.compare b c); [apply IH|done..].
  - destruct (String.compare b c) eqn:Ebc; [| |done].
    + apply String.compare_eq_iff in Ebc as ->. by rewrite Eab.
    + intros _ _. by rewrite (compare_lt_trans a b c).
Qed.

Lemma path_leb_antisym (p q : path) :
  path_leb p q = true → path_leb q p = true → p = q.
Proof.
  revert q. induction p as [|a p IH]; intros [|b q]; simpl; try done.
  rewrite (String.compare_antisym b a).
  destruct (String.compare a b) eqn:E; simpl; try done.
  apply String.compare_eq_iff in E as ->. intros ? ?. f_equal. auto.
Qed.

Lemma StronglySorted_NoDup_strict {A} (R : relation A) (l : list A) :
  StronglySorted R l → NoDup l → StronglySorted (λ a b, R a b ∧ a ≠ b) l.
Proof.
  induction 1 as [|x l Hl IH Hx]; [constructor|].
  intros [Hxl Hnd]%NoDup_cons. constructor; [auto|].
  rewrite Forall_forall in *. intros y Hy. split; [auto|]. by intros ->.
Qed.

Lemma ignored_false (p : path) : ignored p = false ↔ ∀ c, c ∈ p → c ∉ IGNORES.
Proof.
  unfold ignored. induction p as [|a p IH]; simpl.
  - split; [by intros _ c ?%elem_of_nil | done].
  - rewrite orb_false_iff, IH, bool_decide_eq_false. split.
    + intros [Ha Hp] c [->|Hc]%elem_of_cons; auto.
    + intros H. split; [apply H; left | intros c Hc; apply H; by right].
Qed.

Lemma ignored_app (p q : path) : ignored (p ++ q) = ignored p || ignored q.
Proof. unfold ignored. apply existsb_app. Qed.

Lemma rglob_named_spec n root p :
  rglob_named n root p = true ↔ ∃ d, p = root ++ d ++ [n].
Proof.
  unfold rglob_named. rewrite !andb_true_iff, negb_true_iff.
  rewrite !bool_decide_eq_true, bool_decide_eq_false. split.
  - intros [[[k ->] Hne] Hl].
    destruct k as [|x k _] using rev_ind; [by rewrite app_nil_r in Hne|].
    rewrite app_assoc, last_snoc in Hl. injection Hl as ->. by exists k.
  - intros [d ->]. split; [split|].
    + by eexists.
    + intros E. apply (f_equal length) in E. rewrite !length_app in E. simpl in E. lia.
    + by rewrite app_assoc, last_snoc.
Qed.

Lemma rglob_match_named root p : rglob_match root p = rglob_named "Cargo.toml" root p.
Proof. done. Qed.

(** X1.  [find_cargo_tomls] returns exactly the files named [Cargo.toml]
    that lie below [root] and have no ignored name among their components,
    those of [root] included; each is listed once, in increasing path
    order. *)
Theorem find_cargo_tomls_spec (root : path) (fs : fsys) :
  (∀ p, p ∈ find_cargo_tomls root fs ↔
        is_Some (fs !! p) ∧ (∃ d, p = root ++ d ++ ["Cargo.toml"]) ∧
        ∀ c, c ∈ p → c ∉ IGNORES) ∧
  StronglySorted (λ p q, path_leb p q = true ∧ p ≠ q) (find_cargo_tomls root fs).
Proof.
  split.
  - intros p. rewrite elem_of_find_cargo_tomls, rglob_match_named.
    by rewrite rglob_named_spec, ignored_false.
  - apply StronglySorted_NoDup_strict; [|apply NoDup_find_cargo_tomls].
    apply sorted_by_sorted; [apply path_leb_total | apply path_leb_trans].
Qed.

(** ** Restoring backups *)

Lemma last_first_backup (x : path) : last (first_backup x) = Some "Cargo.toml.bak".
Proof. apply last_with_name. Qed.

Lemma first_backup_not_manifest (x : path) : ¬ is_manifest (first_backup x).
Proof. unfold is_manifest. by rewrite last_first_backup. Qed.

Lemma first_backup_orig (x : path) :
  is_manifest x → with_name (first_backup x) "Cargo.toml" = x.
Proof.
  intros Hx. unfold first_backup, with_name. rewrite removelast_last.
  symmetry. by apply manifest_split.
Qed.

Lemma orig_manifest (b : path) : is_manifest (with_name b "Cargo.toml").
Proof. apply last_with_name. Qed.

Lemma orig_first_backup (b : path) :
  last b = Some "Cargo.toml.bak" → first_backup (with_name b "Cargo.toml") = b.
Proof.
  intros (l & ->)%last_Some. unfold first_backup, with_name.
  by rewrite !removelast_last.
Qed.

Lemma first_backup_inj (x y : path) :
  is_manifest x → is_manifest y → first_backup x = first_backup y → x = y.
Proof.
  intros Hx Hy E. rewrite <- (first_backup_orig x Hx), <- (first_backup_orig y Hy).
  by rewrite E.
Qed.

Lemma elem_of_find_backups root fs p :
  p ∈ find_backups root fs ↔
  is_Some (fs !! p) ∧ rglob_named "Cargo.toml.bak" root p = true.
Proof.
  unfold find_backups. rewrite sorted_by_perm, list_elem_of_filter.
  rewrite list_elem_of_fmap. split.
  - intros [H ([p' c] & -> & Hin%elem_of_map_to_list)]. simpl in *. eauto.
  - intros ([c Hc] & H). split; [done|]. exists (p, c).
    split; [done | by apply elem_of_map_to_list].
Qed.

Lemma NoDup_find_backups root fs : NoDup (find_backups root fs).
Proof.
  unfold find_backups. rewrite sorted_by_perm.
  apply NoDup_filter, NoDup_fst_map_to_list.
Qed.

Lemma find_backups_named root fs :
  Forall (λ b, last b = Some "Cargo.toml.bak") (find_backups root fs).
Proof.
  apply Forall_forall. intros b [_ (d & ->)%rglob_named_spec]%elem_of_find_backups.
  by rewrite app_assoc, last_snoc.
Qed.

Lemma ignored_with_name (p : path) (n : string) :
  n ∉ IGNORES → ignored (with_name p n) = ignored (dir p).
Proof.
  intros Hn. unfold with_name, dir. rewrite ignored_app. simpl.
  rewrite bool_decide_false by done. by rewrite !orb_false_r.
Qed.

Lemma ignored_first_backup (x : path) :
  is_manifest x → ignored (first_backup x) = ignored x.
Proof.
  intros Hx. unfold first_backup. rewrite ignored_with_name.
  - rewrite (manifest_split x Hx) at 2. rewrite ignored_app. simpl.
    by rewrite orb_false_r.
  - by apply (bool_decide_unpack _).
Qed.

(** The manifests a backup of which [restore] copies back. *)
Lemma restorable_found root fs x :
  is_manifest x ∧ is_Some (fs !! x) ∧ first_backup x ∈ find_backups root fs ∧
  ignored (first_backup x) = false ↔
  x ∈ find_cargo_tomls root fs ∧ is_Some (fs !! first_backup x).
Proof.
  rewrite elem_of_find_backups, elem_of_find_cargo_tomls, rglob_match_named.
  rewrite !rglob_named_spec. split.
  - intros (Hx & Hs & [Hb (d & E)] & Hi). rewrite ignored_first_backup in Hi by done.
    split; [|done]. split; [done|]. split; [|done]. exists d.
    rewrite <- (first_backup_orig x Hx), E. unfold with_name.
    by rewrite !app_assoc, removelast_last.
  - intros [(Hs & (d & E) & Hi) Hb].
    assert (is_manifest x) as Hx.
    { unfold is_manifest. by rewrite E, app_assoc, last_snoc. }
    rewrite ignored_first_backup by done.
    split; [done|]. split; [done|]. split; [|done]. split; [done|].
    exists d. unfold first_backup, with_name. rewrite E.
    by rewrite !app_assoc, removelast_last.
Qed.

Section restore_files.
Variable root : path.

(** [hit baks fs x]: the loop over [baks] copies a backup over [x]. *)
Let hit (baks : list path) (fs : fsys) (x : path) : Prop :=
  is_manifest x ∧ is_Some (fs !! x) ∧ first_backup x ∈ baks ∧
  ignored (first_backup x) = false.

Lemma restore_files_run baks : ∀ fs restored skips,
  NoDup baks → Forall (λ b, last b = Some "Cargo.toml.bak") baks →
  (∀ b, b ∈ baks → is_Some (fs !! b)) →
  ∃ fs' out,
    restore_files root false baks fs restored skips = (fs', inr out) ∧
    ∀ x, (hit baks fs x → fs' !! x = fs !! first_backup x) ∧
         (¬ hit baks fs x → fs' !! x = fs !! x).
Proof.
  induction baks as [|bak baks IH]; intros fs restored skips Hnd Hnm Hex.
  { eexists _, _. split; [done|]. intros x. split; [|done].
    by intros (_ & _ & ?%elem_of_nil & _). }
  apply NoDup_cons in Hnd as [Hbak Hnd]. apply Forall_cons in Hnm as [Hb Hnm].
  assert (Hex' : ∀ b, b ∈ baks → is_Some (fs !! b)) by (intros; apply Hex; by right).
  pose proof (orig_manifest bak) as Hom.
  pose proof (orig_first_backup bak Hb) as Hfb.
  set (orig := with_name bak "Cargo.toml") in *.
  assert (Hother : ∀ x, is_manifest x → first_backup x = bak → x = orig).
  { intros x Hx E. apply first_backup_inj; [done..|]. by rewrite Hfb. }
  simpl. fold orig. destruct (ignored bak) eqn:Ei.
  { destruct (IH fs restored skips Hnd Hnm Hex') as (fs' & out & -> & H).
    exists fs', out. split; [done|]. intros x. destruct (H x) as [H1 H2]. split.
    - intros (Hx & Hs & [E|Hin]%elem_of_cons & Hi); [congruence|]. by apply H1.
    - intros Hn. apply H2. intros (Hx & Hs & Hin & Hi). apply Hn.
      split; [done|]. split; [done|]. split; [by right | done]. }
  destruct (fs !! orig) as [c0|] eqn:Eo.
  - destruct (Hex bak) as [c Hc]; [left|]. unfold copy2. rewrite Hc.
    assert (Hne : ∀ b, last b = Some "Cargo.toml.bak" → orig ≠ b).
    { intros b Hl E. rewrite <- E in Hl. unfold is_manifest in Hom. congruence. }
    destruct (IH (<[orig := c]> fs) (restored ++ [(drop (length root) orig, name bak)])
                skips Hnd Hnm) as (fs' & out & -> & H).
    { intros b Hin. rewrite lookup_insert_ne; [by apply Hex'|].
      apply Hne. by eapply Forall_forall in Hnm. }
    exists fs', out. split; [done|]. intros x. destruct (H x) as [H1 H2].
    assert (Hfbx : <[orig := c]> fs !! first_backup x = fs !! first_backup x).
    { apply lookup_insert_ne, Hne, last_first_backup. }
    destruct (decide (x = orig)) as [->|Hxo].
    + split; [|intros Hn; destruct Hn; split; [done|]; split; [eauto|];
                split; [rewrite Hfb; left | by rewrite Hfb]].
      intros _. rewrite H2; [by rewrite lookup_insert_eq, Hfb|].
      intros (_ & _ & Hin & _). rewrite Hfb in Hin. done.
    + assert (Hiff : hit baks (<[orig := c]> fs) x ↔ hit (bak :: baks) fs x).
      { unfold hit. rewrite lookup_insert_ne by done. rewrite elem_of_cons. split.
        - intros (? & ? & ? & ?). auto.
        - intros (Hx & ? & [E|?] & ?); [|done]. by destruct Hxo; apply Hother. }
      split.
      * intros Hh%Hiff. by rewrite H1, Hfbx.
      * intros Hn. rewrite H2; [by apply lookup_insert_ne|]. by rewrite Hiff.
  - destruct (IH fs restored (skips ++ [drop (length root) bak]) Hnd Hnm Hex')
      as (fs' & out & -> & H).
    exists fs', out. split; [done|]. intros x. destruct (H x) as [H1 H2]. split.
    + intros (Hx & [c Hs] & [E|Hin]%elem_of_cons & Hi).
      * rewrite (Hother x Hx E) in Hs. congruence.
      * apply H1. split; [done|]. split; [eauto|]. done.
    + intros Hn. apply H2. intros (Hx & Hs & Hin & Hi). apply Hn.
      split; [done|]. split; [done|]. split; [by right | done].
Qed.

(** The lists a run reports depend only on which files exist. *)
Lemma restore_files_preview baks : ∀ fsa fsb restored skips,
  Forall (λ b, last b = Some "Cargo.toml.bak") baks →
  (∀ x, is_Some (fsa !! x) ↔ is_Some (fsb !! x)) →
  (∀ b, b ∈ baks → is_Some (fsb !! b)) →
  ∃ fs' out,
    restore_files root true baks fsa restored skips = (fsa, inr out) ∧
    restore_files root false baks fsb restored skips = (fs', inr out).
Proof.
  induction baks as [|bak baks IH]; intros fsa fsb restored skips Hnm Hag Hex.
  { by eexists _, _. }
  apply Forall_cons in Hnm as [Hb Hnm].
  assert (Hex' : ∀ b, b ∈ baks → is_Some (fsb !! b)) by (intros; apply Hex; by right).
  simpl. destruct (ignored bak); [by apply IH|].
  pose proof (Hag (with_name bak "Cargo.toml")) as Ho.
  destruct (fsa !! with_name bak "Cargo.toml") as [ca|] eqn:Ea;
    destruct (fsb !! with_name bak "Cargo.toml") as [cb|] eqn:Eb.
  - destruct (Hex bak) as [c Hc]; [left|]. unfold copy2. rewrite Hc.
    apply IH; [done| |].
    + intros x. rewrite Hag. destruct (decide (with_name bak "Cargo.toml" = x)) as [<-|].
      * rewrite lookup_insert_eq, Eb. split; eauto.
      * by rewrite lookup_insert_ne.
    + intros b Hin. rewrite lookup_insert_ne; [by apply Hex'|].
      intros E. eapply Forall_forall in Hnm; [|done]. rewrite <- E in Hnm.
      by rewrite last_with_name in Hnm.
  - exfalso. destruct Ho as [Ho _]. by destruct Ho.
  - exfalso. destruct Ho as [_ Ho]. by destruct Ho.
  - by apply IH.
Qed.

End restore_files.

(** What a [restore] run that is not dry leaves on disk. *)
Lemma restore_disk (root : path) (fs : fsys) :
  let out := restore root false fs in
  (∃ res, out.2 = inr res) ∧
  ∀ x, (x ∈ find_cargo_tomls root fs → is_Some (fs !! first_backup x) →
          out.1 !! x = fs !! first_backup x) ∧
       (¬ (x ∈ find_cargo_tomls root fs ∧ is_Some (fs !! first_backup x)) →
          out.1 !! x = fs !! x).
Proof.
  cbv zeta. unfold restore.
  destruct (restore_files_run root (find_backups root fs) fs [] [])
    as (fs' & [restored skips] & Hrun & H).
  { apply NoDup_find_backups. }
  { apply find_backups_named. }
  { by intros b [? _]%elem_of_find_backups. }
  assert (Hchar : ∀ x,
    (x ∈ find_cargo_tomls root fs → is_Some (fs !! first_backup x) →
       fs' !! x = fs !! first_backup x) ∧
    (¬ (x ∈ find_cargo_tomls root fs ∧ is_Some (fs !! first_backup x)) →
       fs' !! x = fs !! x)).
  { intros x. destruct (H x) as [H1 H2]. split.
    - intros Hx Hb. apply H1. by apply restorable_found.
    - intros Hn. apply H2. intros Hh. apply Hn. by apply restorable_found. }
  destruct (find_backups root fs) as [|b baks] eqn:Ef.
  - simpl in Hrun. injection Hrun as <- _. simpl. split; [eauto|]. done.
  - rewrite Hrun. simpl. split; [eauto|]. done.
Qed.

(** X2.  A [restore] run that is not dry never fails.  It gives every
    discovered manifest next to which a [Cargo.toml.bak] lies the content of
    that backup; every other file, the backups included, keeps its content,
    and no file is created or removed: a manifest that has been deleted is
    not brought back, and a backup with a time stamp in its name is never
    used. *)
Theorem restore_resets_manifests (root : path) (fs : fsys) :
  let out := restore root false fs in
  (∃ res, out.2 = inr res) ∧
  (∀ x, x ∈ find_cargo_tomls root fs → is_Some (fs !! first_backup x) →
        out.1 !! x = fs !! first_backup x) ∧
  (∀ x, ¬ (x ∈ find_cargo_tomls root fs ∧ is_Some (fs !! first_backup x)) →
        out.1 !! x = fs !! x) ∧
  (∀ x, is_Some (out.1 !! x) ↔ is_Some (fs !! x)).
Proof.
  destruct (restore_disk root fs) as [Hres H]. cbv zeta in *.
  split; [done|]. split; [intros x; apply H|]. split; [intros x; apply H|].
  intros x. destruct (H x) as [H1 H2].
  destruct (decide (x ∈ find_cargo_tomls root fs)) as [Hx|Hx].
  - destruct (decide (is_Some (fs !! first_backup x))) as [Hb|Hb].
    + rewrite H1 by done. apply find_cargo_tomls_manifest in Hx as [_ Hs].
      tauto.
    + rewrite H2; [done|]. tauto.
  - rewrite H2; [done|]. tauto.
Qed.

Lemma sorted_paths_unique (l1 l2 : list path) :
  NoDup l1 → NoDup l2 → (∀ x, x ∈ l1 ↔ x ∈ l2) →
  StronglySorted (λ p q, path_leb p q = true) l1 →
  StronglySorted (λ p q, path_leb p q = true) l2 → l1 = l2.
Proof.
  intros H1 H2 Hiff S1 S2.
  apply (StronglySorted_unique_strong (λ p q, path_leb p q = true)); [|done..|].
  - intros p q _ _. apply path_leb_antisym.
  - by apply NoDup_Permutation.
Qed.

Lemma find_backups_ext root fs fs1 :
  (∀ x, is_Some (fs1 !! x) ↔ is_Some (fs !! x)) →
  find_backups root fs1 = find_backups root fs.
Proof.
  intros H. apply sorted_paths_unique; try apply NoDup_find_backups.
  - intros x. by rewrite !elem_of_find_backups, H.
  - apply sorted_by_sorted; [apply path_leb_total | apply path_leb_trans].
  - apply sorted_by_sorted; [apply path_leb_total | apply path_leb_trans].
Qed.

Lemma find_cargo_tomls_ext root fs fs1 :
  (∀ x, is_manifest x → is_Some (fs1 !! x) ↔ is_Some (fs !! x)) →
  find_cargo_tomls root fs1 = find_cargo_tomls root fs.
Proof.
  intros H. apply sorted_paths_unique; try apply NoDup_find_cargo_tomls.
  - by apply find_cargo_tomls_agree.
  - apply sorted_by_sorted; [apply path_leb_total | apply path_leb_trans].
  - apply sorted_by_sorted; [apply path_leb_total | apply path_leb_trans].
Qed.

Lemma restore_files_found root fs0 fs restored skips :
  (∀ b, b ∈ find_backups root fs0 → is_Some (fs !! b)) →
  (∀ x, is_Some (fs0 !! x) ↔ is_Some (fs !! x)) →
  ∃ fs' out,
    restore_files root true (find_backups root fs0) fs0 restored skips
      = (fs0, inr out) ∧
    restore_files root false (find_backups root fs0) fs restored skips
      = (fs', inr out).
Proof.
  intros Hex Hag. apply restore_files_preview; [apply find_backups_named|done..].
Qed.

Lemma restore_dry_disk (root : path) (fs : fsys) : (restore root true fs).1 = fs.
Proof.
  unfold restore.
  destruct (restore_files_found root fs fs [] [])
    as (fs' & [restored skips] & Hdry & _).
  { by intros b [? _]%elem_of_find_backups. }
  { done. }
  destruct (find_backups root fs) as [|b baks]; [done|]. by rewrite Hdry.
Qed.

(** X3.  A dry run of [restore] changes no file and announces exactly what
    the real run does: both find no backup at all, or both report the same
    restored manifests and the same skipped backups. *)
Theorem restore_dry_run_previews (root : path) (fs : fsys) :
  (restore root true fs).1 = fs ∧
  (((restore root true fs).2 = inr NoBackups ∧
    (restore root false fs).2 = inr NoBackups) ∨
   ∃ restored skips,
     (restore root true fs).2 =
       inr (RestoreDone (RestoreReport true restored skips)) ∧
     (restore root false fs).2 =
       inr (RestoreDone (RestoreReport false restored skips))).
Proof.
  unfold restore.
  destruct (restore_files_found root fs fs [] [])
    as (fs' & [restored skips] & Hdry & Hrun).
  { by intros b [? _]%elem_of_find_backups. }
  { done. }
  destruct (find_backups root fs) as [|b baks]; [by split; [|left]|].
  rewrite Hdry, Hrun. simpl. split; [done|]. right. by exists restored, skips.
Qed.

(** X4.  Restoring twice is restoring once: a second [restore] run leaves
    the file system as the first run left it and reports the same. *)
Theorem restore_idempotent (root : path) (fs : fsys) :
  let out := restore root false fs in
  restore root false out.1 = out.
Proof.
  cbv zeta. unfold restore.
  destruct (restore_files_run root (find_backups root fs) fs [] [])
    as (fs1 & out1 & Hrun & H).
  { apply NoDup_find_backups. }
  { apply find_backups_named. }
  { by intros b [? _]%elem_of_find_backups. }
  destruct (find_backups root fs) as [|b0 baks0] eqn:Ef.
  { simpl. by rewrite Ef. }
  rewrite Hrun. destruct out1 as [restored skips]. cbn [fst snd].
  assert (Hdec : ∀ x, (x ∈ find_cargo_tomls root fs ∧ is_Some (fs !! first_backup x)) ∨
                      ¬ (x ∈ find_cargo_tomls root fs ∧ is_Some (fs !! first_backup x))).
  { intros x. destruct (decide (x ∈ find_cargo_tomls root fs)); [|right; tauto].
    destruct (fs !! first_backup x); [left; eauto | right].
    intros [_ [? [=]]]. }
  assert (Hchar : ∀ x,
    (x ∈ find_cargo_tomls root fs ∧ is_Some (fs !! first_backup x) →
       fs1 !! x = fs !! first_backup x) ∧
    (¬ (x ∈ find_cargo_tomls root fs ∧ is_Some (fs !! first_backup x)) →
       fs1 !! x = fs !! x)).
  { intros x. destruct (H x) as [H1 H2]. rewrite <- Ef in H1, H2. split.
    - intros Hx. apply H1. by apply restorable_found.
    - intros Hn. apply H2. intros Hh. apply Hn. by apply restorable_found. }
  assert (Hex : ∀ x, is_Some (fs1 !! x) ↔ is_Some (fs !! x)).
  { intros x. destruct (Hchar x) as [H1 H2]. destruct (Hdec x) as [Hx|Hx].
    - rewrite (H1 Hx). destruct Hx as [Hx Hb].
      apply find_cargo_tomls_manifest in Hx as [_ Hs]. tauto.
    - by rewrite (H2 Hx). }
  assert (Hbak : ∀ x, fs1 !! first_backup x = fs !! first_backup x).
  { intros x. apply Hchar. intros [Hm%find_cargo_tomls_manifest _].
    destruct Hm as [Hm _]. by apply first_backup_not_manifest in Hm. }
  rewrite (find_backups_ext root fs fs1 Hex), Ef. rewrite <- Ef.
  destruct (restore_files_run root (find_backups root fs) fs1 [] [])
    as (fs2 & out2 & Hrun2 & H2).
  { apply NoDup_find_backups. }
  { apply find_backups_named. }
  { intros b [? _]%elem_of_find_backups. by apply Hex. }
  rewrite Hrun2. destruct out2 as [restored2 skips2].
  destruct (restore_files_found root fs fs [] [])
    as (fsa & outa & Hdry & Hrun').
  { by intros b [? _]%elem_of_find_backups. }
  { done. }
  destruct (restore_files_found root fs fs1 [] [])
    as (fsb & outb & Hdry' & Hrunb).
  { intros b [? _]%elem_of_find_backups. by apply Hex. }
  { intros x. by rewrite Hex. }
  rewrite Ef in Hrun'. rewrite Hrun in Hrun'. rewrite Hdry in Hdry'.
  rewrite Hrun2 in Hrunb. simplify_eq. f_equal.
  apply map_eq. intros x. destruct (H2 x) as [Ha Hb].
  destruct (Hdec x) as [Hx|Hx].
  - rewrite Ha.
    + rewrite Hbak. symmetry. by apply Hchar.
    + apply restorable_found in Hx as (? & ? & ? & ?).
      split; [done|]. split; [by apply Hex|]. done.
  - apply Hb. intros (Hm & Hs & Hin & Hi). apply Hx. apply restorable_found.
    split; [done|]. split; [by apply Hex|]. done.
Qed.

Lemma restore_files_ignored root dry baks fs restored skips :
  Forall (λ b, ignored b = true) baks →
  restore_files root dry baks fs restored skips = (fs, inr (restored, skips)).
Proof.
  induction 1 as [|b baks Hb _ IH]; simpl; [done|]. by rewrite Hb.
Qed.

Lemma ignored_below root d : ignored root = true → ignored (root ++ d) = true.
Proof. intros H. by rewrite ignored_app, H. Qed.

Lemma find_cargo_tomls_ignored root fs :
  ignored root = true → find_cargo_tomls root fs = [].
Proof.
  intros Hi. destruct (find_cargo_tomls root fs) as [|p l] eqn:E; [done|].
  assert (p ∈ find_cargo_tomls root fs) as Hp by (rewrite E; left).
  apply elem_of_find_cargo_tomls in Hp as (_ & Hm & Hn).
  rewrite rglob_match_named in Hm. apply rglob_named_spec in Hm as [d ->].
  rewrite ignored_below in Hn; done.
Qed.

(** X5.  The ignored names are looked for among all components of a path,
    those of [root] included.  When a component of [root] itself is an
    ignored name, no manifest is discovered: [sort] reports 0 files,
    [hoist] collects nothing from the members and writes nothing,
    [restore] restores nothing, and the file system stays as it is. *)
Theorem ignored_root_finds_nothing (root : path) (dry_run : bool)
    (clock : path → string) (fs : fsys) :
  ignored root = true →
  find_cargo_tomls root fs = [] ∧
  sort root dry_run clock fs = (fs, inr 0) ∧
  (∃ r, hoist root dry_run clock fs = (fs, r) ∧
        ∀ rep, r = inr rep → rep = Report dry_run (Counts 0 0 0) []) ∧
  (∃ r, restore root dry_run fs = (fs, r) ∧
        ∀ rr, r = inr (RestoreDone rr) → rr = RestoreReport dry_run [] []).
Proof.
  intros Hi. pose proof (find_cargo_tomls_ignored root fs Hi) as Hf.
  split; [done|]. split; [|split].
  - unfold sort. by rewrite Hf.
  - unfold hoist. rewrite Hf. cbn [remove_first].
    destruct (fs !! (root ++ ["Cargo.toml"])) as [c0|]; [|by eexists; split; [done|]].
    destruct (hoist_compute _ _ fs) as [e|[[needed docs] c]] eqn:Ec.
    { by eexists; split; [done|]. }
    apply hoist_compute_inr in Ec as (docs0 & rd & _ & -> & _ & Hloop).
    simpl in Hloop. injection Hloop as <- <-. simpl.
    destruct dry_run; eexists; (split; [done|]); by intros rep [= <-].
  - unfold restore.
    assert (Hall : Forall (λ b, ignored b = true) (find_backups root fs)).
    { apply Forall_forall.
      intros b [_ [d ->]%rglob_named_spec]%elem_of_find_backups.
      by apply ignored_below. }
    destruct (find_backups root fs) as [|b baks].
    { eexists. split; [done|]. by intros rr [=]. }
    rewrite restore_files_ignored by done.
    eexists. split; [done|]. by intros rr [= <-].
Qed.

Lemma ignored_root_finds_nothing_witness :
  let clock := λ _ : path, "20240101T000000Z" in
  let root := ["vendor"; "ws"] in
  ignored root = true ∧
  find_cargo_tomls root fs_vendored = [] ∧
  sort root false clock fs_vendored = (fs_vendored, inr 0) ∧
  (∃ r, hoist root false clock fs_vendored = (fs_vendored, r) ∧
        ∀ rep, r = inr rep → rep = Report false (Counts 0 0 0) []) ∧
  (∃ r, restore root false fs_vendored = (fs_vendored, r) ∧
        ∀ rr, r = inr (RestoreDone rr) → rr = RestoreReport false [] []).
Proof.
  intros clock root. split; [reflexivity|].
  apply (ignored_root_finds_nothing root false clock fs_vendored).
  reflexivity.
Defined.

(** ** The writes of a command *)

Lemma sort_file_step dry clock p fs fs2 r :
  is_manifest p → sort_file dry clock p fs = (fs2, r) → step_of clock fs fs2 p.
Proof.
  intros Hp [(_ & -> & _)|(c & Hc & H)]%sort_file_inv; [by left| |done].
  right. exists c. split; [done|]. simpl in H.
  destruct (parse c) as [doc|]; [|left; by destruct H].
  destruct (sort_doc doc) as [e|[doc' m]]; [left; by destruct H|].
  destruct H as [_ ->]. destruct (m && negb dry); [right; by eexists | by left].
Qed.

Lemma run_idle clock fs ps : Forall is_manifest ps → run clock fs ps fs.
Proof.
  induction 1 as [|p ps Hp _ IH]; [constructor|].
  by apply (run_cons clock fs p fs); [|left|].
Qed.

Lemma sort_files_trace dry clock l fs n fs' r :
  Forall is_manifest l →
  sort_files dry clock l fs n = (fs', r) → run clock fs l fs'.
Proof.
  intros Hl. revert fs n. induction Hl as [|p l Hp Hl IH]; intros fs n; simpl.
  { intros [= <- _]. constructor. }
  destruct (sort_file dry clock p fs) as [fs2 [e|md]] eqn:E.
  - intros [= <- _]. apply (run_cons clock fs p fs2); [done| |by apply run_idle].
    by eapply sort_file_step.
  - intros H. apply (run_cons clock fs p fs2); [done| |by eapply IH].
    by eapply sort_file_step.
Qed.

Lemma backup_and_write_step root clock docs p fs m :
  is_manifest p →
  step_of clock fs (reached (backup_and_write root clock docs p (fs, m))) p.
Proof.
  intros Hp.
  destruct (backup_and_write root clock docs p (fs, m)) as [[fs1 m1]|[fs1 e]] eqn:E.
  - apply backup_and_write_inl in E as (c & Hc & -> & _); [|done].
    right. exists c. split; [done|]. right. by eexists.
  - apply backup_and_write_inr in E as ->. by left.
Qed.

Lemma write_members_trace root clock docs root_toml ps : ∀ seen fs m,
  Forall is_manifest ps →
  ∃ l, NoDup l ∧ (∀ q, q ∈ l → q ∈ ps ∧ (q ∉ seen) ∧ q ≠ root_toml) ∧
       run clock fs l
         (reached (write_members root clock docs root_toml ps seen (fs, m))).
Proof.
  induction ps as [|p ps IH]; intros seen fs m Hps.
  { exists []. split; [constructor|]. split; [by intros q ?%elem_of_nil|].
    constructor. }
  apply Forall_cons in Hps as [Hp Hps]. rewrite write_members_cons.
  destruct (bool_decide (p ∈ seen) || bool_decide (p = root_toml)) eqn:Eskip.
  { destruct (IH seen fs m Hps) as (l & Hnd & Hl & Hrun).
    exists l. split; [done|]. split; [|done].
    intros q Hq. destruct (Hl q Hq) as (? & ? & ?). split; [by right | done]. }
  apply orb_false_iff in Eskip as [Hseen%bool_decide_eq_false Hroot%bool_decide_eq_false].
  pose proof (backup_and_write_step root clock docs p fs m Hp) as Hstep.
  destruct (backup_and_write root clock docs p (fs, m)) as [[fs1 m1]|[fs1 e]] eqn:E.
  - destruct (IH (p :: seen) fs1 m1 Hps) as (l & Hnd & Hl & Hrun).
    exists (p :: l). split; [|split].
    + constructor; [|done]. intros Hin. destruct (Hl p Hin) as (_ & Hn & _).
      apply Hn. left.
    + intros q [->|Hq]%elem_of_cons; [split; [left | done]|].
      destruct (Hl q Hq) as (? & [? ?]%not_elem_of_cons & ?).
      split; [by right | done].
    + by apply (run_cons clock fs p fs1).
  - exists []. split; [constructor|]. split; [by intros q ?%elem_of_nil|].
    apply backup_and_write_inr in E as ->. simpl. apply run_nil.
Qed.

Lemma found_root_toml root fs p :
  p ∈ find_cargo_tomls root fs → is_Some (fs !! (root ++ ["Cargo.toml"])) →
  root ++ ["Cargo.toml"] ∈ find_cargo_tomls root fs.
Proof.
  intros (_ & Hm & Hi)%elem_of_find_cargo_tomls Hs.
  rewrite rglob_match_named in Hm. apply rglob_named_spec in Hm as [d ->].
  apply elem_of_find_cargo_tomls. split; [done|]. split.
  - rewrite rglob_match_named. apply rglob_named_spec. by exists [].
  - rewrite ignored_app in *. apply orb_false_iff in Hi as [-> _]. done.
Qed.

Lemma hoist_trace root dry clock fs :
  ∃ l, NoDup l ∧ (∀ q, q ∈ l → q ∈ find_cargo_tomls root fs) ∧
       run clock fs l (hoist root dry clock fs).1.
Proof.
  assert (Hnil : ∃ l, NoDup l ∧ (∀ q, q ∈ l → q ∈ find_cargo_tomls root fs) ∧
                      run clock fs l fs).
  { exists []. split; [constructor|]. split; [by intros q ?%elem_of_nil|]. constructor. }
  unfold hoist. set (root_toml := root ++ ["Cargo.toml"]).
  destruct (fs !! root_toml) as [c0|] eqn:Er; [|done].
  set (members := remove_first root_toml (find_cargo_tomls root fs)).
  destruct (hoist_compute root_toml (root_toml :: members) fs)
    as [e|[[needed docs] c]] eqn:Ec; [done|].
  destruct dry; [done|].
  apply hoist_compute_inr in Ec as (docs0 & rd & Hparse & -> & Hens & Hloop).
  cbn [tail] in *.
  pose proof (root_toml_manifest root) as Hrm. fold root_toml in Hrm.
  assert (Hps : Forall is_manifest (occurrence_paths (collect docs0 members))).
  { apply Forall_forall. intros p Hp%occurrence_paths_members.
    by eapply members_manifest. }
  assert (Hmem : ∀ q, q ∈ occurrence_paths (collect docs0 members) →
                      q ∈ find_cargo_tomls root fs).
  { intros q Hq%occurrence_paths_members. by eapply members_found. }
  case_bool_decide as Hadd.
  - pose proof (backup_and_write_step root clock docs root_toml fs [] Hrm) as Hstep.
    destruct (backup_and_write root clock docs root_toml (fs, []))
      as [[fs0 m0]|[fs0 e]] eqn:E0; simpl in Hstep.
    + destruct (write_members_trace root clock docs root_toml
                  (occurrence_paths (collect docs0 members)) [] fs0 m0 Hps)
        as (l & Hnd & Hl & Hrun).
      assert (fs0 = fs ∨ root_toml ∈ find_cargo_tomls root fs) as [->|Hroot].
      { destruct (collect docs0 members) as [|[dep occ] nd] eqn:Ecol.
        - simpl in Hloop. injection Hloop as _ <-. done.
        - right. destruct members as [|p ms] eqn:Em; [done|].
          apply (found_root_toml root fs p); [|by exists c0].
          apply (members_found root fs). fold root_toml. fold members.
          rewrite Em. left. }
      * exists l. split; [done|]. split; [intros q Hq; apply Hmem; by apply Hl|].
        by destruct (write_members _ _ _ _ _ _ _) as [[? ?]|[? ?]].
      * exists (root_toml :: l). split; [|split].
        -- constructor; [|done]. intros Hin. by destruct (Hl _ Hin) as (_ & _ & ?).
        -- intros q [->|Hq]%elem_of_cons; [done|]. apply Hmem. by apply Hl.
        -- destruct (write_members _ _ _ _ _ _ _) as [[? ?]|[? ?]];
             by apply (run_cons clock fs root_toml fs0).
    + apply backup_and_write_inr in E0 as ->. done.
  - destruct (write_members_trace root clock docs root_toml
                (occurrence_paths (collect docs0 members)) [] fs [] Hps)
      as (l & Hnd & Hl & Hrun).
    exists l. split; [done|]. split; [intros q Hq; apply Hmem; by apply Hl|].
    by destruct (write_members _ _ _ _ _ _ _) as [[? ?]|[? ?]].
Qed.

Lemma sort_trace root dry clock fs :
  run clock fs (find_cargo_tomls root fs) (sort root dry clock fs).1.
Proof.
  unfold sort.
  destruct (sort_files dry clock (find_cargo_tomls root fs) fs 0) as [fs' r] eqn:E.
  eapply sort_files_trace; [apply find_cargo_tomls_Forall | exact E].
Qed.

(** ** The first backup *)

Lemma length_append (s t : string) :
  String.length (s +:+ t) = String.length s + String.length t.
Proof. induction s as [|a s IH]; simpl; [done | by rewrite IH]. Qed.

Lemma backup_path_first clock fs p :
  is_manifest p →
  backup_path clock fs p =
    match fs !! first_backup p with
    | None => first_backup p
    | Some _ => with_name p ("Cargo.toml." +:+ clock p +:+ ".bak")
    end.
Proof. intros Hp. unfold backup_path. by rewrite (name_manifest p Hp). Qed.

Lemma stamped_not_first p ts :
  last (with_name p ("Cargo.toml." +:+ ts +:+ ".bak")) ≠ Some "Cargo.toml.bak".
Proof.
  rewrite last_with_name. intros [= E]. apply (f_equal String.length) in E.
  rewrite !length_append in E. simpl in E. lia.
Qed.

Lemma backup_path_spares clock fs p x :
  is_manifest p → last x = Some "Cargo.toml.bak" → is_Some (fs !! x) →
  backup_path clock fs p ≠ x.
Proof.
  intros Hp Hx Hs E. rewrite backup_path_first in E by done.
  destruct (fs !! first_backup p) eqn:Eb.
  - rewrite <- E in Hx. by apply stamped_not_first in Hx.
  - rewrite <- E, Eb in Hs. by destruct Hs.
Qed.

Lemma step_keeps clock fs fs' p x :
  is_manifest p → step_of clock fs fs' p →
  last x = Some "Cargo.toml.bak" → is_Some (fs !! x) → fs' !! x = fs !! x.
Proof.
  intros Hp Hstep Hx Hs.
  pose proof (backup_path_spares clock fs p x Hp Hx Hs) as Hne.
  assert (p ≠ x) as Hpx by (intros ->; unfold is_manifest in Hp; congruence).
  destruct Hstep as [->|(c & Hc & [->|[d ->]])]; [done|..];
    by rewrite ?lookup_insert_ne.
Qed.

Lemma run_keeps clock fs ps fs' x :
  run clock fs ps fs' →
  last x = Some "Cargo.toml.bak" → is_Some (fs !! x) → fs' !! x = fs !! x.
Proof.
  induction 1 as [|fs p fs1 ps fs2 Hp Hstep _ IH]; [done|]. intros Hx Hs.
  pose proof (step_keeps clock fs fs1 p x Hp Hstep Hx Hs) as E.
  rewrite <- E. apply IH; [done|]. by rewrite E.
Qed.

(** X6.  A file named [Cargo.toml.bak] that exists is never written again:
    [sort], [hoist] and [restore] leave its content as it is, in dry-run
    mode or not, whether the run completes or fails.  The first backup of
    a manifest therefore outlives every later run. *)
Theorem first_backup_is_kept (root : path) (dry_run : bool)
    (clock : path → string) (fs : fsys) (x : path) :
  last x = Some "Cargo.toml.bak" → is_Some (fs !! x) →
  (sort root dry_run clock fs).1 !! x = fs !! x ∧
  (hoist root dry_run clock fs).1 !! x = fs !! x ∧
  (restore root dry_run fs).1 !! x = fs !! x.
Proof.
  intros Hx Hs. split; [|split].
  - eapply run_keeps; [apply sort_trace | done..].
  - destruct (hoist_trace root dry_run clock fs) as (l & _ & _ & Hrun).
    by eapply run_keeps.
  - destruct dry_run; [by rewrite restore_dry_disk|].
    apply restore_disk. intros [[Hm _]%find_cargo_tomls_manifest _].
    unfold is_manifest in Hm. congruence.
Qed.

Lemma first_backup_is_kept_witness :
  let clock := λ _ : path, "20240102T000000Z" in
  let x := ["ws"; "Cargo.toml.bak"] in
  last x = Some "Cargo.toml.bak" ∧ is_Some (fs_backed !! x) ∧
  (sort ["ws"] false clock fs_backed).1 !! x = fs_backed !! x ∧
  (hoist ["ws"] false clock fs_backed).1 !! x = fs_backed !! x ∧
  (restore ["ws"] false fs_backed).1 !! x = fs_backed !! x.
Proof.
  intros clock x.
  assert (H1 : last x = Some "Cargo.toml.bak") by reflexivity.
  assert (H2 : is_Some (fs_backed !! x)) by (vm_compute; eauto).
  split; [exact H1|]. split; [exact H2|].
  exact (first_backup_is_kept ["ws"] false clock fs_backed x H1 H2).
Defined.

(** ** Undoing a run *)

Lemma backed_up_nil fs : backed_up fs fs [].
Proof. split; [by intros p ?%elem_of_nil | done]. Qed.

Lemma no_first_backup_lookup fs x :
  no_first_backup fs → last x = Some "Cargo.toml.bak" → fs !! x = None.
Proof.
  intros H Hx. destruct (fs !! x) as [c|] eqn:E; [|done].
  by destruct (map_Forall_lookup_1 _ _ _ _ H E).
Qed.

Lemma backed_up_step clock fs fs1 fs2 done p :
  no_first_backup fs → backed_up fs fs1 done → is_manifest p → p ∉ done →
  step_of clock fs1 fs2 p →
  backed_up fs fs2 done ∨ backed_up fs fs2 (p :: done).
Proof.
  intros Hno [Hd Hfr] Hp Hpd [->|(c & Hc & Hfs2)]; [by left|]. right.
  assert (Hpq : ∀ q, q ∈ done → first_backup p ≠ first_backup q).
  { intros q Hq E. apply Hpd. destruct (Hd q Hq) as (Hqm & _).
    by rewrite (first_backup_inj p q Hp Hqm E). }
  assert (Hnm : ∀ q y, is_manifest q → q ≠ first_backup y).
  { intros q y Hq E. rewrite E in Hq. by apply first_backup_not_manifest in Hq. }
  assert (Hbp : fs1 !! first_backup p = None).
  { rewrite Hfr; [by apply no_first_backup_lookup, last_first_backup| |done].
    intros Hin. destruct (Hd _ Hin) as (Hm & _).
    by apply first_backup_not_manifest in Hm. }
  assert (Hbak : backup_path clock fs1 p = first_backup p).
  { rewrite backup_path_first by done. by rewrite Hbp. }
  rewrite Hbak in Hfs2.
  assert (Hcp : fs !! p = Some c).
  { rewrite <- Hc. symmetry. apply Hfr; [done|]. intros q _. by apply Hnm. }
  assert (Hlook : ∀ y, y ≠ p → y ≠ first_backup p → fs2 !! y = fs1 !! y).
  { intros y Hy1 Hy2. destruct Hfs2 as [->|[d ->]]; by rewrite ?lookup_insert_ne. }
  assert (Hp2 : is_Some (fs2 !! p) ∧ fs2 !! first_backup p = Some c).
  { destruct Hfs2 as [->|[d ->]].
    - rewrite lookup_insert_eq, lookup_insert_ne by (by apply not_eq_sym, Hnm).
      by rewrite Hc.
    - rewrite lookup_insert_eq, lookup_insert_ne by (by apply Hnm).
      by rewrite lookup_insert_eq. }
  split.
  - intros q [->|Hq]%elem_of_cons.
    + split; [done|]. rewrite Hcp. destruct Hp2 as [? ->]. eauto.
    + destruct (Hd q Hq) as (Hqm & Hq0 & Hq1 & Hqb).
      split; [done|]. split; [done|].
      rewrite !Hlook; [done|..].
      * intros E. symmetry in E. by apply Hnm in E.
      * by apply not_eq_sym, Hpq.
      * by intros ->.
      * by apply Hnm.
  - intros x [Hxp Hxd]%not_elem_of_cons Hx.
    rewrite Hlook; [|done|apply Hx; left].
    apply Hfr; [done|]. intros q Hq. apply Hx. by right.
Qed.

Lemma run_backed_up clock fs fs1 ps fs2 :
  no_first_backup fs → run clock fs1 ps fs2 →
  ∀ done, NoDup ps → (∀ p, p ∈ ps → p ∉ done) → backed_up fs fs1 done →
  ∃ done', backed_up fs fs2 done' ∧ ∀ q, q ∈ done' → q ∈ done ∨ q ∈ ps.
Proof.
  intros Hno. induction 1 as [fs1|fs1 p fs1' ps fs2 Hp Hstep _ IH];
    intros done Hnd Hfresh Hb.
  { exists done. split; [done | by left]. }
  apply NoDup_cons in Hnd as [Hpps Hnd].
  destruct (backed_up_step clock fs fs1 fs1' done p Hno Hb Hp) as [Hb'|Hb'];
    [apply Hfresh; left | done | |].
  - destruct (IH done Hnd) as (done' & Hd' & Hsub); [|done|].
    { intros q Hq. apply Hfresh. by right. }
    exists done'. split; [done|]. intros q [?|?]%Hsub; [by left | right; by right].
  - destruct (IH (p :: done) Hnd) as (done' & Hd' & Hsub); [|done|].
    { intros q Hq [->|Hin]%elem_of_cons; [done|]. by apply (Hfresh q); [right|]. }
    exists done'. split; [done|].
    intros q [[->|?]%elem_of_cons|?]%Hsub; [right; left | by left | right; by right].
Qed.

Lemma restore_undoes root fs fs1 done x :
  no_first_backup fs → backed_up fs fs1 done →
  (∀ p, p ∈ done → p ∈ find_cargo_tomls root fs) →
  is_Some (fs !! x) → (restore root false fs1).1 !! x = fs !! x.
Proof.
  intros Hno [Hd Hfr] Hfound Hx.
  destruct (restore_disk root fs1) as [_ H]. cbv zeta in H.
  destruct (H x) as [H1 H2]. clear H.
  destruct (decide (x ∈ done)) as [Hin|Hin].
  - destruct (Hd x Hin) as (Hm & H0 & Hs1 & Hb). rewrite <- Hb. apply H1.
    + apply Hfound in Hin. apply elem_of_find_cargo_tomls in Hin as (_ & ? & ?).
      by apply elem_of_find_cargo_tomls.
    + by rewrite Hb.
  - assert (fs1 !! x = fs !! x) as Hsame.
    { apply Hfr; [done|]. intros p _ ->. destruct Hx as [c Hc].
      by rewrite (no_first_backup_lookup fs _ Hno (last_first_backup p)) in Hc. }
    rewrite <- Hsame. apply H2. intros [[Hm _]%find_cargo_tomls_manifest [c Hc]].
    rewrite Hfr in Hc.
    + by rewrite (no_first_backup_lookup fs _ Hno (last_first_backup x)) in Hc.
    + intros Hb. destruct (Hd _ Hb) as (Hbm & _).
      by apply first_backup_not_manifest in Hbm.
    + intros p Hp E. apply Hin. destruct (Hd p Hp) as (Hpm & _).
      by rewrite (first_backup_inj x p Hm Hpm E).
Qed.

(** X7.  [restore] undoes [sort]: on a tree without any [Cargo.toml.bak],
    after a [sort] run (dry or not, completed or stopped by an error)
    followed by [restore], every file of the tree has the content it had
    before [sort]. *)
Theorem restore_undoes_sort (root : path) (dry_run : bool)
    (clock : path → string) (fs : fsys) (x : path) :
  no_first_backup fs → is_Some (fs !! x) →
  (restore root false (sort root dry_run clock fs).1).1 !! x = fs !! x.
Proof.
  intros Hno Hx.
  destruct (run_backed_up clock fs fs (find_cargo_tomls root fs)
              (sort root dry_run clock fs).1 Hno (sort_trace root dry_run clock fs) [])
    as (done & Hb & Hsub).
  - apply NoDup_find_cargo_tomls.
  - intros p _. apply not_elem_of_nil.
  - apply backed_up_nil.
  - apply (restore_undoes root fs _ done x Hno Hb); [|done].
    intros p [?%elem_of_nil|?]%Hsub; done.
Qed.

(** X8.  [restore] undoes [hoist]: on a tree without any [Cargo.toml.bak],
    after a [hoist] run (dry or not, completed or failed) followed by
    [restore], every file of the tree has the content it had before
    [hoist]. *)
Theorem restore_undoes_hoist (root : path) (dry_run : bool)
    (clock : path → string) (fs : fsys) (x : path) :
  no_first_backup fs → is_Some (fs !! x) →
  (restore root false (hoist root dry_run clock fs).1).1 !! x = fs !! x.
Proof.
  intros Hno Hx.
  destruct (hoist_trace root dry_run clock fs) as (l & Hnd & Hl & Hrun).
  destruct (run_backed_up clock fs fs l (hoist root dry_run clock fs).1 Hno Hrun [])
    as (done & Hb & Hsub).
  - done.
  - intros p _. apply not_elem_of_nil.
  - apply backed_up_nil.
  - apply (restore_undoes root fs _ done x Hno Hb); [|done].
    intros p [?%elem_of_nil|?]%Hsub; [done | by apply Hl].
Qed.

Lemma no_first_backup_unsorted : no_first_backup fs_unsorted.
Proof. apply (bool_decide_unpack _). by vm_compute. Qed.

Lemma no_first_backup_two_members : no_first_backup fs_two_members.
Proof. apply (bool_decide_unpack _). by vm_compute. Qed.

Lemma restore_undoes_sort_witness :
  let clock := λ _ : path, "20240101T000000Z" in
  let x := ["ws"; "crates"; "a"; "Cargo.toml"] in
  no_first_backup fs_unsorted ∧ is_Some (fs_unsorted !! x) ∧
  (sort ["ws"] false clock fs_unsorted).1 !! x ≠ fs_unsorted !! x ∧
  (restore ["ws"] false (sort ["ws"] false clock fs_unsorted).1).1 !! x
    = fs_unsorted !! x.
Proof.
  intros clock x.
  assert (H2 : is_Some (fs_unsorted !! x)) by (vm_compute; eauto).
  split; [exact no_first_backup_unsorted|]. split; [exact H2|].
  split; [by vm_compute|].
  exact (restore_undoes_sort ["ws"] false clock fs_unsorted x
           no_first_backup_unsorted H2).
Defined.

Lemma restore_undoes_hoist_witness :
  let clock := λ _ : path, "20240101T000000Z" in
  let x := ["ws"; "b"; "Cargo.toml"] in
  no_first_backup fs_two_members ∧ is_Some (fs_two_members !! x) ∧
  (hoist ["ws"] false clock fs_two_members).1 !! x ≠ fs_two_members !! x ∧
  (restore ["ws"] false (hoist ["ws"] false clock fs_two_members).1).1 !! x
    = fs_two_members !! x.
Proof.
  intros clock x.
  assert (H2 : is_Some (fs_two_members !! x)) by (vm_compute; eauto).
  split; [exact no_first_backup_two_members|]. split; [exact H2|].
  split; [by vm_compute|].
  exact (restore_undoes_hoist ["ws"] false clock fs_two_members x
           no_first_backup_two_members H2).
Defined.

(** ** What [sort] keeps *)

Lemma tget_perm (k : string) (l l' : table) :
  uniq_keys l → l ≡ₚ l' → tget k l = tget k l'.
Proof.
  intros Hu Hp.
  assert (uniq_keys l') as Hu' by (unfold uniq_keys, keys in *; by rewrite <- Hp).
  destruct (tget k l) as [v|] eqn:E.
  - apply tget_Some_elem in E. rewrite Hp in E. symmetry. by apply tget_elem_uniq.
  - apply tget_None in E. symmetry. apply tget_None.
    unfold keys in *. by rewrite <- Hp.
Qed.

Lemma tget_fmap_snd (f : value → value) (k : string) (t : table) :
  tget k ((λ kv, (kv.1, f kv.2)) <$> t) = f <$> tget k t.
Proof.
  induction t as [|[k' v] t IH]; csimpl; [done|].
  destruct (decide (k = k')); [done | apply IH].
Qed.

Lemma sort_deps_table_uniq tbl :
  uniq_keys tbl →
  sort_deps_table tbl = (λ kv, (kv.1, inline_if_table kv.2)) <$> sorted_groups tbl.
Proof.
  intros Hu. rewrite sort_deps_table_unfold. apply from_items_uniq.
  unfold uniq_keys. rewrite keys_fmap_snd. unfold keys.
  by rewrite sorted_groups_perm.
Qed.

(** X9.  [sort_deps_table] loses nothing: for a section with distinct names,
    the sorted section has the same names, and each name keeps its spec,
    except that a spec written as a table of its own ([[dependencies.x]])
    with at least one field becomes an inline table with the same fields
    in the same order. *)
Theorem sort_deps_table_keeps_specs (tbl : table) :
  uniq_keys tbl →
  (∀ k f, (k, VTable Block f) ∈ tbl → uniq_keys f) →
  keys (sort_deps_table tbl) ≡ₚ keys tbl ∧
  ∀ k, tget k (sort_deps_table tbl) =
       (λ v, match v with
             | VTable Block (x :: f) => VTable Inline (x :: f)
             | _ => v
             end) <$> tget k tbl.
Proof.
  intros Hu Hf. rewrite (sort_deps_table_uniq tbl Hu). split.
  - rewrite keys_fmap_snd. unfold keys. by rewrite sorted_groups_perm.
  - intros k. rewrite tget_fmap_snd.
    rewrite (tget_perm k (sorted_groups tbl) tbl).
    + destruct (tget k tbl) as [v|] eqn:E; [|done]. simpl. f_equal.
      destruct v as [| | | | |[] f]; try done. simpl.
      rewrite (from_items_uniq f).
      * by destruct f.
      * apply (Hf k). by apply tget_Some_elem.
    + unfold uniq_keys, keys. by rewrite sorted_groups_perm.
    + apply sorted_groups_perm.
Qed.

Lemma sort_deps_table_keeps_specs_witness :
  let tbl := [("tokio", VTable Block [("version", VStr "1");
                                      ("features", VArr [VStr "rt"])]);
              ("anyhow", VStr "1.0");
              ("empty", VTable Block []);
              ("kintsu-core", VTable Inline [("workspace", VBool true)])] in
  uniq_keys tbl ∧
  (∀ k f, (k, VTable Block f) ∈ tbl → uniq_keys f) ∧
  sort_deps_table tbl =
    [("kintsu-core", VTable Inline [("workspace", VBool true)]);
     ("anyhow", VStr "1.0");
     ("empty", VTable Block []);
     ("tokio", VTable Inline [("version", VStr "1");
                              ("features", VArr [VStr "rt"])])] ∧
  keys (sort_deps_table tbl) ≡ₚ keys tbl ∧
  ∀ k, tget k (sort_deps_table tbl) =
       (λ v, match v with
             | VTable Block (x :: f) => VTable Inline (x :: f)
             | _ => v
             end) <$> tget k tbl.
Proof.
  intros tbl.
  assert (H1 : uniq_keys tbl) by (apply (bool_decide_unpack _); by vm_compute).
  assert (H2 : ∀ k f, (k, VTable Block f) ∈ tbl → uniq_keys f).
  { intros k f Hin. unfold tbl in Hin.
    repeat (apply elem_of_cons in Hin as [Hin|Hin]);
      try (by apply elem_of_nil in Hin); simplify_eq;
      apply (bool_decide_unpack _); by vm_compute. }
  split; [exact H1|]. split; [exact H2|]. split; [reflexivity|].
  exact (sort_deps_table_keeps_specs tbl H1 H2).
Defined.

Lemma sort_sections_keys secs doc m :
  keys (foldl (λ '(d, m) sec,
                 match as_block (tget sec d) with
                 | Some tbl =>
                     (tset sec (VTable Block (sort_deps_table tbl)) d, true)
                 | None => (d, m)
                 end) (doc, m) secs).1 = keys doc.
Proof.
  revert doc m. induction secs as [|sec secs IH]; intros doc m; simpl; [done|].
  destruct (as_block (tget sec doc)) as [tbl|] eqn:E; [|apply IH].
  rewrite IH. apply tset_present. apply as_block_Some in E.
  unfold thas. by rewrite E.
Qed.

Lemma sort_workspace_table_frame ws m ws' m' :
  sort_workspace_table ws m = inr (ws', m') →
  keys ws' = keys ws ∧
  ∀ k, k ≠ "dependencies" → k ≠ "members" → tget k ws' = tget k ws.
Proof.
  unfold sort_workspace_table.
  set (st := match as_block (tget "dependencies" ws) with
             | Some tbl => (tset "dependencies" (VTable Block (sort_deps_table tbl)) ws, true)
             | None => (ws, m)
             end).
  assert (Hst : keys st.1 = keys ws ∧
                ∀ k, k ≠ "dependencies" → tget k st.1 = tget k ws).
  { unfold st. destruct (as_block (tget "dependencies" ws)) as [tbl|] eqn:E; simpl; [|done].
    apply as_block_Some in E. split.
    - apply tset_present. unfold thas. by rewrite E.
    - intros k Hk. by apply tget_tset_ne. }
  destruct st as [ws1 m1]. simpl in Hst. destruct Hst as [Hk Hg].
  destruct (tget "members" ws1) as [v|] eqn:Em.
  - destruct v as [| | | |l|]; try (intros [= <- _]; split; [done | auto]).
    destruct (sorted_members l) as [e|l']; [done|]. intros [= <- _]. split.
    + rewrite tset_present; [done|]. unfold thas. by rewrite Em.
    + intros k Hk1 Hk2. rewrite tget_tset_ne by done. auto.
  - intros [= <- _]. split; [done | auto].
Qed.

(** What [sort_doc] leaves alone. *)
Lemma sort_doc_frame_lemma doc doc' m :
  sort_doc doc = inr (doc', m) →
  keys doc' = keys doc ∧
  (∀ k, k ∉ SECTIONS → k ≠ "workspace" → tget k doc' = tget k doc) ∧
  (as_block (tget "workspace" doc) = None →
     tget "workspace" doc' = tget "workspace" doc) ∧
  ∀ ws, as_block (tget "workspace" doc) = Some ws →
    ∃ ws' m0 m1, tget "workspace" doc' = Some (VTable Block ws') ∧
                 sort_workspace_table ws m0 = inr (ws', m1).
Proof.
  unfold sort_doc.
  destruct (sort_sections_spec doc false) as (Hk & _ & _).
  pose proof (sort_sections_keys SECTIONS doc false) as Hkeys.
  fold (sort_sections doc false) in Hkeys.
  destruct (sort_sections doc false) as [d1 m1]. cbn [fst snd] in *.
  unfold sort_workspace. rewrite (Hk "workspace" workspace_not_section).
  destruct (as_block (tget "workspace" doc)) as [ws|] eqn:Ew.
  - destruct (sort_workspace_table ws m1) as [e|[ws' m']] eqn:Et; [done|].
    intros [= <- <-]. split; [|split; [|split; [done|]]].
    + rewrite <- Hkeys. apply tset_present. unfold thas.
      rewrite (Hk "workspace" workspace_not_section).
      apply as_block_Some in Ew. by rewrite Ew.
    + intros k Hk1 Hk2. rewrite tget_tset_ne by done. by apply Hk.
    + intros ? [= <-]. exists ws', m1, m'. by rewrite tget_tset_eq.
  - intros [= <- <-]. split; [done|]. split; [|split; [|done]].
    + intros k Hk1 _. by apply Hk.
    + intros _. by apply Hk, workspace_not_section.
Qed.

(** X10.  [sort] touches nothing but the three dependency sections and, in
    the [workspace] table, [dependencies] and [members]: the sorted
    document has the same top-level names in the same order, every other
    top-level entry keeps its value, and so does every other entry of the
    [workspace] table, whose names keep their order as well. *)
Theorem sort_doc_frame (doc doc' : table) (m : bool) :
  sort_doc doc = inr (doc', m) →
  keys doc' = keys doc ∧
  (∀ k, k ∉ SECTIONS → k ≠ "workspace" → tget k doc' = tget k doc) ∧
  match as_block (tget "workspace" doc) with
  | None => tget "workspace" doc' = tget "workspace" doc
  | Some ws =>
      ∃ ws', tget "workspace" doc' = Some (VTable Block ws') ∧
             keys ws' = keys ws ∧
             ∀ k, k ≠ "dependencies" → k ≠ "members" → tget k ws' = tget k ws
  end.
Proof.
  intros (Hk & Hfr & Hn & Hw)%sort_doc_frame_lemma.
  split; [done|]. split; [done|].
  destruct (as_block (tget "workspace" doc)) as [ws|]; [|by apply Hn].
  destruct (Hw ws eq_refl) as (ws' & m0 & m1 & Hws' & Ht).
  exists ws'. split; [done|]. by eapply sort_workspace_table_frame.
Qed.

Lemma sort_doc_frame_witness :
  let doc := [("package", VTable Block [("name", VStr "root")]);
              ("workspace",
               VTable Block
                 [("resolver", VStr "2");
                  ("members", VArr [VStr "crates/b"; VStr "crates/a"]);
                  ("package", VTable Block [("edition", VStr "2021")])]);
              ("dependencies",
               VTable Block [("serde", VStr "1.0"); ("anyhow", VStr "1.0")]);
              ("features", VTable Block [("default", VArr [])])] in
  let doc' := [("package", VTable Block [("name", VStr "root")]);
               ("workspace",
                VTable Block
                  [("resolver", VStr "2");
                   ("members", VArr [VStr "crates/a"; VStr "crates/b"]);
                   ("package", VTable Block [("edition", VStr "2021")])]);
               ("dependencies",
                VTable Block [("anyhow", VStr "1.0"); ("serde", VStr "1.0")]);
               ("features", VTable Block [("default", VArr [])])] in
  sort_doc doc = inr (doc', true) ∧
  keys doc' = keys doc ∧
  (∀ k, k ∉ SECTIONS → k ≠ "workspace" → tget k doc' = tget k doc) ∧
  match as_block (tget "workspace" doc) with
  | None => tget "workspace" doc' = tget "workspace" doc
  | Some ws =>
      ∃ ws', tget "workspace" doc' = Some (VTable Block ws') ∧
             keys ws' = keys ws ∧
             ∀ k, k ≠ "dependencies" → k ≠ "members" → tget k ws' = tget k ws
  end.
Proof.
  intros doc doc'.
  assert (H : sort_doc doc = inr (doc', true)) by reflexivity.
  split; [exact H|]. exact (sort_doc_frame doc doc' true H).
Defined.




(** ** Dry runs of [sort] *)

Lemma sort_file_outcome dry dry' clock clock' p fs fs' :
  is_manifest p → fs !! p = fs' !! p →
  (sort_file dry clock p fs).2 = (sort_file dry' clock' p fs').2.
Proof.
  intros Hp Hsame.
  destruct (sort_file dry clock p fs) as [fs2 r] eqn:E.
  destruct (sort_file dry' clock' p fs') as [fs2' r'] eqn:E'. simpl.
  apply sort_file_inv in E as [(Hn & _ & ->)|(c & Hc & H)]; [| |done];
    apply sort_file_inv in E' as [(Hn' & _ & ->)|(c' & Hc' & H')]; try done;
    try congruence.
  assert (c' = c) as -> by congruence. simpl in H, H'.
  destruct (parse c) as [doc|]; [|destruct H as [_ ->], H' as [_ ->]; done].
  destruct (sort_doc doc) as [e|[doc' m]];
    [destruct H as [_ ->], H' as [_ ->] | destruct H as [-> _], H' as [-> _]]; done.
Qed.

Lemma sort_files_outcome dry dry' clock clock' l : ∀ fs fs' n,
  Forall is_manifest l → NoDup l → (∀ p, p ∈ l → fs !! p = fs' !! p) →
  (sort_files dry clock l fs n).2 = (sort_files dry' clock' l fs' n).2.
Proof.
  induction l as [|p l IH]; intros fs fs' n Hl Hnd Hsame; [done|].
  apply Forall_cons in Hl as [Hp Hl]. apply NoDup_cons in Hnd as [Hpl Hnd].
  simpl. pose proof (sort_file_outcome dry dry' clock clock' p fs fs' Hp) as Hr.
  rewrite Hsame in Hr by left. specialize (Hr eq_refl).
  destruct (sort_file dry clock p fs) as [fs2 r] eqn:E.
  destruct (sort_file dry' clock' p fs') as [fs2' r'] eqn:E'. simpl in Hr. subst r'.
  destruct r as [e|md]; [done|]. apply IH; [done..|].
  intros q Hq. assert (is_manifest q) as Hqm by (by eapply Forall_forall in Hl).
  rewrite (sort_file_manifests _ _ _ _ _ _ q Hp E Hqm) by (by intros ->).
  rewrite (sort_file_manifests _ _ _ _ _ _ q Hp E' Hqm) by (by intros ->).
  apply Hsame. by right.
Qed.

Lemma sort_file_dry clock p fs fs2 r x :
  is_manifest p → sort_file true clock p fs = (fs2, r) →
  is_manifest x → fs2 !! x = fs !! x.
Proof.
  intros Hp [(_ & -> & _)|(c & Hc & H)]%sort_file_inv Hx; [done| |done].
  assert (backup_path clock fs p ≠ x) as Hne.
  { intros <-. by apply (backup_path_not_manifest clock fs p). }
  simpl in H. destruct (parse c) as [doc|].
  - destruct (sort_doc doc) as [e|[doc' m]].
    + destruct H as [-> _]. by apply lookup_insert_ne.
    + destruct H as [_ ->]. rewrite andb_false_r. by apply lookup_insert_ne.
  - destruct H as [-> _]. by apply lookup_insert_ne.
Qed.

Lemma sort_files_dry clock l : ∀ fs n x,
  Forall is_manifest l → is_manifest x →
  (sort_files true clock l fs n).1 !! x = fs !! x.
Proof.
  induction l as [|p l IH]; intros fs n x Hl Hx; [done|].
  apply Forall_cons in Hl as [Hp Hl]. simpl.
  destruct (sort_file true clock p fs) as [fs2 [e|md]] eqn:E; simpl.
  - apply (sort_file_dry clock p fs fs2 _ x Hp E Hx).
  - rewrite IH by done. apply (sort_file_dry clock p fs fs2 _ x Hp E Hx).
Qed.

(** X12.  A dry run of [sort] changes no manifest and announces the outcome
    of the real run: the same count, or the same error.  (It still takes
    the backups.) *)
Theorem sort_dry_run_previews (root : path) (clock clock' : path → string)
    (fs : fsys) :
  (sort root true clock fs).2 = (sort root false clock' fs).2 ∧
  ∀ x, is_manifest x → (sort root true clock fs).1 !! x = fs !! x.
Proof.
  unfold sort. split.
  - apply sort_files_outcome;
      [apply find_cargo_tomls_Forall | apply NoDup_find_cargo_tomls | done].
  - intros x Hx. apply sort_files_dry; [apply find_cargo_tomls_Forall | done].
Qed.

(** ** Version resolution, the version found *)

Lemma first_version_first occ v :
  (first_version occ None).2 = false →
  (first_version occ None).1 = Some v ↔
  ∃ pre o post, occ = pre ++ o :: post ∧ extract_version o.2 = Some v ∧
                ∀ o', o' ∈ pre → extract_version o'.2 = None.
Proof.
  induction occ as [|[[sec p] spec] occ IH]; simpl.
  - intros _. split; [done|]. intros (pre & o & post & E & _). by destruct pre.
  - destruct (extract_version spec) as [v0|] eqn:Ev.
    + intros _. rewrite first_version_found. split.
      * intros [= ->]. exists [], (sec, p, spec), occ.
        split; [done|]. split; [done|]. by intros o' ?%elem_of_nil.
      * intros ([|o1 pre] & o & post & E & Ho & Hpre).
        -- injection E as <- <-. simpl in Ho. congruence.
        -- injection E as <- ->.
           specialize (Hpre (sec, p, spec) ltac:(left)). simpl in Hpre. congruence.
    + destruct (table_with "path" spec) eqn:Ep; simpl; [done|].
      intros Hs. rewrite (IH Hs). split.
      * intros (pre & o & post & -> & Ho & Hpre).
        exists ((sec, p, spec) :: pre), o, post. split; [done|]. split; [done|].
        intros o' [->|Hin]%elem_of_cons; [done | auto].
      * intros ([|o1 pre] & o & post & E & Ho & Hpre).
        { injection E as <- <-. simpl in Ho. congruence. }
        injection E as <- ->.
        exists pre, o, post. split; [done|]. split; [done|].
        intros o' Hin. apply Hpre. by right.
Qed.

(** X13.  The version [hoist] resolves for a dependency is the one of its
    first declaration, in collection order, that states one: later
    declarations with another version are not looked at, and a declaration
    with a [path] anywhere in the list prevents the resolution. *)
Theorem resolve_first_version (occ : list occurrence) (v : value) :
  resolve occ = Some v ↔
  (∀ o, o ∈ occ → table_with "path" o.2 = false) ∧
  ∃ pre o post, occ = pre ++ o :: post ∧ extract_version o.2 = Some v ∧
                ∀ o', o' ∈ pre → extract_version o'.2 = None.
Proof.
  unfold resolve. pose proof (first_version_skip occ None) as Hskip.
  pose proof (first_version_first occ v) as Hfirst.
  destruct (first_version occ None) as [version [|]]; simpl in *.
  - split; [done|]. intros [Hall _].
    destruct Hskip as [(o & Ho & Hp) _]; [done|]. rewrite (Hall o Ho) in Hp. done.
  - rewrite (Hfirst eq_refl). split.
    + intros H. split; [|done]. intros o Ho.
      destruct (table_with "path" o.2) eqn:E; [|done].
      destruct Hskip as [_ Hs]. discriminate Hs. eauto.
    + by intros [_ H].
Qed.

(** ** The shared table, created *)

(** X14.  [ensure_workspace_deps] fails only on a [workspace] entry that is
    not a table.  Otherwise the document it leaves has a
    [workspace.dependencies] entry; the entries outside [workspace] and
    the entries the [workspace] table had keep their values; a document
    that has the entry already is returned as it is, a missing entry is
    created as an empty table, and a second call changes nothing. *)
Theorem ensure_workspace_deps_spec (rd : table) :
  match ensure_workspace_deps rd with
  | inl e =>
      e = TypeError ∧
      ∃ v, tget "workspace" rd = Some v ∧ is_table v = false
  | inr rd' =>
      (∀ k, k ≠ "workspace" → tget k rd' = tget k rd) ∧
      (∃ k ws', tget "workspace" rd' = Some (VTable k ws') ∧
         is_Some (tget "dependencies" ws') ∧
         ∀ k0 ws0, tget "workspace" rd = Some (VTable k0 ws0) →
           k = k0 ∧ ∀ key v, tget key ws0 = Some v → tget key ws' = Some v) ∧
      (is_Some (ws_deps rd) → rd' = rd) ∧
      (ws_deps rd = None → ws_deps rd' = Some (VTable Block [])) ∧
      ensure_workspace_deps rd' = inr rd'
  end.
Proof.
  destruct (ensure_workspace_deps rd) as [e|rd'] eqn:E.
  - revert E. unfold ensure_workspace_deps.
    destruct (thas "workspace" rd) eqn:Eh.
    + destruct (tget "workspace" rd) as [[| | | | |k ws]|] eqn:Ew;
        try (intros [= <-]; split; [done|]; eexists; split; done).
      * by destruct (thas "dependencies" ws).
      * unfold thas in Eh. by rewrite Ew in Eh.
    + rewrite tget_tset_eq. done.
  - pose proof (ensure_workspace_deps_inr rd rd' E) as (Hsome & Hext & Hnone & Hfr).
    split; [done|]. split; [|split; [|split; [done|]]].
    + revert E. unfold ensure_workspace_deps.
      destruct (thas "workspace" rd) eqn:Eh.
      * destruct (tget "workspace" rd) as [[| | | | |k ws]|] eqn:Ew; try done.
        destruct (thas "dependencies" ws) eqn:Ed; intros [= <-].
        -- exists k, ws. rewrite Ew. split; [done|]. split.
           ++ unfold thas in Ed. by destruct (tget "dependencies" ws).
           ++ by intros k0 ws0 [= <- <-].
        -- exists k, (tset "dependencies" (VTable Block []) ws).
           rewrite tget_tset_eq. split; [done|]. split.
           ++ rewrite tget_tset_eq. eauto.
           ++ intros k0 ws0 [= <- <-]. split; [done|]. intros key v Hv.
              rewrite tget_tset_ne; [done|]. intros <-.
              apply thas_false in Ed. congruence.
      * rewrite tget_tset_eq. simpl. intros [= <-]. rewrite tset_tset.
        exists Block, [("dependencies", VTable Block [])].
        rewrite tget_tset_eq. split; [done|]. split; [simpl; eauto|].
        intros k0 ws0 Hw. apply thas_false in Eh. congruence.
    + intros Hs. pose proof (ensure_workspace_deps_fixed rd Hs). congruence.
    + by apply ensure_workspace_deps_fixed.
Qed.

(** ** When [hoist] fails *)

Lemma parse_all_inl fs files : ∀ docs e,
  parse_all fs files docs = inl e →
  ∃ p, p ∈ files ∧
       ((e = FileNotFound p ∧ fs !! p = None) ∨
        (e = MalformedManifest p ∧ ∃ t, fs !! p = Some (Malformed t))).
Proof.
  induction files as [|q files IH]; intros docs e; simpl; [done|].
  destruct (fs !! q) as [[d|t]|] eqn:Eq; simpl.
  - intros (p & Hp & H)%IH. exists p. split; [by right | done].
  - intros [= <-]. exists q. split; [left|]. right. eauto.
  - intros [= <-]. exists q. split; [left|]. by left.
Qed.

Lemma ensure_workspace_deps_inl rd e :
  ensure_workspace_deps rd = inl e → e = TypeError ∧ shared_ok rd = false.
Proof.
  unfold ensure_workspace_deps, shared_ok.
  destruct (thas "workspace" rd) eqn:Eh.
  - destruct (tget "workspace" rd) as [[| | | | |k ws]|] eqn:Ew;
      try (by intros [= <-]).
    + by destruct (thas "dependencies" ws).
    + unfold thas in Eh. by rewrite Ew in Eh.
  - by rewrite tget_tset_eq.
Qed.

Lemma ensure_workspace_deps_table rd rd' :
  ensure_workspace_deps rd = inr rd' → shared_ok rd = true →
  ∃ k f, ws_deps rd' = Some (VTable k f).
Proof.
  intros E Hok.
  pose proof (ensure_workspace_deps_inr rd rd' E) as (_ & [_ Hext] & Hnone & _).
  destruct (ws_deps rd) as [w|] eqn:Ew; [|eauto].
  apply ws_deps_Some in Ew as (k & ws & Hws & Hw).
  unfold shared_ok in Hok. rewrite Hws, Hw in Hok.
  destruct w as [| | | | |k' f]; try done.
  destruct (Hext k' f) as (f' & Hf' & _); [done | eauto].
Qed.

Lemma mutate_occurrence_total dep version st o :
  ∃ st', mutate_occurrence dep version st o = inr st'.
Proof.
  destruct st as [docs u], o as [[sec p] spec]. unfold mutate_occurrence.
  destruct (as_block _) as [sect|]; [|eauto].
  unfold thas, mutate_member_dep.
  destruct (tget dep sect) as [[]|]; eauto.
Qed.

Lemma mutate_occurrences_total dep version os : ∀ st,
  ∃ st', for_each (mutate_occurrence dep version) os st = inr st'.
Proof.
  induction os as [|o os IH]; intros st; [by eexists|].
  rewrite for_each_cons.
  destruct (mutate_occurrence_total dep version st o) as [st1 ->]. apply IH.
Qed.

Lemma hoist_dep_total root_toml docs c dep occ k f :
  ws_deps (doc_at docs root_toml) = Some (VTable k f) →
  ∃ st', hoist_dep root_toml (docs, c) (dep, occ) = inr st'.
Proof.
  intros Hw. unfold hoist_dep. destruct (resolve occ) as [version|]; [|eauto].
  rewrite Hw. simpl.
  destruct (thas dep f).
  - destruct (mutate_occurrences_total dep version occ (docs, updated c))
      as [[docs2 u2] ->]. eauto.
  - apply ws_deps_Some in Hw as (k0 & ws & Hws & Hd).
    unfold ws_insert. rewrite Hws, Hd.
    match goal with |- context [for_each _ occ ?s] =>
      destruct (mutate_occurrences_total dep version occ s) as [[docs2 u2] ->] end.
    eauto.
Qed.

Lemma hoist_deps_total root_toml nd : ∀ docs c k f,
  (∀ dep occ o, (dep, occ) ∈ nd → o ∈ occ → o.1.1 ∈ SECTIONS) →
  ws_deps (doc_at docs root_toml) = Some (VTable k f) →
  ∃ st', for_each (hoist_dep root_toml) nd (docs, c) = inr st'.
Proof.
  induction nd as [|[dep occ] nd IH]; intros docs c k f Hsec Hw; [by eexists|].
  rewrite for_each_cons.
  destruct (hoist_dep_total root_toml docs c dep occ k f Hw) as [[docs1 c1] E].
  rewrite E.
  assert (ws_extends (doc_at docs root_toml) (doc_at docs1 root_toml)) as [_ Hext].
  { eapply hoist_dep_root; [|exact E]. intros o. apply (Hsec dep occ). left. }
  destruct (Hext k f Hw) as (f' & Hf' & _).
  apply (IH docs1 c1 k f'); [|done].
  intros d oc o Hin. apply (Hsec d oc). by right.
Qed.

(** The write phase of [hoist] cannot fail: the files it copies exist. *)
Lemma hoist_write_ok root clock fs needed docs c :
  let root_toml := root ++ ["Cargo.toml"] in
  let members := remove_first root_toml (find_cargo_tomls root fs) in
  is_Some (fs !! root_toml) →
  hoist_compute root_toml (root_toml :: members) fs = inr (needed, docs, c) →
  ∃ fs' m, hoist root false clock fs = (fs', inr (Report false c m)).
Proof.
  intros root_toml members Hroot Hc. unfold hoist. fold root_toml.
  destruct Hroot as [c0 Hc0]. rewrite Hc0. fold members. rewrite Hc.
  apply hoist_compute_inr in Hc as (docs0 & rd & Hparse & -> & _ & _).
  cbn [tail].
  pose proof (root_toml_manifest root) as Hrm. fold root_toml in Hrm.
  assert (Hps : Forall is_manifest (occurrence_paths (collect docs0 members))).
  { apply Forall_forall. intros p Hp%occurrence_paths_members.
    by eapply members_manifest. }
  assert (Hex : ∀ p, p ∈ occurrence_paths (collect docs0 members) → is_Some (fs !! p)).
  { intros p Hp%occurrence_paths_members%members_found.
    by apply find_cargo_tomls_manifest in Hp as []. }
  set (st0 := if bool_decide (added c ≠ 0) then _ else _).
  assert (∃ fs0 m0, st0 = inl (fs0, m0) ∧
            ∀ p, is_Some (fs !! p) → is_Some (fs0 !! p)) as (fs0 & m0 & -> & Hfs0).
  { unfold st0. case_bool_decide; [|by eexists _, _].
    destruct (backup_and_write_ok root clock docs root_toml fs []) as [[fs0 m0] E];
      [by rewrite Hc0|].
    exists fs0, m0. split; [done|].
    apply backup_and_write_inl in E as (c1 & _ & -> & _); [|done].
    intros p Hp. rewrite !lookup_insert_is_Some'. auto. }
  destruct (write_members_ok root clock docs root_toml
              (occurrence_paths (collect docs0 members)) [] fs0 m0 Hps)
    as [[fs' m] ->]; [by intros p Hp; apply Hfs0, Hex|].
  by exists fs', m.
Qed.

(** X15.  [hoist] writes nothing when it fails: whatever the error, the
    file system is as it was.  The error is the missing root manifest, a
    manifest among those read that does not parse, or a type error, which
    only a root manifest whose [workspace] entry or
    [workspace.dependencies] entry is present and not a table can cause. *)
Theorem hoist_fails_before_writing (root : path) (dry_run : bool)
    (clock : path → string) (fs fs' : fsys) (e : error) :
  hoist root dry_run clock fs = (fs', inl e) →
  fs' = fs ∧
  ((e = MissingRootManifest ∧ fs !! (root ++ ["Cargo.toml"]) = None) ∨
   (∃ p t, e = MalformedManifest p ∧ fs !! p = Some (Malformed t) ∧
           (p = root ++ ["Cargo.toml"] ∨ p ∈ find_cargo_tomls root fs)) ∨
   (e = TypeError ∧
    ∃ rd, fs !! (root ++ ["Cargo.toml"]) = Some (Toml rd) ∧ shared_ok rd = false)).
Proof.
  set (root_toml := root ++ ["Cargo.toml"]). unfold hoist. fold root_toml.
  destruct (fs !! root_toml) as [c0|] eqn:Er.
  2:{ intros [= <- <-]. split; [done|]. by left. }
  set (members := remove_first root_toml (find_cargo_tomls root fs)).
  destruct (hoist_compute root_toml (root_toml :: members) fs)
    as [e0|[[needed docs] c]] eqn:Ec.
  - intros [= <- <-]. split; [done|]. right. revert Ec. unfold hoist_compute.
    destruct (parse_all fs (root_toml :: members) ∅) as [e1|docs0] eqn:Ep.
    { intros [= <-]. left.
      apply parse_all_inl in Ep as (p & Hp & [[_ Hn]|[-> [t Ht]]]).
      - exfalso. apply elem_of_cons in Hp as [->|Hp%members_found]; [congruence|].
        apply find_cargo_tomls_manifest in Hp as [_ [? ?]]. congruence.
      - exists p, t. split; [done|]. split; [done|].
        apply elem_of_cons in Hp as [->|Hp%members_found]; auto. }
    destruct (parsed_docs root fs docs0 root_toml Ep) as (rd & Hrd & _ & Hdoc); [left|].
    fold root_toml in Hrd. rewrite Er in Hrd. injection Hrd as ->.
    rewrite Hdoc. cbn [tail].
    destruct (ensure_workspace_deps rd) as [e1|rd1] eqn:Ee.
    { intros [= <-]. right. apply ensure_workspace_deps_inl in Ee as [-> Hok].
      split; [done|]. by exists rd. }
    destruct (for_each _ _ _) as [e1|[docs' c']] eqn:El; [|done].
    intros [= <-]. right.
    destruct (shared_ok rd) eqn:Hok.
    + exfalso.
      destruct (ensure_workspace_deps_table rd rd1 Ee Hok) as (k & f & Hw).
      destruct (hoist_deps_total root_toml (collect docs0 members)
                  (<[root_toml := rd1]> docs0) (Counts 0 0 0) k f) as [st' Hst].
      * intros dep occ o. apply collect_sections.
      * by rewrite doc_at_insert, decide_True.
      * rewrite Hst in El. done.
    + revert El. generalize (collect docs0 members) (<[root_toml := rd1]> docs0, Counts 0 0 0).
      intros nd. induction nd as [|[dep occ] nd IH]; intros [docs1 c1]; [done|].
      rewrite for_each_cons.
      destruct (hoist_dep root_toml (docs1, c1) (dep, occ)) as [e2|st2] eqn:Ed.
      * intros [= <-]. split; [|by exists rd]. revert Ed. unfold hoist_dep.
        destruct (resolve occ) as [version|]; [|done].
        destruct (ws_deps _) as [w|]; [|by intros [= <-]].
        destruct (ws_contains dep w) as [e3|present] eqn:Ecn.
        { intros [= <-]. destruct w; simpl in Ecn; by simplify_eq. }
        destruct present.
        -- destruct (mutate_occurrences_total dep version occ (docs1, updated c1))
             as [[docs2 u2] ->]. done.
        -- destruct (ws_insert dep version (doc_at docs1 root_toml)) as [e3|rd3] eqn:Ei.
           ++ intros [= <-]. revert Ei. unfold ws_insert.
              destruct (tget "workspace" _) as [[| | | | |k0 ws0]|]; try (by intros [= <-]).
              destruct (tget "dependencies" ws0) as [[| | | | |k1 f1]|]; by intros [= <-].
           ++ match goal with |- context [for_each _ occ ?s] =>
                destruct (mutate_occurrences_total dep version occ s) as [[docs2 u2] ->] end.
              done.
      * apply IH.
  - destruct dry_run; [done|].
    destruct (hoist_write_ok root clock fs needed docs c) as (fs1 & m & Hrun);
      [by exists c0 | done |].
    unfold hoist in Hrun. fold root_toml in Hrun. rewrite Er in Hrun.
    fold members in Hrun. rewrite Ec in Hrun. rewrite Hrun. done.
Qed.

Lemma hoist_fails_before_writing_witness :
  let clock := λ _ : path, "20240101T000000Z" in
  let fs := <[ ["ws"; "Cargo.toml"] :=
                 Toml [("workspace", VTable Block [("dependencies", VStr "none")])] ]>
            (<[ ["ws"; "a"; "Cargo.toml"] :=
                  Toml [("dependencies", VTable Block [("serde", VStr "1.0")])] ]> ∅) in
  hoist ["ws"] false clock fs = (fs, inl TypeError) ∧
  fs = fs ∧
  ((TypeError = MissingRootManifest ∧ fs !! (["ws"] ++ ["Cargo.toml"]) = None) ∨
   (∃ p t, TypeError = MalformedManifest p ∧ fs !! p = Some (Malformed t) ∧
           (p = ["ws"] ++ ["Cargo.toml"] ∨ p ∈ find_cargo_tomls ["ws"] fs)) ∨
   (TypeError = TypeError ∧
    ∃ rd, fs !! (["ws"] ++ ["Cargo.toml"]) = Some (Toml rd) ∧ shared_ok rd = false)).
Proof.
  intros clock fs.
  assert (H : hoist ["ws"] false clock fs = (fs, inl TypeError))
    by (vm_compute; reflexivity).
  split; [exact H|].
  exact (hoist_fails_before_writing ["ws"] false clock fs fs TypeError H).
Defined.

(** X16.  A dry run of [hoist] changes no file and announces the outcome of
    the real run: the same error, or the same three counters. *)
Theorem hoist_dry_run_previews (root : path) (clock clock' : path → string)
    (fs : fsys) :
  (hoist root true clock fs).1 = fs ∧
  match (hoist root true clock fs).2 with
  | inl e => hoist root false clock' fs = (fs, inl e)
  | inr rep =>
      rep_dry rep = true ∧ rep_backups rep = [] ∧
      ∃ fs' m, hoist root false clock' fs =
                 (fs', inr (Report false (rep_counts rep) m))
  end.
Proof.
  pose proof (hoist_write_ok root clock' fs) as Hok. cbv zeta in Hok.
  unfold hoist in *.
  destruct (fs !! (root ++ ["Cargo.toml"])) as [c0|] eqn:Er; [|done].
  destruct (hoist_compute _ _ fs) as [e|[[needed docs] c]] eqn:Ec; [done|].
  simpl. split; [done|]. split; [done|]. split; [done|].
  destruct (Hok needed docs c) as (fs' & m & Hrun); [eauto | done |].
  by exists fs', m.
Qed.

(** ** The documents [hoist] reads *)

Lemma doc_at_disk fs p d : fs !! p = Some (Toml d) → doc_at (disk_docs fs) p = d.
Proof.
  intros H. unfold doc_at, disk_docs. by rewrite lookup_omap, H.
Qed.

Lemma all_occ_ext docs docs' members :
  (∀ p, p ∈ members → doc_at docs p = doc_at docs' p) →
  all_occ docs members = all_occ docs' members.
Proof.
  unfold all_occ. induction members as [|p members IH]; intros H; [done|].
  rewrite !bind_cons. rewrite IH by (intros q Hq; apply H; by right).
  f_equal. unfold section_occ. by rewrite (H p) by left.
Qed.

Lemma collect_ext docs docs' members :
  (∀ p, p ∈ members → doc_at docs p = doc_at docs' p) →
  collect docs members = collect docs' members.
Proof. intros H. by rewrite !collect_group, (all_occ_ext docs docs' members H). Qed.

Lemma parsed_members root fs docs0 :
  parse_all fs ((root ++ ["Cargo.toml"]) :: members_of root fs) ∅ = inr docs0 →
  ∀ p, p ∈ members_of root fs → doc_at docs0 p = doc_at (disk_docs fs) p.
Proof.
  intros Hparse p Hp.
  destruct (parsed_docs root fs docs0 p Hparse) as (d & Hd & _ & ->); [by right|].
  symmetry. by apply doc_at_disk.
Qed.

Lemma needed_of_NoDup root fs : NoDup (needed_of root fs).*1.
Proof. unfold needed_of. rewrite collect_group. apply group_spec. Qed.

(** ** What [hoist] adds to the shared table *)

Lemma tget_app k (l1 l2 : table) :
  tget k (l1 ++ l2) = match tget k l1 with Some v => Some v | None => tget k l2 end.
Proof.
  induction l1 as [|[k' v'] l1 IH]; simpl; [done|]. by destruct (decide (k = k')).
Qed.

Lemma thas_snoc_ne k k' v (f : table) : k ≠ k' → thas k (f ++ [(k', v)]) = thas k f.
Proof.
  intros Hne. unfold thas. rewrite tget_app. destruct (tget k f); [done|].
  simpl. by rewrite decide_False.
Qed.

Lemma new_entries_ext nd f f' :
  (∀ it, it ∈ nd → thas it.1 f = thas it.1 f') →
  new_entries nd f = new_entries nd f'.
Proof.
  unfold new_entries. induction nd as [|it nd IH]; intros H; [done|]. csimpl.
  rewrite IH by (intros x Hx; apply H; by right). by rewrite (H it) by left.
Qed.

Lemma new_entries_cons it nd f :
  new_entries (it :: nd) f = new_entries [it] f ++ new_entries nd f.
Proof.
  unfold new_entries. csimpl. destruct (resolve it.2); [|done].
  by destruct (thas it.1 f).
Qed.

Lemma hoist_dep_shared root_toml docs c dep occ docs' c' k f :
  (∀ o, o ∈ occ → o.1.1 ∈ SECTIONS) →
  ws_deps (doc_at docs root_toml) = Some (VTable k f) →
  hoist_dep root_toml (docs, c) (dep, occ) = inr (docs', c') →
  ws_deps (doc_at docs' root_toml) = Some (VTable k (f ++ new_entries [(dep, occ)] f)) ∧
  added c' = added c + length (new_entries [(dep, occ)] f) ∧
  skipped c' = skipped c + length (filter (λ it, resolve it.2 = None) [(dep, occ)]).
Proof.
  intros Hsec Hw. unfold hoist_dep, new_entries. rewrite filter_cons. csimpl.
  destruct (resolve occ) as [version|] eqn:Er.
  2:{ intros [= <- <-]. rewrite decide_True by done. simpl.
      rewrite app_nil_r. split; [done|]. split; lia. }
  rewrite decide_False by done. rewrite Hw. simpl.
  destruct (thas dep f) eqn:Eh.
  - destruct (for_each _ _ _) as [|[docs2 u2]] eqn:E; [done|].
    intros [= <- <-]. simpl. rewrite app_nil_r.
    rewrite (mutate_occurrences_root _ _ _ _ _ _ _ _ Hsec E).
    split; [done|]. split; lia.
  - destruct (ws_insert dep version (doc_at docs root_toml)) as [|rd'] eqn:Ei; [done|].
    destruct (for_each _ _ _) as [|[docs2 u2]] eqn:E; [done|].
    intros [= <- <-]. simpl.
    rewrite (mutate_occurrences_root _ _ _ _ _ _ _ _ Hsec E).
    rewrite doc_at_insert, decide_True by done.
    destruct (ws_insert_extends dep version _ rd' _ Hw) as (_ & k1 & f1 & Heq & Hrd');
      [by simpl; rewrite Eh | done |].
    injection Heq as <- <-. split; [done|]. split; lia.
Qed.

Lemma hoist_deps_shared root_toml nd : ∀ docs c docs' c' k f,
  NoDup nd.*1 →
  (∀ dep occ o, (dep, occ) ∈ nd → o ∈ occ → o.1.1 ∈ SECTIONS) →
  ws_deps (doc_at docs root_toml) = Some (VTable k f) →
  for_each (hoist_dep root_toml) nd (docs, c) = inr (docs', c') →
  ws_deps (doc_at docs' root_toml) = Some (VTable k (f ++ new_entries nd f)) ∧
  added c' = added c + length (new_entries nd f) ∧
  skipped c' = skipped c + length (filter (λ it, resolve it.2 = None) nd).
Proof.
  induction nd as [|[dep occ] nd IH]; intros docs c docs' c' k f Hnd Hsec Hw.
  { intros [= <- <-]. simpl. rewrite app_nil_r. split; [done|]. split; lia. }
  rewrite fmap_cons in Hnd. apply NoDup_cons in Hnd as [Hdep Hnd]. simpl in Hdep.
  rewrite for_each_cons.
  destruct (hoist_dep root_toml (docs, c) (dep, occ)) as [e|[docs1 c1]] eqn:E; [done|].
  assert (Hsec0 : ∀ o, o ∈ occ → o.1.1 ∈ SECTIONS)
    by (intros o; apply (Hsec dep occ); left).
  assert (Hsec' : ∀ d oc o, (d, oc) ∈ nd → o ∈ oc → o.1.1 ∈ SECTIONS)
    by (intros d oc o Hin; apply (Hsec d oc); by right).
  destruct (hoist_dep_shared _ _ _ _ _ _ _ k f Hsec0 Hw E) as (Hw1 & Ha1 & Hs1).
  intros Hrest.
  destruct (IH docs1 c1 docs' c' k _ Hnd Hsec' Hw1 Hrest) as (Hw2 & Ha2 & Hs2).
  assert (Hext : new_entries nd (f ++ new_entries [(dep, occ)] f) = new_entries nd f).
  { apply new_entries_ext. intros [d oc] Hin. simpl.
    assert (d ≠ dep) as Hne.
    { intros ->. apply Hdep. by apply (list_elem_of_fmap_2 fst) in Hin. }
    unfold new_entries. csimpl. destruct (resolve occ); [|by rewrite app_nil_r].
    destruct (thas dep f); [by rewrite app_nil_r|]. simpl. by apply thas_snoc_ne. }
  rewrite Hext in Hw2, Ha2.
  rewrite (new_entries_cons (dep, occ) nd f).
  rewrite filter_cons in *. rewrite length_app, app_assoc.
  split; [done|]. split; [lia|].
  rewrite filter_nil in Hs1.
  destruct (decide (resolve (dep, occ).2 = None)); simpl in *; lia.
Qed.

Lemma shared_entries_ensured rd rd1 :
  ensure_workspace_deps rd = inr rd1 → shared_ok rd = true →
  ∃ k, ws_deps rd1 = Some (VTable k (shared_entries rd)).
Proof.
  intros E Hok. unfold shared_entries.
  pose proof (ensure_workspace_deps_inr rd rd1 E) as (_ & _ & Hnone & _).
  destruct (ws_deps rd) as [w|] eqn:Ew.
  - rewrite ensure_workspace_deps_fixed in E by (by rewrite Ew).
    injection E as <-. apply ws_deps_Some in Ew as (k & ws & Hws & Hw).
    unfold shared_ok in Hok. rewrite Hws, Hw in Hok.
    destruct w as [| | | | |k' f]; try done. exists k'.
    apply ws_deps_Some. eauto.
  - exists Block. by apply Hnone.
Qed.

Lemma root_frame_refl rd : root_frame rd rd.
Proof. split; [done|]. intros k0 ws0 H. eauto. Qed.

Lemma root_frame_trans rd1 rd2 rd3 :
  root_frame rd1 rd2 → root_frame rd2 rd3 → root_frame rd1 rd3.
Proof.
  intros [H1 H1'] [H2 H2']. split.
  - intros k Hk. by rewrite H2, H1.
  - intros k0 ws0 Hw. destruct (H1' k0 ws0 Hw) as (ws1 & Hw1 & Hf1).
    destruct (H2' k0 ws1 Hw1) as (ws2 & Hw2 & Hf2).
    exists ws2. split; [done|]. intros key Hkey. by rewrite Hf2, Hf1.
Qed.

Lemma ensure_root_frame rd rd1 :
  ensure_workspace_deps rd = inr rd1 → root_frame rd rd1.
Proof.
  unfold ensure_workspace_deps. destruct (thas "workspace" rd) eqn:Eh.
  - destruct (tget "workspace" rd) as [[| | | | |k ws]|] eqn:Ew; try done.
    destruct (thas "dependencies" ws) eqn:Ed; intros [= <-];
      [apply root_frame_refl|]. split.
    + intros k' Hk. by apply tget_tset_ne.
    + intros k0 ws0 Hw. rewrite Ew in Hw. injection Hw as <- <-.
      eexists. rewrite tget_tset_eq. split; [done|].
      intros key Hkey. by apply tget_tset_ne.
  - rewrite tget_tset_eq. simpl. intros [= <-]. rewrite tset_tset. split.
    + intros k' Hk. by apply tget_tset_ne.
    + intros k0 ws0 Hw. apply thas_false in Eh. congruence.
Qed.

Lemma ws_insert_root_frame dep version rd rd' :
  ws_insert dep version rd = inr rd' → root_frame rd rd'.
Proof.
  unfold ws_insert. destruct (tget "workspace" rd) as [[| | | | |k ws]|] eqn:Ew; try done.
  destruct (tget "dependencies" ws) as [[| | | | |k' f]|] eqn:Ed; try done.
  intros [= <-]. split.
  - intros k0 Hk. by apply tget_tset_ne.
  - intros k0 ws0 Hw. rewrite Ew in Hw. injection Hw as <- <-.
    eexists. rewrite tget_tset_eq. split; [done|].
    intros key Hkey. by apply tget_tset_ne.
Qed.

Lemma mutate_occurrence_other dep version docs u o docs' u' q :
  mutate_occurrence dep version (docs, u) o = inr (docs', u') →
  q ≠ o.1.2 → docs' !! q = docs !! q.
Proof.
  destruct o as [[sec p] spec]. simpl. unfold mutate_occurrence.
  destruct (as_block _) as [sect|]; [|by intros [= <- _]].
  destruct (thas dep sect); [|by intros [= <- _]].
  destruct (mutate_member_dep sect dep version); [|done].
  intros [= <- _] Hq. by apply lookup_insert_ne.
Qed.

Lemma mutate_occurrences_other dep version os q : ∀ docs u docs' u',
  for_each (mutate_occurrence dep version) os (docs, u) = inr (docs', u') →
  (∀ o, o ∈ os → q ≠ o.1.2) → docs' !! q = docs !! q.
Proof.
  induction os as [|o os IH]; intros docs u docs' u'.
  { by intros [= <- _]. }
  rewrite for_each_cons.
  destruct (mutate_occurrence dep version (docs, u) o) as [e|[docs1 u1]] eqn:E; [done|].
  intros H Hq. rewrite (IH _ _ _ _ H) by (intros; apply Hq; by right).
  eapply mutate_occurrence_other; [exact E|]. apply Hq. left.
Qed.

Lemma hoist_dep_root_frame root_toml docs c dep occ docs' c' :
  (∀ o, o ∈ occ → root_toml ≠ o.1.2) →
  hoist_dep root_toml (docs, c) (dep, occ) = inr (docs', c') →
  root_frame (doc_at docs root_toml) (doc_at docs' root_toml).
Proof.
  intros Hp. unfold hoist_dep.
  destruct (resolve occ) as [version|]; [|intros [= <- _]; apply root_frame_refl].
  destruct (ws_deps _) as [w|]; [|done].
  destruct (ws_contains dep w) as [e|[|]]; [done| |].
  - destruct (for_each _ _ _) as [|[docs2 u2]] eqn:E; [done|].
    intros [= <- _]. unfold doc_at.
    rewrite (mutate_occurrences_other _ _ _ _ _ _ _ _ E Hp). apply root_frame_refl.
  - destruct (ws_insert _ _ _) as [|rd'] eqn:Ei; [done|].
    destruct (for_each _ _ _) as [|[docs2 u2]] eqn:E; [done|].
    intros [= <- _]. unfold doc_at at 2.
    rewrite (mutate_occurrences_other _ _ _ _ _ _ _ _ E Hp).
    rewrite lookup_insert_eq. simpl. by eapply ws_insert_root_frame.
Qed.

Lemma hoist_deps_root_frame root_toml nd : ∀ docs c docs' c',
  (∀ dep occ o, (dep, occ) ∈ nd → o ∈ occ → root_toml ≠ o.1.2) →
  for_each (hoist_dep root_toml) nd (docs, c) = inr (docs', c') →
  root_frame (doc_at docs root_toml) (doc_at docs' root_toml).
Proof.
  induction nd as [|[dep occ] nd IH]; intros docs c docs' c' Hp.
  { intros [= <- _]. apply root_frame_refl. }
  rewrite for_each_cons.
  destruct (hoist_dep root_toml (docs, c) (dep, occ)) as [e|[docs1 c1]] eqn:E; [done|].
  intros H. eapply root_frame_trans.
  - eapply hoist_dep_root_frame; [|exact E]. intros o. apply (Hp dep occ). left.
  - eapply IH; [|exact H]. intros d oc o Hin. apply (Hp d oc). by right.
Qed.

Lemma collect_paths docs members dep occ o :
  (dep, occ) ∈ collect docs members → o ∈ occ → o.1.2 ∈ members.
Proof.
  rewrite collect_group. intros Hin Ho.
  destruct (group_spec (all_occ docs members)) as (_ & _ & H).
  rewrite (H _ _ Hin) in Ho. apply elem_of_occs_of in Ho.
  destruct o as [[sec p] spec]. by apply elem_of_all_occ in Ho as (? & _).
Qed.

(** The state of a completed [hoist] run, in terms of the tree. *)
Lemma hoist_run_state root clock fs fs' rep rd :
  hoist root false clock fs = (fs', inr rep) →
  fs !! (root ++ ["Cargo.toml"]) = Some (Toml rd) →
  ∃ docs0 rd1 docs,
    parse_all fs ((root ++ ["Cargo.toml"]) :: members_of root fs) ∅ = inr docs0 ∧
    collect docs0 (members_of root fs) = needed_of root fs ∧
    all_occ docs0 (members_of root fs) = all_occ (disk_docs fs) (members_of root fs) ∧
    ensure_workspace_deps rd = inr rd1 ∧
    for_each (hoist_dep (root ++ ["Cargo.toml"])) (needed_of root fs)
             (<[root ++ ["Cargo.toml"] := rd1]> docs0, Counts 0 0 0)
      = inr (docs, rep_counts rep).
Proof.
  intros Hrun Hrd.
  pose proof Hrun as (docs0 & rd1 & docs & Hparse & Hens & Hloop & _)%hoist_disk.
  cbv zeta in *. fold (members_of root fs) in *.
  exists docs0, rd1, docs. split; [done|].
  pose proof (parsed_members root fs docs0 Hparse) as Hdocs.
  assert (collect docs0 (members_of root fs) = needed_of root fs) as Hcol
    by (by apply collect_ext).
  split; [done|]. split; [by apply all_occ_ext|]. split.
  - destruct (parsed_docs root fs docs0 (root ++ ["Cargo.toml"]) Hparse)
      as (d & Hd & _ & Hdoc); [left|].
    rewrite Hdoc in Hens. congruence.
  - by rewrite <- Hcol.
Qed.

(** X17.  What a completed [hoist] run adds to the shared table of a root
    manifest whose shared table is a table or is missing: one entry for
    each collected name that resolves and is not yet in the table, in
    collection order, mapped to the version resolved, after the entries
    the table had.  [added] is their number; when there is none the root
    manifest is not written, and otherwise nothing else changes in it
    outside [workspace.dependencies]. *)
Theorem hoist_shared_table (root : path) (clock : path → string)
    (fs fs' : fsys) (rep : report) (rd : table) :
  hoist root false clock fs = (fs', inr rep) →
  fs !! (root ++ ["Cargo.toml"]) = Some (Toml rd) →
  shared_ok rd = true →
  let new := new_entries (needed_of root fs) (shared_entries rd) in
  added (rep_counts rep) = length new ∧
  match new with
  | [] => fs' !! (root ++ ["Cargo.toml"]) = Some (Toml rd)
  | _ =>
      ∃ rd' kind,
        fs' !! (root ++ ["Cargo.toml"]) = Some (Toml rd') ∧
        ws_deps rd' = Some (VTable kind (shared_entries rd ++ new)) ∧
        (∀ k, k ≠ "workspace" → tget k rd' = tget k rd) ∧
        ∀ k0 ws0, tget "workspace" rd = Some (VTable k0 ws0) →
          ∃ ws', tget "workspace" rd' = Some (VTable k0 ws') ∧
                 ∀ key, key ≠ "dependencies" → tget key ws' = tget key ws0
  end.
Proof.
  intros Hrun Hrd Hok new.
  destruct (hoist_run_state root clock fs fs' rep rd Hrun Hrd)
    as (docs0 & rd1 & docs & Hparse & Hcol & _ & Hens & Hloop).
  set (root_toml := root ++ ["Cargo.toml"]) in *.
  destruct (shared_entries_ensured rd rd1 Hens Hok) as [kind Hw1].
  destruct (hoist_deps_shared root_toml (needed_of root fs)
              (<[root_toml := rd1]> docs0) (Counts 0 0 0) docs (rep_counts rep)
              kind (shared_entries rd)) as (Hw & Ha & _).
  { apply needed_of_NoDup. }
  { rewrite <- Hcol. intros dep occ o. apply collect_sections. }
  { by rewrite doc_at_insert, decide_True. }
  { done. }
  fold new in Hw, Ha. simpl in Ha. split; [done|].
  apply hoist_disk in Hrun as (docs0' & rd1' & docs' & Hparse' & Hens' & Hloop' & Hroot & _).
  cbv zeta in *. fold (members_of root fs) in *. fold root_toml in Hparse', Hens', Hloop', Hroot.
  assert (docs0' = docs0) as -> by congruence.
  assert (rd1' = rd1) as ->.
  { destruct (parsed_docs root fs docs0 root_toml Hparse) as (d & Hd & _ & Hdoc); [left|].
    rewrite Hdoc in Hens'. fold root_toml in Hd. congruence. }
  rewrite Hcol in Hloop'. assert (docs' = docs) as -> by congruence.
  destruct new as [|x new'] eqn:Enew.
  - rewrite bool_decide_false in Hroot by (simpl in Ha; lia).
    by rewrite Hroot.
  - rewrite bool_decide_true in Hroot by (simpl in Ha; lia).
    destruct Hroot as (_ & Hdisk & _).
    exists (doc_at docs root_toml), kind. split; [done|]. split; [done|].
    assert (root_frame rd (doc_at docs root_toml)) as [Hf1 Hf2]; [|done].
    eapply root_frame_trans; [by apply ensure_root_frame|].
    apply hoist_deps_root_frame in Hloop.
    + by rewrite doc_at_insert, decide_True in Hloop.
    + rewrite <- Hcol. intros dep occ o Hin Ho Heq.
      apply (collect_paths _ _ _ _ _ Hin) in Ho. rewrite <- Heq in Ho.
      by apply (root_not_member root fs) in Ho.
Qed.

Lemma hoist_shared_table_witness :
  let clock := λ _ : path, "20240101T000000Z" in
  let rd := [("workspace",
              VTable Block
                [("members", VArr [VStr "a"]);
                 ("dependencies", VTable Block [("serde", VStr "1.0.100")])])] in
  let rep := Report false (Counts 1 2 0)
               [(["Cargo.toml"], "Cargo.toml.bak");
                (["a"; "Cargo.toml"], "Cargo.toml.bak")] in
  let fs' := (hoist ["ws"] false clock fs_shared).1 in
  hoist ["ws"] false clock fs_shared = (fs', inr rep) ∧
  fs_shared !! (["ws"] ++ ["Cargo.toml"]) = Some (Toml rd) ∧
  shared_ok rd = true ∧
  new_entries (needed_of ["ws"] fs_shared) (shared_entries rd) = [("log", VStr "0.4")] ∧
  let new := new_entries (needed_of ["ws"] fs_shared) (shared_entries rd) in
  added (rep_counts rep) = length new ∧
  match new with
  | [] => fs' !! (["ws"] ++ ["Cargo.toml"]) = Some (Toml rd)
  | _ =>
      ∃ rd' kind,
        fs' !! (["ws"] ++ ["Cargo.toml"]) = Some (Toml rd') ∧
        ws_deps rd' = Some (VTable kind (shared_entries rd ++ new)) ∧
        (∀ k, k ≠ "workspace" → tget k rd' = tget k rd) ∧
        ∀ k0 ws0, tget "workspace" rd = Some (VTable k0 ws0) →
          ∃ ws', tget "workspace" rd' = Some (VTable k0 ws') ∧
                 ∀ key, key ≠ "dependencies" → tget key ws' = tget key ws0
  end.
Proof.
  intros clock rd rep fs'.
  assert (H1 : hoist ["ws"] false clock fs_shared = (fs', inr rep))
    by (vm_compute; reflexivity).
  assert (H2 : fs_shared !! (["ws"] ++ ["Cargo.toml"]) = Some (Toml rd))
    by (vm_compute; reflexivity).
  assert (H3 : shared_ok rd = true) by reflexivity.
  split; [exact H1|]. split; [exact H2|]. split; [exact H3|].
  split; [by vm_compute|].
  exact (hoist_shared_table ["ws"] clock fs_shared fs' rep rd H1 H2 H3).
Defined.

(** ** The counters of [hoist] *)

Lemma hoist_dep_skipped root_toml docs c dep occ docs' c' :
  hoist_dep root_toml (docs, c) (dep, occ) = inr (docs', c') →
  skipped c' = skipped c + length (filter (λ it, resolve it.2 = None) [(dep, occ)]).
Proof.
  unfold hoist_dep. rewrite filter_cons, filter_nil. cbn [snd].
  destruct (resolve occ) as [version|] eqn:Er.
  - rewrite decide_False by done.
    destruct (ws_deps _) as [w|]; [|done].
    destruct (ws_contains dep w) as [e|[|]]; [done| |].
    + destruct (for_each (mutate_occurrence dep version) occ _) as [|[docs2 u2]];
        [done|]. intros [= <- <-]. simpl. lia.
    + destruct (ws_insert _ _ _); [done|].
      destruct (for_each (mutate_occurrence dep version) occ _) as [|[docs2 u2]];
        [done|]. intros [= <- <-]. simpl. lia.
  - rewrite decide_True by done. intros [= <- <-]. simpl. lia.
Qed.

Lemma hoist_deps_skipped root_toml nd : ∀ docs c docs' c',
  for_each (hoist_dep root_toml) nd (docs, c) = inr (docs', c') →
  skipped c' = skipped c + length (filter (λ it, resolve it.2 = None) nd).
Proof.
  induction nd as [|[dep occ] nd IH]; intros docs c docs' c'.
  { intros [= <- <-]. simpl. lia. }
  rewrite for_each_cons.
  destruct (hoist_dep root_toml (docs, c) (dep, occ)) as [e|[docs1 c1]] eqn:E; [done|].
  intros H. rewrite (IH _ _ _ _ H). apply hoist_dep_skipped in E. rewrite E.
  rewrite !filter_cons, filter_nil.
  destruct (decide (resolve (dep, occ).2 = None)); simpl; lia.
Qed.

Lemma resolved_declarations_cons it nd :
  resolved_declarations (it :: nd) =
  resolved_declarations [it] + resolved_declarations nd.
Proof. unfold resolved_declarations. csimpl. lia. Qed.

Section hoist_counts.
Variables (docs0 : gmap path table) (members : list path) (root_toml : path).
Hypothesis Hrnm : root_toml ∉ members.
Hypothesis Hmnd : NoDup members.
Hypothesis Hwf : ∀ p sec tbl,
  p ∈ members → sec ∈ SECTIONS → view docs0 p sec = Some tbl → uniq_keys tbl.

Lemma hoist_dep_updated dep docs c done docs' c' :
  Inv docs0 members docs done →
  (∀ p sec, (p, sec, dep) ∉ done) →
  hoist_dep root_toml (docs, c) (dep, occs_of dep (all_occ docs0 members))
    = inr (docs', c') →
  updated c' = updated c + resolved_declarations [(dep, occs_of dep (all_occ docs0 members))].
Proof.
  intros HI Hfresh. unfold hoist_dep, resolved_declarations. simpl.
  destruct (resolve _) as [version|] eqn:Er; [|intros [= <- <-]; simpl; lia].
  destruct (ws_deps _) as [w|] eqn:Ew; [|done].
  destruct (ws_contains dep w) as [e|present] eqn:Ec; [done|].
  assert (Hloop : ∀ docs1, Inv docs0 members docs1 done →
            ∃ docs2, for_each (mutate_occurrence dep version)
                       (occs_of dep (all_occ docs0 members)) (docs1, updated c) =
                     inr (docs2, length (occs_of dep (all_occ docs0 members)) + updated c)).
  { intros docs1 HI1.
    destruct (mutate_loop docs0 members Hwf dep version
                (occs_of dep (all_occ docs0 members)) docs1 (updated c) done)
      as (docs2 & done2 & Hrun & _); [done| | | |eauto].
    - by apply occs_of_positions_NoDup.
    - intros o. by rewrite elem_of_occs_of.
    - intros o _. apply Hfresh. }
  destruct present.
  - destruct (Hloop docs HI) as [docs2 ->]. intros [= <- <-]. simpl. lia.
  - destruct (ws_insert _ _ _) as [|rd'] eqn:Ei; [done|].
    destruct (Hloop (<[root_toml := rd']> docs)) as [docs2 ->];
      [by apply Inv_root_insert|].
    intros [= <- <-]. simpl. lia.
Qed.

Lemma hoist_loop_updated nd : ∀ docs c done docs' c',
  Inv docs0 members docs done → NoDup nd.*1 →
  (∀ dep occ, (dep, occ) ∈ nd → occ = occs_of dep (all_occ docs0 members)) →
  (∀ p sec dep, (p, sec, dep) ∈ done → dep ∉ nd.*1) →
  for_each (hoist_dep root_toml) nd (docs, c) = inr (docs', c') →
  updated c' = updated c + resolved_declarations nd.
Proof.
  induction nd as [|[dep occ] nd IH]; intros docs c done docs' c' HI Hnd Hocc Hfresh.
  { intros [= <- <-]. unfold resolved_declarations. simpl. lia. }
  rewrite for_each_cons. rewrite fmap_cons in Hnd.
  apply NoDup_cons in Hnd as [Hdep Hnd]. simpl in Hdep.
  rewrite (Hocc dep occ) by left.
  destruct (hoist_dep root_toml (docs, c) _) as [e|[docs1 c1]] eqn:Estep; [done|].
  assert (Hfr0 : ∀ p sec, (p, sec, dep) ∉ done).
  { intros p sec Hin. apply (Hfresh _ _ _ Hin). left. }
  pose proof (hoist_dep_updated dep docs c done docs1 c1 HI Hfr0 Estep) as Hu1.
  destruct (hoist_dep_step docs0 members root_toml Hrnm Hmnd Hwf
              dep docs c done docs1 c1 HI Hfr0 Estep)
    as (done1 & HI1 & Hmem1 & _).
  intros Hrest.
  rewrite (IH docs1 c1 done1 docs' c' HI1 Hnd); [| | |done].
  - rewrite Hu1, (resolved_declarations_cons _ nd). lia.
  - intros d o Hin. apply Hocc. by right.
  - intros p sec d [Hin|[_ (o & _ & [= -> -> ->])]]%Hmem1.
    + intros Hd. apply (Hfresh _ _ _ Hin). by right.
    + done.
Qed.

End hoist_counts.

Lemma Inv_init docs0 members : Inv docs0 members docs0 [].
Proof.
  intros p sec Hp Hsec. destruct (view docs0 p sec) as [tbl|]; [|done].
  simpl. f_equal. rewrite <- (rw_tbl_none tbl) at 1. apply rw_tbl_ext.
  intros kv _ _. unfold sel_of. symmetry. apply bool_decide_eq_false.
  apply not_elem_of_nil.
Qed.

Lemma wf_members root fs docs0 :
  wf_fs fs →
  parse_all fs ((root ++ ["Cargo.toml"]) :: members_of root fs) ∅ = inr docs0 →
  ∀ p sec tbl, p ∈ members_of root fs → sec ∈ SECTIONS →
               view docs0 p sec = Some tbl → uniq_keys tbl.
Proof.
  intros Hwf Hparse p sec tbl Hp Hsec Hv.
  destruct (parsed_docs root fs docs0 p Hparse) as (d & Hd & _ & Hd0); [by right|].
  unfold view in Hv. rewrite Hd0 in Hv. by eapply Hwf.
Qed.

(** X18.  The counters of a completed [hoist] run on a tree whose
    dependency sections have distinct names: [skipped] counts names, one
    for each collected name that does not resolve, whatever the number of
    its declarations; [updated] counts declarations, all the collected
    declarations of the names that resolve. *)
Theorem hoist_counters (root : path) (clock : path → string)
    (fs fs' : fsys) (rep : report) :
  wf_fs fs →
  hoist root false clock fs = (fs', inr rep) →
  NoDup (needed_of root fs).*1 ∧
  skipped (rep_counts rep) =
    length (filter (λ it, resolve it.2 = None) (needed_of root fs)) ∧
  updated (rep_counts rep) = resolved_declarations (needed_of root fs).
Proof.
  intros Hwf Hrun. split; [apply needed_of_NoDup|].
  apply hoist_disk in Hrun as (docs0 & rd1 & docs & Hparse & Hens & Hloop & _).
  cbv zeta in *. fold (members_of root fs) in *.
  set (root_toml := root ++ ["Cargo.toml"]) in *.
  assert (collect docs0 (members_of root fs) = needed_of root fs) as Hcol.
  { apply collect_ext. by apply parsed_members. }
  split.
  - rewrite Hcol in Hloop. by apply hoist_deps_skipped in Hloop.
  - rewrite <- Hcol. rewrite collect_group in *.
    destruct (group_spec (all_occ docs0 (members_of root fs))) as (Hkeys & _ & Hg).
    apply (hoist_loop_updated docs0 (members_of root fs) root_toml) with (done := [])
      in Hloop; [done|..].
    + apply root_not_member.
    + apply members_NoDup.
    + by apply wf_members.
    + apply Inv_root_insert; [apply root_not_member | apply Inv_init].
    + done.
    + done.
    + by intros p sec dep ?%elem_of_nil.
Qed.

Lemma hoist_counters_witness :
  let clock := λ _ : path, "20240101T000000Z" in
  let fs' := (hoist ["ws"] false clock fs_two_members).1 in
  let rep := Report false (Counts 1 2 1)
               [(["Cargo.toml"], "Cargo.toml.bak");
                (["a"; "Cargo.toml"], "Cargo.toml.bak");
                (["b"; "Cargo.toml"], "Cargo.toml.bak")] in
  wf_fs fs_two_members ∧
  hoist ["ws"] false clock fs_two_members = (fs', inr rep) ∧
  NoDup (needed_of ["ws"] fs_two_members).*1 ∧
  skipped (rep_counts rep) =
    length (filter (λ it, resolve it.2 = None) (needed_of ["ws"] fs_two_members)) ∧
  updated (rep_counts rep) = resolved_declarations (needed_of ["ws"] fs_two_members).
Proof.
  intros clock fs' rep.
  assert (Hrun : hoist ["ws"] false clock fs_two_members = (fs', inr rep))
    by (vm_compute; reflexivity).
  split; [exact wf_fs_two_members|]. split; [exact Hrun|].
  exact (hoist_counters ["ws"] clock fs_two_members fs' rep wf_fs_two_members Hrun).
Defined.

(** ** The member documents [hoist] writes *)

Lemma doc_frame_refl d : doc_frame d d.
Proof. by split. Qed.

Lemma doc_frame_trans d1 d2 d3 : doc_frame d1 d2 → doc_frame d2 d3 → doc_frame d1 d3.
Proof.
  intros [K1 F1] [K2 F2]. split; [congruence|].
  intros k Hk. rewrite <- (F1 k Hk). apply F2.
  destruct Hk as [?|Hk]; [by left|]. right. by rewrite (F1 k (or_intror Hk)).
Qed.

Lemma mutate_occurrence_frame dep version docs u o docs' u' q :
  o.1.1 ∈ SECTIONS →
  mutate_occurrence dep version (docs, u) o = inr (docs', u') →
  doc_frame (doc_at docs q) (doc_at docs' q).
Proof.
  destruct o as [[sec p] spec]. simpl. intros Hsec. unfold mutate_occurrence.
  destruct (as_block _) as [sect|] eqn:Eb; [|intros [= <- _]; apply doc_frame_refl].
  destruct (thas dep sect); [|intros [= <- _]; apply doc_frame_refl].
  destruct (mutate_member_dep sect dep version) as [sect'|]; [|done].
  intros [= <- _]. rewrite doc_at_insert.
  destruct (decide (p = q)) as [<-|]; [|apply doc_frame_refl].
  split.
  - apply tset_present. apply as_block_Some in Eb. unfold thas. by rewrite Eb.
  - intros k Hk. apply tget_tset_ne. intros <-.
    destruct Hk as [Hk|Hk]; [done | congruence].
Qed.

Lemma mutate_occurrences_frame dep version os q : ∀ docs u docs' u',
  (∀ o, o ∈ os → o.1.1 ∈ SECTIONS) →
  for_each (mutate_occurrence dep version) os (docs, u) = inr (docs', u') →
  doc_frame (doc_at docs q) (doc_at docs' q).
Proof.
  induction os as [|o os IH]; intros docs u docs' u' Hsec.
  { intros [= <- _]. apply doc_frame_refl. }
  rewrite for_each_cons.
  destruct (mutate_occurrence dep version (docs, u) o) as [e|[docs1 u1]] eqn:E; [done|].
  intros H. eapply doc_frame_trans.
  - eapply mutate_occurrence_frame; [|exact E]. apply Hsec. left.
  - eapply IH; [|exact H]. intros o' Ho'. apply Hsec. by right.
Qed.

Lemma hoist_dep_frame root_toml docs c dep occ docs' c' q :
  (∀ o, o ∈ occ → o.1.1 ∈ SECTIONS) → q ≠ root_toml →
  hoist_dep root_toml (docs, c) (dep, occ) = inr (docs', c') →
  doc_frame (doc_at docs q) (doc_at docs' q).
Proof.
  intros Hsec Hq. unfold hoist_dep.
  destruct (resolve occ) as [version|]; [|intros [= <- _]; apply doc_frame_refl].
  destruct (ws_deps _) as [w|]; [|done].
  destruct (ws_contains dep w) as [e|[|]]; [done| |].
  - destruct (for_each (mutate_occurrence dep version) occ _)
      as [|[docs2 u2]] eqn:E; [done|].
    intros [= <- _]. by eapply mutate_occurrences_frame.
  - destruct (ws_insert _ _ _) as [|rd'] eqn:Ei; [done|].
    destruct (for_each (mutate_occurrence dep version) occ _)
      as [|[docs2 u2]] eqn:E; [done|].
    intros [= <- _].
    pose proof (mutate_occurrences_frame _ _ _ q _ _ _ _ Hsec E) as Hf.
    by rewrite doc_at_insert, decide_False in Hf.
Qed.

Lemma hoist_deps_frame root_toml nd q : ∀ docs c docs' c',
  (∀ dep occ o, (dep, occ) ∈ nd → o ∈ occ → o.1.1 ∈ SECTIONS) → q ≠ root_toml →
  for_each (hoist_dep root_toml) nd (docs, c) = inr (docs', c') →
  doc_frame (doc_at docs q) (doc_at docs' q).
Proof.
  induction nd as [|[dep occ] nd IH]; intros docs c docs' c' Hsec Hq.
  { intros [= <- _]. apply doc_frame_refl. }
  rewrite for_each_cons.
  destruct (hoist_dep root_toml (docs, c) (dep, occ)) as [e|[docs1 c1]] eqn:E; [done|].
  intros H. eapply doc_frame_trans.
  - eapply hoist_dep_frame; [|done|exact E]. intros o. apply (Hsec dep occ). left.
  - eapply IH; [|done|exact H]. intros d oc o Hin. apply (Hsec d oc). by right.
Qed.

(** X19.  The member manifests after a completed [hoist] run on a tree
    whose dependency sections have distinct names.  Each member keeps its
    top-level names in their order; outside the three dependency sections
    nothing changes; in a dependency section that is a table the names
    keep their order, and a declaration is rewritten exactly when its name
    resolves and it is not flagged [workspace] already: its version goes
    and [workspace = true] comes, as [mutate_member_dep] does. *)
Theorem hoist_rewrites_members (root : path) (clock : path → string)
    (fs fs' : fsys) (rep : report) (p : path) (d : table) :
  wf_fs fs →
  hoist root false clock fs = (fs', inr rep) →
  p ∈ members_of root fs → fs !! p = Some (Toml d) →
  ∃ d', fs' !! p = Some (Toml d') ∧ keys d' = keys d ∧
    ∀ k, tget k d' =
      match as_block (tget k d) with
      | Some tbl =>
          if bool_decide (k ∈ SECTIONS)
          then Some (VTable Block (rw_tbl (hoisted root fs) tbl))
          else tget k d
      | None => tget k d
      end.
Proof.
  intros Hwf Hrun Hp Hd.
  pose proof Hrun as (docs0 & rd1 & docs & Hparse & Hens & Hloop & _ & Hmemf & _)%hoist_disk.
  cbv zeta in *. fold (members_of root fs) in *.
  set (root_toml := root ++ ["Cargo.toml"]) in *.
  pose proof (root_not_member root fs) as Hrnm.
  fold root_toml in Hrnm. fold (members_of root fs) in Hrnm.
  assert (Hne : p ≠ root_toml) by (by intros ->).
  destruct (parsed_docs root fs docs0 p Hparse) as (d0 & Hd0 & _ & Hdoc0); [by right|].
  assert (d0 = d) as -> by congruence.
  pose proof (first_run_views docs0 (members_of root fs) root_toml rd1 docs _
                Hrnm (members_NoDup root fs) (wf_members root fs docs0 Hwf Hparse) Hloop)
    as Hviews.
  rewrite (all_occ_ext docs0 (disk_docs fs) (members_of root fs)
             (parsed_members root fs docs0 Hparse)) in Hviews.
  fold (hoisted root fs) in Hviews.
  assert (Hframe : doc_frame d (doc_at docs p)).
  { apply (hoist_deps_frame root_toml _ p) in Hloop; [|apply collect_sections|done].
    by rewrite doc_at_insert, decide_False, Hdoc0 in Hloop. }
  destruct (Hmemf p d Hp Hd) as [Hcol Hnot].
  destruct (decide (p ∈ occurrence_paths (collect docs0 (members_of root fs)))) as [Hin|Hin].
  - apply (occurrence_paths_collected root fs docs0 p Hparse) in Hin
      as (_ & d1 & Hd1 & Hc). rewrite Hd in Hd1. injection Hd1 as <-.
    destruct (Hcol Hc) as (_ & Hp1 & _). exists (doc_at docs p).
    split; [done|]. destruct Hframe as [Hk Hf]. split; [done|]. intros k.
    destruct (as_block (tget k d)) as [tbl|] eqn:Eb; [|apply Hf; by right].
    case_bool_decide as Hsec; [|apply Hf; by left].
    pose proof (Hviews p k Hp Hsec) as Hv. unfold view in Hv.
    rewrite Hdoc0, Eb in Hv. simpl in Hv. by apply as_block_Some in Hv.
  - assert (¬ has_collected d) as Hnc.
    { intros Hc. apply Hin.
      apply (occurrence_paths_collected root fs docs0 p Hparse). eauto. }
    destruct (Hnot Hnc) as (Hfr & _). exists d. split; [by rewrite Hfr|].
    split; [done|]. intros k.
    destruct (as_block (tget k d)) as [tbl|] eqn:Eb; [|done].
    case_bool_decide as Hsec; [|done].
    apply as_block_Some in Eb as Eb'. rewrite Eb'. do 2 f_equal.
    rewrite <- (rw_tbl_none tbl) at 1. apply rw_tbl_ext.
    intros [k0 v] Hkv Hw. exfalso. apply Hnc. by exists k, tbl, k0, v.
Qed.

Lemma hoist_rewrites_members_witness :
  let clock := λ _ : path, "20240101T000000Z" in
  let fs' := (hoist ["ws"] false clock fs_two_members).1 in
  let rep := Report false (Counts 1 2 1)
               [(["Cargo.toml"], "Cargo.toml.bak");
                (["a"; "Cargo.toml"], "Cargo.toml.bak");
                (["b"; "Cargo.toml"], "Cargo.toml.bak")] in
  let p := ["ws"; "a"; "Cargo.toml"] in
  let d := [("dependencies",
             VTable Block
               [("serde", VStr "1.0.200");
                ("local", VTable Inline [("path", VStr "../local")])])] in
  wf_fs fs_two_members ∧
  hoist ["ws"] false clock fs_two_members = (fs', inr rep) ∧
  p ∈ members_of ["ws"] fs_two_members ∧ fs_two_members !! p = Some (Toml d) ∧
  fs' !! p = Some (Toml [("dependencies",
             VTable Block
               [("serde", VTable Inline [("workspace", VBool true)]);
                ("local", VTable Inline [("path", VStr "../local")])])]) ∧
  ∃ d', fs' !! p = Some (Toml d') ∧ keys d' = keys d ∧
    ∀ k, tget k d' =
      match as_block (tget k d) with
      | Some tbl =>
          if bool_decide (k ∈ SECTIONS)
          then Some (VTable Block (rw_tbl (hoisted ["ws"] fs_two_members) tbl))
          else tget k d
      | None => tget k d
      end.
Proof.
  intros clock fs' rep p d.
  assert (Hrun : hoist ["ws"] false clock fs_two_members = (fs', inr rep))
    by (vm_compute; reflexivity).
  assert (Hp : p ∈ members_of ["ws"] fs_two_members) by (vm_compute; left).
  assert (Hd : fs_two_members !! p = Some (Toml d)) by (vm_compute; reflexivity).
  split; [exact wf_fs_two_members|]. split; [exact Hrun|].
  split; [exact Hp|]. split; [exact Hd|]. split; [by vm_compute|].
  exact (hoist_rewrites_members ["ws"] clock fs_two_members fs' rep p d
           wf_fs_two_members Hrun Hp Hd).
Defined.

(** ** What [restore] reports *)

Lemma restore_files_dry_lists root baks fs : ∀ restored skips,
  Forall (λ b, last b = Some "Cargo.toml.bak") baks →
  restore_files root true baks fs restored skips =
  (fs, inr (restored ++
              ((λ b, (drop (length root) (with_name b "Cargo.toml"), "Cargo.toml.bak")) <$>
                 filter (λ b, ignored b = false ∧
                              is_Some (fs !! with_name b "Cargo.toml")) baks),
            skips ++
              (drop (length root) <$>
                 filter (λ b, ignored b = false ∧
                              fs !! with_name b "Cargo.toml" = None) baks))).
Proof.
  induction baks as [|bak baks IH]; intros restored skips Hnm.
  { simpl. by rewrite !app_nil_r. }
  apply Forall_cons in Hnm as [Hb Hnm]. simpl. rewrite !filter_cons.
  destruct (ignored bak) eqn:Ei.
  { rewrite !decide_False by (by intros [? _]). by apply IH. }
  destruct (fs !! with_name bak "Cargo.toml") as [c|] eqn:Eo.
  - rewrite decide_True by eauto. rewrite decide_False by (by intros [_ ?]).
    rewrite IH by done. unfold name. rewrite Hb. simpl.
    by rewrite <- app_assoc.
  - rewrite decide_False by (by intros [_ [? ?]]). rewrite decide_True by done.
    rewrite IH by done. rewrite fmap_cons. by rewrite <- app_assoc.
Qed.

(** X20.  The report of [restore], dry or not: the restored list holds, in
    the order of the backups, the manifest of every [Cargo.toml.bak] below
    [root] that has no ignored name in its path and whose manifest exists;
    the skip lines are the other such backups, those whose manifest is
    missing.  Backups below an ignored directory are passed over without a
    line. *)
Theorem restore_report_lists (root : path) (dry_run : bool) (fs : fsys)
    (r : restore_report) :
  (restore root dry_run fs).2 = inr (RestoreDone r) →
  res_dry r = dry_run ∧
  res_restored r =
    (λ b, (drop (length root) (with_name b "Cargo.toml"), "Cargo.toml.bak")) <$>
      filter (λ b, ignored b = false ∧ is_Some (fs !! with_name b "Cargo.toml"))
             (find_backups root fs) ∧
  res_skipped r =
    drop (length root) <$>
      filter (λ b, ignored b = false ∧ fs !! with_name b "Cargo.toml" = None)
             (find_backups root fs).
Proof.
  unfold restore.
  destruct (restore_files_found root fs fs [] [])
    as (fs' & [restored skips] & Hdry & Hrun).
  { by intros b [? _]%elem_of_find_backups. }
  { done. }
  rewrite (restore_files_dry_lists root (find_backups root fs) fs [] []
             (find_backups_named root fs)) in Hdry.
  injection Hdry as <- <-.
  destruct (find_backups root fs) as [|b baks] eqn:Ef; [done|].
  destruct dry_run.
  - rewrite (restore_files_dry_lists root (b :: baks) fs [] []).
    + by intros [= <-].
    + rewrite <- Ef. apply find_backups_named.
  - rewrite Hrun. by intros [= <-].
Qed.

Lemma restore_report_lists_witness :
  let r := RestoreReport false [(["Cargo.toml"], "Cargo.toml.bak")] [] in
  (restore ["ws"] false fs_backed).2 = inr (RestoreDone r) ∧
  res_dry r = false ∧
  res_restored r =
    (λ b, (drop (length ["ws"]) (with_name b "Cargo.toml"), "Cargo.toml.bak")) <$>
      filter (λ b, ignored b = false ∧ is_Some (fs_backed !! with_name b "Cargo.toml"))
             (find_backups ["ws"] fs_backed) ∧
  res_skipped r =
    drop (length ["ws"]) <$>
      filter (λ b, ignored b = false ∧ fs_backed !! with_name b "Cargo.toml" = None)
             (find_backups ["ws"] fs_backed).
Proof.
  intros r.
  assert (H : (restore ["ws"] false fs_backed).2 = inr (RestoreDone r))
    by (vm_compute; reflexivity).
  split; [exact H|].
  exact (restore_report_lists ["ws"] false fs_backed r H).
Defined.

(** ** Rewriting a declaration twice *)

Lemma rw_spec_idem spec : rw_spec (rw_spec spec) = rw_spec spec.
Proof.
  destruct spec as [| | | | |k f]; try done. simpl.
  assert (thas "version"
            (tset "workspace" (VBool true)
               (if thas "version" f then tdel "version" f else f)) = false) as ->.
  { apply thas_false. rewrite tget_tset_ne by done.
    destruct (thas "version" f) eqn:E; [apply tget_tdel_eq | by apply thas_false]. }
  by rewrite tset_tset.
Qed.

(** X21.  [mutate_member_dep] raises exactly when the name is not declared
    in the table; it never looks at the version it is given; and applied to
    its own result it changes nothing. *)
Theorem mutate_member_dep_idempotent (dep_table : table) (dep : string)
    (version version' : value) :
  (mutate_member_dep dep_table dep version = None ↔ tget dep dep_table = None) ∧
  mutate_member_dep dep_table dep version = mutate_member_dep dep_table dep version' ∧
  ∀ dep_table',
    mutate_member_dep dep_table dep version = Some dep_table' →
    mutate_member_dep dep_table' dep version' = Some dep_table'.
Proof.
  split; [|split; [done|]].
  - unfold mutate_member_dep. destruct (tget dep dep_table) as [[]|]; done.
  - intros t'. destruct (tget dep dep_table) as [spec|] eqn:E.
    + rewrite (mutate_member_dep_rw _ _ _ _ E). intros [= <-].
      rewrite (mutate_member_dep_rw _ _ _ (rw_spec spec)) by apply tget_tset_eq.
      by rewrite rw_spec_idem, tset_tset.
    + unfold mutate_member_dep. by rewrite E.
Qed.

(** ** The files a command can write *)

Lemma step_frame clock fs fs' p x :
  is_manifest p → step_of clock fs fs' p →
  x ≠ p → x ≠ first_backup p →
  x ≠ with_name p ("Cargo.toml." +:+ clock p +:+ ".bak") →
  fs' !! x = fs !! x.
Proof.
  intros Hp Hstep H1 H2 H3.
  assert (backup_path clock fs p ≠ x) as Hne.
  { rewrite backup_path_first by done. destruct (fs !! first_backup p); congruence. }
  destruct Hstep as [->|(c & Hc & [->|[d ->]])]; [done|..];
    by rewrite ?lookup_insert_ne.
Qed.

Lemma run_frame clock fs ps fs' x :
  run clock fs ps fs' →
  (∀ p, p ∈ ps →
        x ≠ p ∧ x ≠ first_backup p ∧
        x ≠ with_name p ("Cargo.toml." +:+ clock p +:+ ".bak")) →
  fs' !! x = fs !! x.
Proof.
  induction 1 as [|fs p fs1 ps fs2 Hp Hstep _ IH]; [done|]. intros Hx.
  rewrite IH by (intros q Hq; apply Hx; by right).
  destruct (Hx p) as (? & ? & ?); [left|]. by eapply step_frame.
Qed.

(** X22.  [sort] and [hoist] write next to the discovered manifests only: a
    path that is not a discovered manifest, nor its [Cargo.toml.bak], nor
    its backup with the time stamp of the run, has after the run what it
    had before, whatever the mode and the outcome. *)
Theorem writes_stay_with_manifests (root : path) (dry_run : bool)
    (clock : path → string) (fs : fsys) (x : path) :
  (∀ p, p ∈ find_cargo_tomls root fs →
        x ≠ p ∧ x ≠ first_backup p ∧
        x ≠ with_name p ("Cargo.toml." +:+ clock p +:+ ".bak")) →
  (sort root dry_run clock fs).1 !! x = fs !! x ∧
  (hoist root dry_run clock fs).1 !! x = fs !! x.
Proof.
  intros Hx. split.
  - eapply run_frame; [apply sort_trace | done].
  - destruct (hoist_trace root dry_run clock fs) as (l & _ & Hl & Hrun).
    eapply run_frame; [exact Hrun|]. intros p Hp. by apply Hx, Hl.
Qed.

Lemma writes_stay_with_manifests_witness :
  let clock := λ _ : path, "20240101T000000Z" in
  let x := ["ws"; "a"; "Cargo.lock"] in
  (∀ p, p ∈ find_cargo_tomls ["ws"] fs_two_members →
        x ≠ p ∧ x ≠ first_backup p ∧
        x ≠ with_name p ("Cargo.toml." +:+ clock p +:+ ".bak")) ∧
  (sort ["ws"] false clock fs_two_members).1 !! x = fs_two_members !! x ∧
  (hoist ["ws"] false clock fs_two_members).1 !! x = fs_two_members !! x.
Proof.
  intros clock x.
  assert (H : ∀ p, p ∈ find_cargo_tomls ["ws"] fs_two_members →
                   x ≠ p ∧ x ≠ first_backup p ∧
                   x ≠ with_name p ("Cargo.toml." +:+ clock p +:+ ".bak")).
  { intros p Hp.
    assert (Hf : find_cargo_tomls ["ws"] fs_two_members =
                 [["ws"; "Cargo.toml"]; ["ws"; "a"; "Cargo.toml"];
                  ["ws"; "b"; "Cargo.toml"]]) by (vm_compute; reflexivity).
    rewrite Hf in Hp. apply list_elem_of_In in Hp. simpl in Hp.
    destruct Hp as [<-|[<-|[<-|[]]]];
      (split; [|split]); intros E; vm_compute in E; discriminate E. }
  split; [exact H|].
  exact (writes_stay_with_manifests ["ws"] false clock fs_two_members x H).
Defined.
